(** * Snaze: a shallow embedding of the maze model, the snake and the
      simulation controller, with the properties of its specification.

    The C++ sources are translated function by function.  Conventions:

    - [size_t] is a 64-bit unsigned integer, modelled in [N]; every
      arithmetic operation on it writes its reduction modulo [2^64] out.
    - [int] is a 32-bit signed integer, modelled in [Z]; arithmetic is
      reduced to the two's-complement range by [int_wrap] (signed overflow is
      undefined in ISO C++; the model fixes the result the usual targets
      produce, and theorems about arithmetic carry their range hypotheses).
    - [std::vector] and [std::deque] are lists; an access outside the
      container is undefined behaviour and is reported as
      [Fail UndefinedBehaviour] by the error monad [res].
    - [std::unordered_map<size_t, TilePos>] is a [gmap N TilePos].
    - The pseudo-random draws ([std::shuffle], [uniform_int_distribution])
      are inputs of the functions that consume them. *)

From Stdlib Require Import ZArith NArith Lia Ascii.
From stdpp Require Import base numbers option list gmap.

Open Scope N_scope.

(** ** The error monad *)

Inductive fault : Type :=
  | UndefinedBehaviour   (* out-of-range container access *)
  | OutOfFuel            (* a loop of the model used up its step budget *)
  | ProcessExit.         (* [exit()] was called, or an exception that
                            nothing catches ended the process *)

Inductive res (A : Type) : Type :=
  | Ok (a : A)
  | Fail (f : fault).
Arguments Ok {A} a.
Arguments Fail {A} f.

#[global] Instance res_ret : MRet res := fun A a => Ok a.
#[global] Instance res_bind : MBind res :=
  fun A B k m => match m with Ok a => k a | Fail f => Fail f end.

Definition of_option {A} (o : option A) : res A :=
  match o with Some a => Ok a | None => Fail UndefinedBehaviour end.

(** ** Machine integers *)

Definition size_modulus : N := 2 ^ 64.

(** Conversion of an [int] to [size_t]. *)
Definition size_of_int (z : Z) : N := Z.to_N (z mod Z.of_N size_modulus).
Definition size_add (a b : N) : N := (a + b) mod size_modulus.
Definition size_mul (a b : N) : N := (a * b) mod size_modulus.

Definition int_wrap (z : Z) : Z := ((z + 2 ^ 31) mod 2 ^ 32 - 2 ^ 31)%Z.
Definition int_range (z : Z) : Prop := (- 2 ^ 31 <= z < 2 ^ 31)%Z.

(** ** tile_pos.hpp *)

Record TilePos : Type := mkTilePos { row : N; col : N }.

#[global] Instance TilePos_eq_dec : EqDecision TilePos.
Proof. solve_decision. Defined.

(** [TilePos::operator==]. *)
Definition pos_eqb (a b : TilePos) : bool :=
  (row a =? row b) && (col a =? col b).

(** ** snake.hpp: directions and [move] *)

Inductive direction : Type := up | right | down | left.

#[global] Instance direction_eq_dec : EqDecision direction.
Proof. solve_decision. Defined.

(** [static_cast<int>(dir)]. *)
Definition direction_index (d : direction) : nat :=
  match d with up => 0 | right => 1 | down => 2 | left => 3 end%nat.

Definition drow : list Z := [-1; 0; 1; 0]%Z.
Definition dcol : list Z := [0; 1; 0; -1]%Z.

(** [TilePos(p.row + drow[i], p.col + dcol[i])]: the [int] offset is
    converted to [size_t] and the sum wraps. *)
Definition offset (p : TilePos) (i : nat) : TilePos :=
  mkTilePos (size_add (row p) (size_of_int (nth i drow 0%Z)))
            (size_add (col p) (size_of_int (nth i dcol 0%Z))).

Definition move (current_pos : TilePos) (dir : direction) : TilePos :=
  offset current_pos (direction_index dir).

(** ** level.hpp / level.cpp *)

Inductive tile_type_e : Type :=
  | EMPTY | WALL | INV_WALL | FOOD | SNAKE_HEAD | SNAKE_BODY.

#[global] Instance tile_type_eq_dec : EqDecision tile_type_e.
Proof. solve_decision. Defined.

(** Two-dimensional vectors ([m_maze], and the [visit] table of the
    search). *)
Definition nth_cell {A} (v : list A) (i : N) : res A :=
  if N.of_nat (length v) <=? i then Fail UndefinedBehaviour
  else of_option (v !! N.to_nat i).

Definition at2 {A} (g : list (list A)) (p : TilePos) : res A :=
  r ← nth_cell g (row p);
  nth_cell r (col p).

Definition set2 {A} (g : list (list A)) (p : TilePos) (x : A)
  : res (list (list A)) :=
  r ← nth_cell g (row p);
  if N.of_nat (length r) <=? col p then Fail UndefinedBehaviour
  else Ok (<[N.to_nat (row p) := <[N.to_nat (col p) := x]> r]> g).

Record Level : Type := mkLevel {
  m_maze : list (list tile_type_e);
  m_spawn_loc : TilePos;
  m_food_loc : TilePos
}.

Definition n_rows (l : Level) : N := N.of_nat (length (m_maze l)).

(** [m_maze[0].size()]: undefined on a maze without rows. *)
Definition n_cols (l : Level) : res N :=
  match m_maze l with
  | [] => Fail UndefinedBehaviour
  | r :: _ => Ok (N.of_nat (length r))
  end.

Definition get_tile_type (l : Level) (t_pos : TilePos) : res tile_type_e :=
  at2 (m_maze l) t_pos.

Definition set_tile_type (t_type : tile_type_e) (t_pos : TilePos) (l : Level)
  : res Level :=
  m ← set2 (m_maze l) t_pos t_type;
  Ok (mkLevel m (m_spawn_loc l) (m_food_loc l)).

Definition get_food_loc (l : Level) : TilePos := m_food_loc l.
Definition get_spawn_loc (l : Level) : TilePos := m_spawn_loc l.

(** [Level::crashed]: the two bound tests short-circuit, the tile is read
    only when both passed. *)
Definition crashed (l : Level) (t_pos : TilePos) : res bool :=
  if n_rows l <=? row t_pos then Ok true
  else
    nc ← n_cols l;
    if nc <=? col t_pos then Ok true
    else
      t_type ← get_tile_type l t_pos;
      Ok (bool_decide (t_type ≠ EMPTY) && bool_decide (t_type ≠ FOOD)).

(** Counted loops: [for (x : xs) body], threading the state and stopping
    at the first fault. *)
Fixpoint for_each {A S : Type} (xs : list A) (body : A → S → res S) (s : S)
  : res S :=
  match xs with
  | [] => Ok s
  | x :: xs' => s' ← body x s; for_each xs' body s'
  end.

(** The values [0, 1, ..., n-1] of a [size_t] loop counter. *)
Definition size_range (n : N) : list N := N.of_nat <$> seq 0 (N.to_nat n).

(** [Level::remove_snake]. *)
Definition remove_snake (l : Level) : res Level :=
  m ← for_each (size_range (n_rows l)) (fun i m =>
         nc ← n_cols l;
         for_each (size_range nc) (fun j m =>
           t ← at2 m (mkTilePos i j);
           if bool_decide (t = SNAKE_HEAD) || bool_decide (t = SNAKE_BODY)
           then set2 m (mkTilePos i j) EMPTY
           else Ok m) m)
       (m_maze l);
  Ok (mkLevel m (m_spawn_loc l) (m_food_loc l)).

(** [Level::empty_spaces]: row-major scan, [push_back] appends. *)
Definition empty_spaces (l : Level) : res (list TilePos) :=
  for_each (size_range (n_rows l)) (fun i vec_tiles =>
    nc ← n_cols l;
    for_each (size_range nc) (fun j vec_tiles =>
      t ← at2 (m_maze l) (mkTilePos i j);
      if bool_decide (t = EMPTY)
      then Ok (vec_tiles ++ [mkTilePos i j])
      else Ok vec_tiles) vec_tiles)
    [].

(** [Level::place_food].  [rnd] is the raw variate of the generator; the
    distribution maps it into [0, size - 1]. *)
Definition place_food (rnd : nat) (l : Level) : res Level :=
  vec_empty_spaces ← empty_spaces l;
  match vec_empty_spaces with
  | [] => Ok l
  | _ :: _ =>
      food ← of_option
        (vec_empty_spaces !! (rnd mod length vec_empty_spaces)%nat);
      set_tile_type FOOD food (mkLevel (m_maze l) (m_spawn_loc l) food)
  end.

(** [std::string::operator[]]: the position equal to the size yields the
    terminating null character, a larger one is out of range. *)
Definition char_at (line : list ascii) (j : N) : res ascii :=
  if j =? N.of_nat (length line) then Ok "000"%char
  else nth_cell line j.

(** The [switch] of the constructor, acting on the maze and on
    [m_spawn_loc]. *)
Definition fill_cell (ch : ascii) (p : TilePos)
    (st : list (list tile_type_e) * TilePos)
  : res (list (list tile_type_e) * TilePos) :=
  let '(m, spawn) := st in
  if decide (ch = " "%char) then m' ← set2 m p EMPTY; Ok (m', spawn)
  else if decide (ch = "#"%char) then m' ← set2 m p WALL; Ok (m', spawn)
  else if decide (ch = "."%char) then m' ← set2 m p INV_WALL; Ok (m', spawn)
  else if decide (ch = "&"%char) then m' ← set2 m p SNAKE_HEAD; Ok (m', p)
  else Ok st.

(** [Level::Level]: every row is resized to the size of the first line
    (new cells hold 0, that is [EMPTY]), the cells are filled from the
    characters, and the food is placed. *)
Definition Level_ctor (rnd : nat) (input_maze : list (list ascii))
  : res Level :=
  let sized := (fun _ => replicate (length (hd [] input_maze)) EMPTY)
                 <$> input_maze in
  let l0 := mkLevel sized (mkTilePos 0 0) (mkTilePos 0 0) in
  '(m, spawn) ←
    for_each (size_range (n_rows l0)) (fun i st =>
       nc ← n_cols l0;
       for_each (size_range nc) (fun j st =>
         line ← nth_cell input_maze i;
         ch ← char_at line j;
         fill_cell ch (mkTilePos i j) st) st)
      (sized, mkTilePos 0 0);
  place_food rnd (mkLevel m spawn (mkTilePos 0 0)).

(** *** Specification vocabulary for levels *)

(** The content of a cell, [None] outside the vector. *)
Definition cell {A} (g : list (list A)) (p : TilePos) : option A :=
  g !! N.to_nat (row p) ≫= fun r => r !! N.to_nat (col p).

(** What the scan of [empty_spaces] appends for the cell [(i, j)]. *)
Definition empty_at (l : Level) (i j : N) : list TilePos :=
  match get_tile_type l (mkTilePos i j) with
  | Ok EMPTY => [mkTilePos i j]
  | _ => []
  end.

(** The width every row has in a maze built by the constructor. *)
Definition width (l : Level) : N := N.of_nat (length (hd [] (m_maze l))).

(** The constructor resizes every row to the width of the first one. *)
Definition rectangular (l : Level) : Prop :=
  Forall (fun r => length r = length (hd [] (m_maze l))) (m_maze l).

Definition in_bounds (l : Level) (p : TilePos) : Prop :=
  row p < n_rows l ∧ col p < width l.

Definition out_of_bounds (l : Level) (p : TilePos) : Prop :=
  n_rows l ≤ row p ∨ width l ≤ col p.

(** ** snake.hpp / snake.cpp *)

Record Snake : Type := mkSnake {
  body : list TilePos;          (* front of the deque = head of the list *)
  found_foods : bool;
  collision : bool;
  wall_collision : bool
}.

Definition set_body (b : list TilePos) (sn : Snake) : Snake :=
  mkSnake b (found_foods sn) (collision sn) (wall_collision sn).
Definition set_found_foods (f : bool) (sn : Snake) : Snake :=
  mkSnake (body sn) f (collision sn) (wall_collision sn).
Definition set_collision (c : bool) (sn : Snake) : Snake :=
  mkSnake (body sn) (found_foods sn) c (wall_collision sn).

(** [Snake::init]. *)
Definition init (start_pos : TilePos) (sn : Snake) : Snake :=
  set_body [start_pos] sn.

(** [Snake::reset]: acts on the snake and on the level it is given. *)
Definition reset (sn : Snake) (level : Level) : res (Snake * Level) :=
  let start_pos := get_spawn_loc level in
  level' ← set_tile_type SNAKE_HEAD start_pos level;
  Ok (mkSnake [start_pos] false false (wall_collision sn), level').

(** [Snake::is_valid_position]: the tile is read without a bounds test. *)
Definition is_valid_position (pos : TilePos) (level : Level) (sn : Snake)
  : res bool :=
  t ← get_tile_type level pos;
  if bool_decide (t = WALL) then Ok false
  else if existsb (fun segment => pos_eqb segment pos) (body sn)
       then Ok false
       else Ok true.

(** [Snake::search_random].  [directions] is the vector after
    [std::shuffle], a permutation of the four directions. *)
Fixpoint search_random (directions : list direction) (head_pos : TilePos)
    (level : Level) (sn : Snake) : res (option direction) :=
  match directions with
  | [] => Ok None
  | dir :: rest =>
      usable ← is_valid_position (move head_pos dir) level sn;
      if (usable : bool) then Ok (Some dir)
      else search_random rest head_pos level sn
  end.

(** ** SnazeSimulation.hpp *)

Inductive states : Type :=
  | START | WELCOME | START_SCREEN | SNAKE_THINKING | GAME_RUNNING
  | SNAKE_CRASHED | LEVEL_UP | GAME_WON | GAME_OVER.

#[global] Instance states_eq_dec : EqDecision states.
Proof. solve_decision. Defined.

Inductive player_type_e : Type := RANDOM | BACKTRACKING.

#[global] Instance player_type_eq_dec : EqDecision player_type_e.
Proof. solve_decision. Defined.

Record SnazeSimulation : Type := mkSim {
  current_state : states;
  levels : list Level;
  snake_obj : Snake;
  head_pos : TilePos;
  dir : direction;
  next_dir : direction;
  next_pos : TilePos;
  score : Z;
  fps : Z;
  n_lives : Z;
  n_food : Z;
  player_type : player_type_e;
  current_level_index : Z;
  current_life : Z;
  current_food : Z
}.

Definition set_current_state (v : states) (s : SnazeSimulation) :=
  mkSim v (levels s) (snake_obj s) (head_pos s) (dir s) (next_dir s)
    (next_pos s) (score s) (fps s) (n_lives s) (n_food s) (player_type s)
    (current_level_index s) (current_life s) (current_food s).
Definition set_levels (v : list Level) (s : SnazeSimulation) :=
  mkSim (current_state s) v (snake_obj s) (head_pos s) (dir s) (next_dir s)
    (next_pos s) (score s) (fps s) (n_lives s) (n_food s) (player_type s)
    (current_level_index s) (current_life s) (current_food s).
Definition set_snake_obj (v : Snake) (s : SnazeSimulation) :=
  mkSim (current_state s) (levels s) v (head_pos s) (dir s) (next_dir s)
    (next_pos s) (score s) (fps s) (n_lives s) (n_food s) (player_type s)
    (current_level_index s) (current_life s) (current_food s).
Definition set_head_pos (v : TilePos) (s : SnazeSimulation) :=
  mkSim (current_state s) (levels s) (snake_obj s) v (dir s) (next_dir s)
    (next_pos s) (score s) (fps s) (n_lives s) (n_food s) (player_type s)
    (current_level_index s) (current_life s) (current_food s).
Definition set_dir (v : direction) (s : SnazeSimulation) :=
  mkSim (current_state s) (levels s) (snake_obj s) (head_pos s) v (next_dir s)
    (next_pos s) (score s) (fps s) (n_lives s) (n_food s) (player_type s)
    (current_level_index s) (current_life s) (current_food s).
Definition set_next_dir (v : direction) (s : SnazeSimulation) :=
  mkSim (current_state s) (levels s) (snake_obj s) (head_pos s) (dir s) v
    (next_pos s) (score s) (fps s) (n_lives s) (n_food s) (player_type s)
    (current_level_index s) (current_life s) (current_food s).
Definition set_next_pos (v : TilePos) (s : SnazeSimulation) :=
  mkSim (current_state s) (levels s) (snake_obj s) (head_pos s) (dir s)
    (next_dir s) v (score s) (fps s) (n_lives s) (n_food s) (player_type s)
    (current_level_index s) (current_life s) (current_food s).
Definition set_score (v : Z) (s : SnazeSimulation) :=
  mkSim (current_state s) (levels s) (snake_obj s) (head_pos s) (dir s)
    (next_dir s) (next_pos s) v (fps s) (n_lives s) (n_food s) (player_type s)
    (current_level_index s) (current_life s) (current_food s).
Definition set_fps (v : Z) (s : SnazeSimulation) :=
  mkSim (current_state s) (levels s) (snake_obj s) (head_pos s) (dir s)
    (next_dir s) (next_pos s) (score s) v (n_lives s) (n_food s)
    (player_type s) (current_level_index s) (current_life s) (current_food s).
Definition set_n_lives (v : Z) (s : SnazeSimulation) :=
  mkSim (current_state s) (levels s) (snake_obj s) (head_pos s) (dir s)
    (next_dir s) (next_pos s) (score s) (fps s) v (n_food s) (player_type s)
    (current_level_index s) (current_life s) (current_food s).
Definition set_n_food (v : Z) (s : SnazeSimulation) :=
  mkSim (current_state s) (levels s) (snake_obj s) (head_pos s) (dir s)
    (next_dir s) (next_pos s) (score s) (fps s) (n_lives s) v (player_type s)
    (current_level_index s) (current_life s) (current_food s).
Definition set_player_type (v : player_type_e) (s : SnazeSimulation) :=
  mkSim (current_state s) (levels s) (snake_obj s) (head_pos s) (dir s)
    (next_dir s) (next_pos s) (score s) (fps s) (n_lives s) (n_food s) v
    (current_level_index s) (current_life s) (current_food s).
Definition set_current_level_index (v : Z) (s : SnazeSimulation) :=
  mkSim (current_state s) (levels s) (snake_obj s) (head_pos s) (dir s)
    (next_dir s) (next_pos s) (score s) (fps s) (n_lives s) (n_food s)
    (player_type s) v (current_life s) (current_food s).
Definition set_current_life (v : Z) (s : SnazeSimulation) :=
  mkSim (current_state s) (levels s) (snake_obj s) (head_pos s) (dir s)
    (next_dir s) (next_pos s) (score s) (fps s) (n_lives s) (n_food s)
    (player_type s) (current_level_index s) v (current_food s).
Definition set_current_food (v : Z) (s : SnazeSimulation) :=
  mkSim (current_state s) (levels s) (snake_obj s) (head_pos s) (dir s)
    (next_dir s) (next_pos s) (score s) (fps s) (n_lives s) (n_food s)
    (player_type s) (current_level_index s) (current_life s) v.

(** [levels[current_level_index]]: the [int] index is converted to
    [size_t]; a negative or too large one is out of range. *)
Definition current_level (s : SnazeSimulation) : res Level :=
  if (current_level_index s <? 0)%Z then Fail UndefinedBehaviour
  else of_option (levels s !! Z.to_nat (current_level_index s)).

Definition store_current_level (l : Level) (s : SnazeSimulation)
  : SnazeSimulation :=
  set_levels (<[Z.to_nat (current_level_index s) := l]> (levels s)) s.

(** ** The controller (SnazeSimulation member functions) *)

(** [SnazeSimulation::update_score]. *)
Definition update_score (s : SnazeSimulation) : SnazeSimulation :=
  set_score (int_wrap (score s + int_wrap (20 * current_food s))) s.

(** [SnazeSimulation::reset_food]. *)
Definition reset_food (s : SnazeSimulation) : SnazeSimulation :=
  set_current_food 0%Z s.

(** [SnazeSimulation::respawn]. *)
Definition respawn (s : SnazeSimulation) : res SnazeSimulation :=
  l ← current_level s;
  l1 ← remove_snake l;
  '(sn, l2) ← reset (snake_obj s) l1;
  let s1 := set_snake_obj (set_collision false sn) (store_current_level l2 s) in
  let spawn := get_spawn_loc l2 in
  Ok (set_next_pos spawn (set_head_pos spawn s1)).

(** [SnazeSimulation::print_maze_in_lv] writes to the console only. *)
Definition print_maze_in_lv (s : SnazeSimulation) : SnazeSimulation := s.

(** [SnazeSimulation::level_up]. *)
Definition level_up (s : SnazeSimulation) : res SnazeSimulation :=
  if (int_wrap (current_level_index s + 1)
        <? int_wrap (Z.of_nat (length (levels s))))%Z
  then
    let s1 := set_current_level_index
                (int_wrap (current_level_index s + 1)) s in
    l ← current_level s1;
    '(sn, l') ← reset (snake_obj s1) l;
    let s2 := set_snake_obj sn (store_current_level l' s1) in
    s3 ← respawn (print_maze_in_lv (reset_food s2));
    Ok (set_current_state START_SCREEN s3)
  else Ok (set_current_state GAME_WON s).

(** [SnazeSimulation::input_colision]. *)
Definition input_colision (food colision : bool) (s : SnazeSimulation)
  : res SnazeSimulation :=
  if food then
    let s1 := set_current_food (int_wrap (current_food s + 1)) s in
    let s2 := update_score s1 in
    let s3 := set_snake_obj (set_found_foods false (snake_obj s2)) s2 in
    if (current_food s3 =? n_food s3)%Z then level_up s3 else Ok s3
  else if colision && negb food then
    let s1 := set_current_life (int_wrap (current_life s - 1)) s in
    let s2 := if (current_life s1 >? 0)%Z
              then set_current_state SNAKE_CRASHED s1 else s1 in
    let s3 := if (current_life s2 =? 0)%Z
              then set_current_state GAME_OVER s2 else s2 in
    Ok s3
  else Ok s.

(** [SnazeSimulation::troca]. *)
Definition troca (directions : list direction) (s : SnazeSimulation)
  : res SnazeSimulation :=
  l ← current_level s;
  dir_opt ← search_random directions (head_pos s) l (snake_obj s);
  match dir_opt with
  | Some d => Ok (set_next_pos (move (head_pos s) d) (set_next_dir d s))
  | None => input_colision false true s
  end.

(** [SnazeSimulation::snake_update].  [rnd] feeds [place_food]. *)
Definition snake_update (rnd : nat) (s : SnazeSimulation)
  : res SnazeSimulation :=
  l ← current_level s;
  t ← get_tile_type l (next_pos s);
  let comeu := bool_decide (t = FOOD) in
  if bool_decide (current_state s ≠ SNAKE_THINKING) then Ok s
  else
    c ← crashed l (next_pos s);
    if (c : bool) then Ok (set_current_state GAME_OVER s)
    else
      l1 ← set_tile_type SNAKE_HEAD (next_pos s) l;
      let body1 := next_pos s :: body (snake_obj s) in
      '(body2, l2) ←
        (if negb comeu then
           tail ← of_option (last body1);
           l2 ← set_tile_type EMPTY tail l1;
           Ok (removelast body1, l2)
         else
           l2 ← place_food rnd l1;
           Ok (body1, l2));
      l3 ← (if decide (1 < length body2)%nat then
              seg ← of_option (body2 !! 1%nat);
              set_tile_type SNAKE_BODY seg l2
            else Ok l2);
      let s1 := set_snake_obj (set_body body2 (snake_obj s))
                  (store_current_level l3 s) in
      Ok (set_dir (next_dir s1) (set_head_pos (next_pos s1) s1)).

(** *** The breadth-first search (snake.cpp) *)

(** The locals of [Snake::breadthFirst_search]: the queue, the visited
    table and the predecessor map. *)
Record search_state : Type := mkSearch {
  fila : list TilePos;
  visit : list (list bool);
  main : gmap N TilePos
}.

(** The key [p.row * level.n_cols() + p.col], computed in [size_t]. *)
Definition cell_key (nc : N) (p : TilePos) : N :=
  size_add (size_mul (row p) nc) (col p).

Inductive expansion : Type :=
  | Continue (st : search_state)
  | Abort.                       (* the [return] inside the inner loop *)

(** One turn of the inner [for] loop, for neighbour number [i]. *)
Definition visit_neighbour (level : Level) (curr : TilePos) (i : nat)
    (st : search_state) : res expansion :=
  let V := offset curr i in
  if row V <? n_rows level then
    nc ← n_cols level;
    if col V <? nc then
      seen ← at2 (visit st) V;
      if (seen : bool) then Ok (Continue st)
      else
        blocked ← crashed level V;
        if (blocked : bool) then Ok (Continue st)
        else
          visit' ← set2 (visit st) V true;
          nc' ← n_cols level;
          let st' := mkSearch (fila st ++ [V]) visit'
                       (<[cell_key nc' V := curr]> (main st)) in
          blocked' ← crashed level V;
          if (blocked' : bool) then Ok Abort else Ok (Continue st')
    else Ok (Continue st)
  else Ok (Continue st).

Fixpoint expand (level : Level) (curr : TilePos) (indices : list nat)
    (st : search_state) : res expansion :=
  match indices with
  | [] => Ok (Continue st)
  | i :: rest =>
      r ← visit_neighbour level curr i st;
      match r with
      | Continue st' => expand level curr rest st'
      | Abort => Ok Abort
      end
  end.

Inductive search_outcome : Type :=
  | Found (food_pos : TilePos) (st : search_state)  (* left by [break] *)
  | Exhausted (st : search_state)                   (* the queue drained *)
  | Aborted.                                        (* left by [return] *)

(** The [while (not fila.empty())] loop. *)
Fixpoint bfs_loop (fuel : nat) (level : Level) (st : search_state)
  : res search_outcome :=
  match fuel with
  | O => Fail OutOfFuel
  | S fuel' =>
      match fila st with
      | [] => Ok (Exhausted st)
      | curr :: rest =>
          let st1 := mkSearch rest (visit st) (main st) in
          t ← get_tile_type level curr;
          if bool_decide (t = FOOD) then Ok (Found curr st1)
          else
            r ← expand level curr (seq 0 4) st1;
            match r with
            | Continue st2 => bfs_loop fuel' level st2
            | Abort => Ok Aborted
            end
      end
  end.

(** The [while (true)] loop of [Snake::found_food].  [main[k]] on a missing
    key yields (and stores) a default [TilePos]; a later read of the same
    key sees the same value, so the read is modelled by a defaulting
    lookup. *)
Fixpoint found_food_walk (fuel : nat) (nc : N) (main : gmap N TilePos)
    (start curr : TilePos) : res TilePos :=
  match fuel with
  | O => Fail OutOfFuel
  | S fuel' =>
      let anterior := default (mkTilePos 0 0) (main !! cell_key nc curr) in
      if (row anterior =? row start) && (col anterior =? col start)
      then Ok curr
      else found_food_walk fuel' nc main start anterior
  end.

(** [Snake::found_food]; the result is the value left in [next_move]. *)
Definition found_food (fuel : nat) (achei : bool) (food_pos : TilePos)
    (main : gmap N TilePos) (level : Level) (start : TilePos) : res TilePos :=
  if achei then
    nc ← n_cols level;
    match main !! cell_key nc food_pos with
    | None => Ok food_pos
    | Some _ => found_food_walk fuel nc main start food_pos
    end
  else Ok start.

(** The step budget of the loops of the search: one step per cell of the
    grid, plus one. *)
Definition search_fuel (l : Level) (nc : N) : nat :=
  S (N.to_nat (n_rows l) * N.to_nat nc).

(** [Snake::breadthFirst_search], as [SnazeSimulation::snake_thinking] calls
    it: [level] is [levels[current_level_index]], [start] is a copy of
    [head_pos] and [next_move] is a reference to the member [next_pos], so
    that every write to [next_move] is a write to [next_pos] and conversely. *)
Definition breadthFirst_search (directions : list direction)
    (s : SnazeSimulation) : res SnazeSimulation :=
  level ← current_level s;
  let start := head_pos s in
  nc ← n_cols level;
  let fuel := search_fuel level nc in
  let visit0 :=
    replicate (N.to_nat (n_rows level)) (replicate (N.to_nat nc) false) in
  if bool_decide (current_state s ≠ SNAKE_THINKING) then Ok s
  else
    let s1 := set_snake_obj
                (set_collision false (set_found_foods false (snake_obj s))) s in
    visit1 ← set2 visit0 start true;
    out ← bfs_loop fuel level (mkSearch [start] visit1 ∅);
    match out with
    | Aborted => input_colision false (collision (snake_obj s1)) s1
    | Exhausted st => troca directions s1
    | Found food_pos st =>
        let s2 := set_snake_obj (set_found_foods true (snake_obj s1)) s1 in
        s3 ← (match fila st with
              | [] => troca directions s2
              | _ :: _ => Ok s2
              end);
        if found_foods (snake_obj s3) then
          next_move ← found_food fuel (found_foods (snake_obj s3)) food_pos
                        (main st) level start;
          let s4 := set_next_pos next_move s3 in
          if pos_eqb next_move (get_food_loc level)
          then input_colision true (collision (snake_obj s4)) s4
          else Ok s4
        else Ok s3
    end.

(** [SnazeSimulation::snake_thinking]. *)
Definition snake_thinking (directions : list direction) (s : SnazeSimulation)
  : res SnazeSimulation :=
  if bool_decide (player_type s = RANDOM) then troca directions s
  else breadthFirst_search directions s.

(** [SnazeSimulation::update]; the [SNAKE_THINKING] case has no [break]
    and falls into the empty [GAME_RUNNING] case. *)
Definition update (rnd : nat) (s : SnazeSimulation) : res SnazeSimulation :=
  match current_state s with
  | START => Ok (set_current_state WELCOME s)
  | WELCOME => Ok (set_current_state START_SCREEN s)
  | SNAKE_THINKING =>
      s1 ← snake_update rnd s;
      Ok (set_current_state GAME_RUNNING s1)
  | LEVEL_UP => level_up s
  | _ => Ok s
  end.

(** *** Start-up (SnazeSimulation.hpp, render.cpp) *)

(** The constructor with the default member initialisers, in declaration
    order: [n_lives = 5] and then [current_life = n_lives].  [dir] is left
    uninitialised by the source; [dir0] stands for whatever it holds. *)
Definition SnazeSimulation_ctor (dir0 : direction) : SnazeSimulation :=
  let head0 := mkTilePos 0 0 in
  let n_lives0 := 5%Z in
  mkSim START [] (mkSnake [] false false false) head0 dir0 dir0 head0
        0%Z 10%Z n_lives0 10%Z BACKTRACKING 0%Z n_lives0 0%Z.

(** The text after a numeric option: either a string of digits, given by
    the natural number it writes, or something else
    ([verifies_natural_number] tells them apart). *)
Inductive number_text : Type :=
  | digits (value : N)
  | not_a_number.

Inductive cli_arg : Type :=
  | arg_help
  | arg_fps (t : number_text)
  | arg_lives (t : number_text)
  | arg_food (t : number_text)
  | arg_playertype_random
  | arg_playertype_backtracking
  | arg_playertype_other
  | arg_file (loaded : option (list Level)).  (* [None]: not a readable file;
                                                 else what [parse_file] adds *)

(** The test [!verifies_natural_number(next_arg) || std::stoi(next_arg) == 0]
    and the conversion that follows it.  [std::stoi] throws
    [std::out_of_range] on a number that is no [int]; nothing catches it,
    and the process ends. *)
Definition checked_number (t : number_text) : res Z :=
  match t with
  | digits v =>
      if 2 ^ 31 - 1 <? v then Fail ProcessExit
      else if v =? 0 then Fail ProcessExit
      else Ok (Z.of_N v)
  | not_a_number => Fail ProcessExit
  end.

(** One turn of the argument loop of [SnazeSimulation::initialize]. *)
Definition initialize_arg (a : cli_arg) (s : SnazeSimulation)
  : res SnazeSimulation :=
  match a with
  | arg_help => Fail ProcessExit
  | arg_fps t => v ← checked_number t; Ok (set_fps v s)
  | arg_lives t => v ← checked_number t; Ok (set_n_lives v s)
  | arg_food t => v ← checked_number t; Ok (set_n_food v s)
  | arg_playertype_random => Ok (set_player_type RANDOM s)
  | arg_playertype_backtracking => Ok s
  | arg_playertype_other => Fail ProcessExit
  | arg_file None => Fail ProcessExit
  | arg_file (Some loaded) =>
      let s1 := set_levels (levels s ++ loaded) s in
      match levels s1 with
      | [] => Fail ProcessExit
      | _ :: _ =>
          l ← current_level s1;
          let s2 := set_dir right (set_head_pos (get_spawn_loc l) s1) in
          l' ← set_tile_type SNAKE_HEAD (head_pos s2) l;
          Ok (set_snake_obj (init (head_pos s2) (snake_obj s2))
                (store_current_level l' s2))
      end
  end.

Definition initialize (args : list cli_arg) (s : SnazeSimulation)
  : res SnazeSimulation :=
  match args with
  | [] => Fail ProcessExit
  | _ :: _ => for_each args initialize_arg s
  end.

(** *** Specification vocabulary for the search *)

(** One move of the search: to one of the four neighbours, inside the grid
    and not blocking. *)
Definition step (l : Level) (u v : TilePos) : Prop :=
  ∃ i, (i < 4)%nat ∧ v = offset u i ∧ in_bounds l v ∧ crashed l v = Ok false.

Inductive path (l : Level) : TilePos → TilePos → nat → Prop :=
  | path_nil u : path l u u 0
  | path_cons u v w n : step l u v → path l v w n → path l u w (S n).

Definition is_food (l : Level) (p : TilePos) : Prop :=
  get_tile_type l p = Ok FOOD.

(** [d] is the length of a shortest path from [u] to [v]. *)
Definition shortest (l : Level) (u v : TilePos) (d : nat) : Prop :=
  path l u v d ∧ ∀ n, path l u v n → (d ≤ n)%nat.

(** *** Invariant of the search *)

(** [depth l start nc mn v n]: following the predecessor map from [v]
    reaches [start] in [n] steps. *)
Inductive depth (l : Level) (start : TilePos) (nc : N)
    (mn : gmap N TilePos) : TilePos → nat → Prop :=
  | depth_start : depth l start nc mn start 0
  | depth_next v u n :
      in_bounds l v → mn !! cell_key nc v = Some u →
      depth l start nc mn u n →
      depth l start nc mn v (S n).

Definition visited (vis : list (list bool)) (v : TilePos) : Prop :=
  at2 vis v = Ok true.

Definition is_visited (vis : list (list bool)) (v : TilePos) : bool :=
  match at2 vis v with Ok true => true | _ => false end.

Definition table_dims (l : Level) (nc : N) (vis : list (list bool)) : Prop :=
  length vis = N.to_nat (n_rows l) ∧
  Forall (fun r => length r = N.to_nat nc) vis.

(** The invariant, for the cells [F] that are visited and whose neighbours
    have not all been looked at (the queue, preceded by the cell being
    expanded), at depth level [k]. *)
Record search_inv (l : Level) (start : TilePos) (nc : N) (k : nat)
    (F : list TilePos) (vis : list (list bool)) (mn : gmap N TilePos)
  : Prop := mkSearchInv {
  inv_dims : table_dims l nc vis;
  inv_start : visited vis start;
  inv_depth : ∀ v, visited vis v →
                ∃ n, depth l start nc mn v n ∧ (n ≤ S k)%nat;
  inv_main : ∀ v u, in_bounds l v → mn !! cell_key nc v = Some u →
               visited vis v ∧ visited vis u ∧ step l u v ∧ v ≠ start;
  inv_front : ∃ q1 q2, F = q1 ++ q2 ∧
                Forall (fun v => depth l start nc mn v k) q1 ∧
                Forall (fun v => depth l start nc mn v (S k)) q2;
  inv_closed : ∀ v, visited vis v → v ∉ F →
                 ¬ is_food l v ∧
                 ∀ w, step l v w →
                   visited vis w ∧
                   ∃ n m, depth l start nc mn v n ∧
                          depth l start nc mn w m ∧ (m ≤ S n)%nat
}.

Definition all_cells (l : Level) (nc : N) : list TilePos :=
  size_range (n_rows l) ≫= fun i =>
  size_range nc ≫= fun j => [mkTilePos i j].

Fixpoint count_if {A} (f : A → bool) (xs : list A) : nat :=
  match xs with
  | [] => 0
  | x :: xs' => ((if f x then 1 else 0) + count_if f xs')%nat
  end.

(** The cells not visited yet, plus the cells waiting in the queue: every
    turn of the [while] loop lowers it. *)
Definition search_measure (l : Level) (nc : N) (st : search_state) : nat :=
  (count_if (fun p => negb (is_visited (visit st) p)) (all_cells l nc)
   + length (fila st))%nat.

(** What the [while] loop establishes, [bound] being the number of cells. *)
Definition outcome_spec (l : Level) (start : TilePos) (nc : N) (bound : nat)
    (out : search_outcome) : Prop :=
  match out with
  | Found f st' =>
      is_food l f ∧
      ∃ k F vis,
        search_inv l start nc k F vis (main st') ∧
        depth l start nc (main st') f k ∧ (k ≤ bound)%nat ∧
        ∀ w n, is_food l w → path l start w n → (k ≤ n)%nat
  | Exhausted _ => ∀ w n, is_food l w → path l start w n → False
  | Aborted => False
  end.

(** [nm] is a best first move from [start] towards the food at [f], which
    lies [k] moves away: with [k = 0] it is the food cell itself, else it
    is one move from [start] and [k - 1] moves, and no fewer, from [f]. *)
Definition best_first_move (l : Level) (start f nm : TilePos) (k : nat)
  : Prop :=
  (k = 0%nat ∧ f = start ∧ nm = f) ∨
  ((0 < k)%nat ∧ step l start nm ∧ shortest l nm f (k - 1)).

(** One more food event completes the level, and a further level exists:
    the food event then runs [level_up] into that level. *)
Definition completes_level (s : SnazeSimulation) : Prop :=
  int_wrap (current_food s + 1) = n_food s ∧
  (int_wrap (current_level_index s + 1)
   < int_wrap (Z.of_nat (length (levels s))))%Z.

(** *** Specification vocabulary for the controller *)

(** [1 + 2 + ... + n]. *)
Fixpoint sum_to (n : nat) : Z :=
  match n with
  | O => 0%Z
  | S m => (sum_to m + Z.of_nat (S m))%Z
  end.

(** A run of food events: [input_colision(true, c)] once per element. *)
Definition food_events (cs : list bool) (s : SnazeSimulation)
  : res SnazeSimulation :=
  for_each cs (fun c => input_colision true c) s.

(** ** Concrete levels used by the examples *)

Definition demo_maze : list (list tile_type_e) :=
  [ [WALL; WALL; WALL; WALL];
    [WALL; SNAKE_HEAD; FOOD; WALL];
    [WALL; WALL; WALL; WALL] ].

Definition demo_level : Level :=
  mkLevel demo_maze (mkTilePos 1 1) (mkTilePos 1 2).

(** A simulation on the demo level, in a given state, with the snake at
    the spawn cell and the defaults of the constructor. *)
Definition demo_sim (st : states) : SnazeSimulation :=
  mkSim st [demo_level] (mkSnake [mkTilePos 1 1] false false false)
        (mkTilePos 1 1) right right (mkTilePos 1 1)
        0 10 5 10 BACKTRACKING 0 5 0.

(** Both flags raised while the game runs, and the state one food event
    later. *)
Definition hungry_sim : SnazeSimulation :=
  set_snake_obj (mkSnake [mkTilePos 1 1] true true false)
                (demo_sim GAME_RUNNING).

Definition fed_sim : SnazeSimulation :=
  set_snake_obj (mkSnake [mkTilePos 1 1] false true false)
    (set_score 20 (set_current_food 1 hungry_sim)).

(** Three food events later, counted from the start of the level. *)
Definition three_meals_sim : SnazeSimulation :=
  set_score 120 (set_current_food 3 (demo_sim GAME_RUNNING)).

(** The snake is about to step into the wall on its left. *)
Definition doomed_sim : SnazeSimulation :=
  set_next_pos (mkTilePos 1 0) (demo_sim SNAKE_THINKING).

(** The proposal lies outside the grid, four rows below its last row. *)
Definition stray_sim : SnazeSimulation :=
  set_next_pos (mkTilePos 7 0) (demo_sim SNAKE_THINKING).

(** A level whose spawn cell touches a hidden wall; the food lies behind a
    wall, out of reach. *)
Definition hidden_wall_level : Level :=
  mkLevel [ [WALL; INV_WALL; WALL; WALL; WALL];
            [WALL; SNAKE_HEAD; WALL; FOOD; WALL];
            [WALL; WALL; WALL; WALL; WALL] ]
          (mkTilePos 1 1) (mkTilePos 1 3).

Definition hidden_wall_sim : SnazeSimulation :=
  mkSim SNAKE_THINKING [hidden_wall_level]
        (mkSnake [mkTilePos 1 1] false false false)
        (mkTilePos 1 1) right right (mkTilePos 1 1)
        0 10 5 10 BACKTRACKING 0 5 0.

(** *** Runs of committed moves *)

(** [snake_update] is entered in the thinking state with a proposal that
    does not crash, and runs to its end. *)
Definition committed (rnd : nat) (s s' : SnazeSimulation) : Prop :=
  current_state s = SNAKE_THINKING ∧
  (∃ l, current_level s = Ok l ∧ crashed l (next_pos s) = Ok false) ∧
  snake_update rnd s = Ok s'.

(** The proposal is the food cell. *)
Definition lands_on_food (s : SnazeSimulation) : Prop :=
  ∃ l, current_level s = Ok l ∧ get_tile_type l (next_pos s) = Ok FOOD.

(** [commits s n s']: from [s], a sequence of committed moves of which [n]
    landed on food leads to [s'].  Between two commits the controller may
    do anything that leaves the body alone (thinking, rendering, flags). *)
Inductive commits : SnazeSimulation → nat → SnazeSimulation → Prop :=
  | commits_none s : commits s 0 s
  | commits_grow s s1 s2 s3 n rnd :
      commits s n s1 →
      body (snake_obj s2) = body (snake_obj s1) →
      committed rnd s2 s3 → lands_on_food s2 →
      commits s (S n) s3
  | commits_move s s1 s2 s3 n rnd :
      commits s n s1 →
      body (snake_obj s2) = body (snake_obj s1) →
      committed rnd s2 s3 → ¬ lands_on_food s2 →
      commits s n s3.

(** A second level, and a game of two levels in which one food completes
    the first: the snake thinks at the spawn of [demo_level], next to the
    food. *)
Definition second_level : Level :=
  mkLevel [ [WALL; WALL; WALL; WALL; WALL];
            [WALL; EMPTY; EMPTY; FOOD; WALL];
            [WALL; EMPTY; SNAKE_HEAD; EMPTY; WALL];
            [WALL; WALL; WALL; WALL; WALL] ]
          (mkTilePos 2 2) (mkTilePos 1 3).

Definition two_level_sim : SnazeSimulation :=
  mkSim SNAKE_THINKING [demo_level; second_level]
        (mkSnake [mkTilePos 1 1] false false false)
        (mkTilePos 1 1) right right (mkTilePos 1 1)
        0 10 5 1 BACKTRACKING 0 5 0.

(** A level with a bend between the snake and the food, six moves long. *)
Definition bend_level : Level :=
  mkLevel [ [WALL; WALL; WALL; WALL; WALL];
            [WALL; SNAKE_HEAD; EMPTY; EMPTY; WALL];
            [WALL; WALL; WALL; EMPTY; WALL];
            [WALL; FOOD; EMPTY; EMPTY; WALL];
            [WALL; WALL; WALL; WALL; WALL] ]
          (mkTilePos 1 1) (mkTilePos 3 1).

Definition bend_sim : SnazeSimulation :=
  mkSim SNAKE_THINKING [bend_level]
        (mkSnake [mkTilePos 1 1] false false false)
        (mkTilePos 1 1) right right (mkTilePos 1 1)
        0 10 5 10 BACKTRACKING 0 5 0.

(** The snake of [demo_sim] steps onto the food on its right. *)
Definition eating_sim : SnazeSimulation :=
  set_next_pos (mkTilePos 1 2) (demo_sim SNAKE_THINKING).

Definition after_meal_sim : SnazeSimulation :=
  Eval vm_compute in
    match snake_update 0 eating_sim with
    | Ok s => s
    | Fail _ => eating_sim
    end.

(** The simulation [bend_sim] after one invocation of the search. *)
Definition bend_thought_sim : SnazeSimulation :=
  Eval vm_compute in
    match breadthFirst_search [up; right; down; left] bend_sim with
    | Ok s => s
    | Fail _ => bend_sim
    end.

(** *** What one search may change *)

(** Nothing of the grids, of the body or of the level index changed. *)
Definition search_frame (s s' : SnazeSimulation) : Prop :=
  current_level_index s' = current_level_index s ∧
  levels s' = levels s ∧
  body (snake_obj s') = body (snake_obj s).

(** The invocation advanced the level: only the entered level may differ,
    and the body is the spawn cell of that level. *)
Definition level_advanced (s s' : SnazeSimulation) : Prop :=
  (int_wrap (current_level_index s + 1)
   < int_wrap (Z.of_nat (length (levels s))))%Z ∧
  current_level_index s' = int_wrap (current_level_index s + 1) ∧
  (∀ j, j ≠ Z.to_nat (current_level_index s') →
        levels s' !! j = levels s !! j) ∧
  ∃ l', current_level s' = Ok l' ∧
        body (snake_obj s') = [get_spawn_loc l'].

(** The same simulation with other values in the two transient flags. *)
Definition with_flags (f c : bool) (s : SnazeSimulation) : SnazeSimulation :=
  set_snake_obj (set_collision c (set_found_foods f (snake_obj s))) s.

(** ** Vocabulary of the further properties *)

(** What [remove_snake] leaves in a cell that held [t]. *)
Definition without_snake (t : tile_type_e) : tile_type_e :=
  if bool_decide (t = SNAKE_HEAD) || bool_decide (t = SNAKE_BODY)
  then EMPTY else t.

(** The body of the inner loop of [remove_snake], for one cell. *)
Definition clear_cell (p : TilePos) (m : list (list tile_type_e))
  : res (list (list tile_type_e)) :=
  t ← at2 m p;
  if bool_decide (t = SNAKE_HEAD) || bool_decide (t = SNAKE_BODY)
  then set2 m p EMPTY
  else Ok m.

(** Every [FOOD] tile of the level is the one [m_food_loc] names. *)
Definition food_at_food_loc (l : Level) : Prop :=
  ∀ p, get_tile_type l p = Ok FOOD → p = m_food_loc l.

(** The character the constructor reads for the cell [p]. *)
Definition input_char (input_maze : list (list ascii)) (p : TilePos)
  : res ascii :=
  line ← nth_cell input_maze (row p);
  char_at line (col p).

(** No line is more than one character shorter than the first: the reads
    of the constructor stay inside the strings (the position equal to the
    size is the terminating null). *)
Definition lines_long_enough (input_maze : list (list ascii)) : Prop :=
  Forall (fun line => (length (hd [] input_maze) ≤ S (length line))%nat)
         input_maze.

(** What the filling loops of the constructor keep true of the maze and of
    the spawn location. *)
Definition fill_inv (input_maze : list (list ascii))
    (st : list (list tile_type_e) * TilePos) : Prop :=
  length st.1 = length input_maze ∧
  Forall (fun r => length r = length (hd [] input_maze)) st.1 ∧
  (∀ q t, cell st.1 q = Some t → t ≠ FOOD ∧ t ≠ SNAKE_BODY) ∧
  (st.2 = mkTilePos 0 0 ∨
   (input_char input_maze st.2 = Ok "&"%char ∧
    cell st.1 st.2 = Some SNAKE_HEAD)).

(** A small input of the constructor: a walled room of two cells with the
    snake in the first, and the level built from it. *)
Definition room_input : list (list ascii) :=
  [ ["#"; "#"; "#"; "#"];
    ["#"; "&"; " "; "#"];
    ["#"; "#"; "#"; "#"] ]%char.

Definition room_level : Level :=
  Eval vm_compute in
    match Level_ctor 0 room_input with
    | Ok l => l
    | Fail _ => mkLevel [] (mkTilePos 0 0) (mkTilePos 0 0)
    end.

(** The direction that undoes a move. *)
Definition opposite (d : direction) : direction :=
  match d with up => down | right => left | down => up | left => right end.

(** Both coordinates are values of [size_t]. *)
Definition size_pos (p : TilePos) : Prop :=
  row p < size_modulus ∧ col p < size_modulus.

(** The snake as the grid shows it: the body has no repeated cell, the
    only [SNAKE_HEAD] tile is under its first segment and the [SNAKE_BODY]
    tiles are exactly under the other segments. *)
Definition snake_on_level (l : Level) (sn : Snake) : Prop :=
  NoDup (body sn) ∧
  ∃ h rest, body sn = h :: rest ∧
    (∀ p, get_tile_type l p = Ok SNAKE_HEAD ↔ p = h) ∧
    (∀ p, get_tile_type l p = Ok SNAKE_BODY ↔ p ∈ rest).

(** The tiles a move of the snake never touches. *)
Definition same_walls (l l' : Level) : Prop :=
  ∀ q, (get_tile_type l' q = Ok WALL ↔ get_tile_type l q = Ok WALL) ∧
       (get_tile_type l' q = Ok INV_WALL ↔ get_tile_type l q = Ok INV_WALL).

(** ** The game loop (SnazeSimulation.cpp, input.cpp, render.cpp, main.cpp) *)

(** [SnazeSimulation::input_process].  [input_empty] tells whether the
    line that [std::getline] read is empty. *)
Definition input_process (input_empty : bool) (s : SnazeSimulation)
  : res SnazeSimulation :=
  if bool_decide (current_state s = START_SCREEN) && input_empty
  then Ok (set_current_state SNAKE_THINKING s)
  else if bool_decide (current_state s = LEVEL_UP) && input_empty
  then Ok (set_current_state SNAKE_THINKING s)
  else if bool_decide (current_state s = SNAKE_CRASHED) && input_empty
  then
    s1 ← respawn s;
    if (current_life s1 =? 0)%Z then Ok (set_current_state GAME_OVER s1)
    else Ok (set_current_state SNAKE_THINKING s1)
  else Ok s.

(** [SnazeSimulation::process_events].  The sleep lasts [1000 / fps]
    milliseconds: the division is undefined for [fps = 0]. *)
Definition process_events (directions : list direction) (input_empty : bool)
    (s : SnazeSimulation) : res SnazeSimulation :=
  if (fps s =? 0)%Z then Fail UndefinedBehaviour
  else
    match current_state s with
    | START_SCREEN => input_process input_empty s
    | SNAKE_THINKING => snake_thinking directions s
    | GAME_RUNNING =>
        input_colision (found_foods (snake_obj s)) (collision (snake_obj s)) s
    | SNAKE_CRASHED => input_process input_empty s
    | LEVEL_UP => input_process input_empty s
    | _ => Ok s
    end.

(** The two nested loops of the print functions: every tile of
    [levels[current_level_index]] is read, row by row; [print_welcome]
    does not read the tile of the spawn cell.  The text goes to the console
    and is no part of the state. *)
Definition read_maze (skip_spawn : bool) (s : SnazeSimulation) : res unit :=
  l ← current_level s;
  for_each (size_range (n_rows l)) (fun i _ =>
    nc ← n_cols l;
    for_each (size_range nc) (fun j _ =>
      if skip_spawn && pos_eqb (mkTilePos i j) (get_spawn_loc l) then Ok tt
      else _ ← get_tile_type l (mkTilePos i j); Ok tt) tt) tt.

(** [SnazeSimulation::print_welcome]. *)
Definition print_welcome (s : SnazeSimulation) : res SnazeSimulation :=
  _ ← read_maze true s; Ok s.

(** [SnazeSimulation::print_maze]: after the board it sets the state.
    (The line of lives that this function, [print_snake_crashed] and
    [print_maze_in_lv] write counts up to [n_lives - current_life], an
    [int] subtraction that changes no state; [counters_in_range] below
    bounds it where a theorem is about overflow.) *)
Definition print_maze (s : SnazeSimulation) : res SnazeSimulation :=
  _ ← read_maze false s; Ok (set_current_state SNAKE_THINKING s).

(** [SnazeSimulation::print_snake_crashed]. *)
Definition print_snake_crashed (s : SnazeSimulation) : res SnazeSimulation :=
  _ ← read_maze false s; Ok s.

(** [SnazeSimulation::print_level_up] writes one line. *)
Definition print_level_up (s : SnazeSimulation) : SnazeSimulation := s.

Inductive exit_code : Type := EXIT_SUCCESS | EXIT_FAILURE.

(** What a call of [render] leaves: the simulation, or the end of the
    process with the code given to [exit]. *)
Inductive rendered : Type :=
  | Shown (s : SnazeSimulation)
  | Exited (code : exit_code).

(** [SnazeSimulation::render]; [print_game_won] and [print_game_over] end
    the process. *)
Definition render (s : SnazeSimulation) : res rendered :=
  match current_state s with
  | WELCOME => s' ← print_welcome s; Ok (Shown s')
  | GAME_RUNNING => s' ← print_maze s; Ok (Shown s')
  | SNAKE_CRASHED => s' ← print_snake_crashed s; Ok (Shown s')
  | LEVEL_UP => Ok (Shown (print_level_up s))
  | GAME_WON => Ok (Exited EXIT_SUCCESS)
  | GAME_OVER => Ok (Exited EXIT_FAILURE)
  | _ => Ok (Shown s)
  end.

(** [SnazeSimulation::is_over]. *)
Definition is_over (s : SnazeSimulation) : bool :=
  bool_decide (current_state s = GAME_OVER).

(** What one turn of the game loop draws from outside: the order the
    shuffle leaves, whether the line typed is empty, and the variate of
    [place_food]. *)
Record turn_input : Type := mkTurn {
  turn_directions : list direction;
  turn_enter : bool;
  turn_rnd : nat
}.

(** The body of the game loop of [main]. *)
Definition turn (i : turn_input) (s : SnazeSimulation) : res rendered :=
  s1 ← process_events (turn_directions i) (turn_enter i) s;
  s2 ← update (turn_rnd i) s1;
  render s2.

(** How far a run of the game loop got on the inputs given. *)
Inductive run : Type :=
  | Running (s : SnazeSimulation)     (* the inputs are used up *)
  | Returned (s : SnazeSimulation)    (* [is_over] held: [main] returns 0 *)
  | Ended (code : exit_code).         (* [exit] was called *)

(** [while (not game.is_over()) { ... }], one element of [inputs] per
    turn. *)
Fixpoint game_loop (inputs : list turn_input) (s : SnazeSimulation)
  : res run :=
  if is_over s then Ok (Returned s)
  else
    match inputs with
    | [] => Ok (Running s)
    | i :: rest =>
        r ← turn i s;
        match r with
        | Shown s' => game_loop rest s'
        | Exited code => Ok (Ended code)
        end
    end.

(** The states in which a turn of the loop can start. *)
Definition loop_state (st : states) : Prop :=
  st = START ∨ st = WELCOME ∨ st = START_SCREEN ∨ st = SNAKE_THINKING
  ∨ st = SNAKE_CRASHED.

(** The states one invocation of the thinking step can leave, from the
    state [st0]. *)
Definition after_thinking (st0 st : states) : Prop :=
  st = st0 ∨ st = START_SCREEN ∨ st = GAME_WON ∨ st = SNAKE_CRASHED
  ∨ st = GAME_OVER.

(** [main] of main.cpp: the simulation is constructed, initialised from the command
    line, and the game loop runs.  [dir0] is the indeterminate initial
    value of [dir]. *)
Definition snaze_main (dir0 : direction) (args : list cli_arg)
    (inputs : list turn_input) : res run :=
  s ← initialize args (SnazeSimulation_ctor dir0);
  game_loop inputs s.

(** A file argument that could be read. *)
Definition is_level_file (a : cli_arg) : bool :=
  match a with arg_file (Some _) => true | _ => false end.

(** A short run: the level file holds [demo_level], the player presses
    Enter at every turn. *)
Definition demo_inputs : list turn_input :=
  replicate 5 (mkTurn [up; right; down; left] true 0).

Definition demo_run : run :=
  Eval vm_compute in
    match snaze_main right [arg_file (Some [demo_level])] demo_inputs with
    | Ok r => r
    | Fail _ => Ended EXIT_FAILURE
    end.

(** The snake stands on the spawn cell of the current level, as
    [initialize] and [respawn] leave it. *)
Definition at_spawn (s : SnazeSimulation) : Prop :=
  ∃ l, current_level s = Ok l ∧
       head_pos s = m_spawn_loc l ∧
       body (snake_obj s) = [m_spawn_loc l] ∧
       get_tile_type l (m_spawn_loc l) = Ok SNAKE_HEAD.

(** A start screen on a level whose corner cell (0,0) is free and lies
    behind a wall, out of reach of the snake at (0,2); [next_pos] still
    holds its initial value (0,0). *)
Definition open_corner_level : Level :=
  mkLevel [ [EMPTY; WALL; SNAKE_HEAD; FOOD] ] (mkTilePos 0 2) (mkTilePos 0 3).

Definition open_corner_sim : SnazeSimulation :=
  mkSim START_SCREEN [open_corner_level]
        (mkSnake [mkTilePos 0 2] false false false)
        (mkTilePos 0 2) right right (mkTilePos 0 0)
        0 10 5 10 BACKTRACKING 0 5 0.

Definition enter : turn_input := mkTurn [up; right; down; left] true 0.

(** ** Levels on which the game is played *)

(** A cell that is not on the border of the grid. *)
Definition interior (l : Level) (p : TilePos) : Prop :=
  0 < row p ∧ 0 < col p ∧ row p + 1 < n_rows l ∧ col p + 1 < width l.

(** [l'] has the shape, the spawn cell and the border of [l]. *)
Definition same_frame (l l' : Level) : Prop :=
  n_rows l' = n_rows l ∧ width l' = width l ∧
  m_spawn_loc l' = m_spawn_loc l ∧
  ∀ p, in_bounds l p → ¬ interior l p →
       get_tile_type l' p = get_tile_type l p.

(** A level as the level files of the game give them: rectangular, of
    [2^31] cells at most (the number of empty cells, less one, is the [int]
    parameter of the distribution in [place_food]; the cell keys of the
    search then fit [size_t]), closed by walls (visible or hidden) all
    around, with the spawn cell inside, and with no [FOOD] tile but the one
    at [m_food_loc]. *)
Definition playable (l : Level) : Prop :=
  rectangular l ∧ n_rows l * width l ≤ 2 ^ 31 ∧
  interior l (m_spawn_loc l) ∧ food_at_food_loc l ∧
  ∀ p, in_bounds l p → ¬ interior l p →
       get_tile_type l p = Ok WALL ∨ get_tile_type l p = Ok INV_WALL.

(** What holds of the simulation at the head of the game loop once the
    levels are loaded. *)
Definition game_inv (s : SnazeSimulation) : Prop :=
  fps s ≠ 0%Z ∧
  (0 ≤ current_level_index s)%Z ∧
  (Z.of_nat (length (levels s)) < 2 ^ 31)%Z ∧
  Forall playable (levels s) ∧
  ∃ l, current_level s = Ok l ∧
       snake_on_level l (snake_obj s) ∧
       body (snake_obj s) !! 0%nat = Some (head_pos s) ∧
       in_bounds l (next_pos s).

(** The [int] members that the game loop computes with. *)
Definition counters (s : SnazeSimulation) : Z * Z * Z * Z * Z :=
  (current_life s, current_food s, score s, n_food s, n_lives s).

(** The counters leave room for [turns] more turns of the game loop within
    the range of [int].  A turn takes at most one life, and counts at most
    one food, which adds 20 times the new food counter, at most
    [20 * n_food], to the score; the food counter stays below its target
    [n_food].  So none of [--current_life], [++current_food],
    [20 * current_food], [score += ...] and the [n_lives - current_life]
    of the print functions leaves the range of [int] in these turns. *)
Definition counters_in_range (turns : nat) (s : SnazeSimulation) : Prop :=
  (Z.of_nat turns - 2 ^ 31 ≤ current_life s < 2 ^ 31)%Z ∧
  (- 2 ^ 31 ≤ n_lives s - current_life s)%Z ∧
  (n_lives s - current_life s + Z.of_nat turns < 2 ^ 31)%Z ∧
  (0 ≤ current_food s < n_food s)%Z ∧ (n_food s < 2 ^ 31)%Z ∧
  (0 ≤ score s)%Z ∧
  (score s + 20 * n_food s * Z.of_nat turns < 2 ^ 31)%Z.

(** [bend_sim] as [initialize] leaves it: on the welcome path, with
    [next_pos] still at (0,0). *)
Definition bend_start_sim : SnazeSimulation :=
  Eval vm_compute in
    match initialize [arg_file (Some [bend_level])]
            (SnazeSimulation_ctor right) with
    | Ok s => s
    | Fail _ => bend_sim
    end.

(** * Proofs *)

(** ** Properties of the grid model *)

Lemma n_cols_width l : m_maze l ≠ [] → n_cols l = Ok (width l).
Proof. unfold n_cols, width. destruct (m_maze l); [done | reflexivity]. Qed.

(** *** Vector access *)

Lemma bind_Ok {A B} (m : res A) (k : A → res B) (b : B) :
  (m ≫= k) = Ok b ↔ ∃ a, m = Ok a ∧ k a = Ok b.
Proof.
  destruct m as [a | f]; simpl.
  - split; [eauto | by intros (a' & [= <-] & ?)].
  - split; [done | by intros (a' & ? & ?)].
Qed.

Ltac res_simpl := cbn [mbind res_bind].

Ltac bind_inv_as H a Ha :=
  apply bind_Ok in H; destruct H as (a & Ha & H).

Ltac bind_inv H :=
  let a := fresh "a" in
  let Ha := fresh "Ha" in
  bind_inv_as H a Ha.

Lemma of_option_Ok {A} (o : option A) (a : A) :
  of_option o = Ok a ↔ o = Some a.
Proof. destruct o; simpl; split; congruence. Qed.

Lemma nth_cell_Ok {A} (v : list A) (i : N) (x : A) :
  nth_cell v i = Ok x ↔ v !! N.to_nat i = Some x.
Proof.
  unfold nth_cell. destruct (N.leb_spec (N.of_nat (length v)) i) as [Hge | Hlt].
  - split; [done |]. intros Hx. apply lookup_lt_Some in Hx. lia.
  - apply of_option_Ok.
Qed.

Lemma at2_Ok {A} (g : list (list A)) (p : TilePos) (x : A) :
  at2 g p = Ok x ↔
  ∃ r, g !! N.to_nat (row p) = Some r ∧ r !! N.to_nat (col p) = Some x.
Proof.
  unfold at2. rewrite bind_Ok. setoid_rewrite nth_cell_Ok. done.
Qed.

Lemma set2_Ok {A} (g g' : list (list A)) (p : TilePos) (x : A) :
  set2 g p x = Ok g' ↔
  ∃ r, g !! N.to_nat (row p) = Some r ∧ (N.to_nat (col p) < length r)%nat ∧
       g' = <[N.to_nat (row p) := <[N.to_nat (col p) := x]> r]> g.
Proof.
  unfold set2. rewrite bind_Ok. setoid_rewrite nth_cell_Ok.
  split.
  - intros (r & Hr & Hset). exists r.
    destruct (N.leb_spec (N.of_nat (length r)) (col p)); [done |].
    inversion Hset. split; [done |]. split; [lia | done].
  - intros (r & Hr & Hlt & ->). exists r. split; [done |].
    destruct (N.leb_spec (N.of_nat (length r)) (col p)); [lia | done].
Qed.

Lemma at2_in_bounds l p :
  rectangular l → in_bounds l p → ∃ t, get_tile_type l p = Ok t.
Proof.
  intros Hrect [Hr Hc]. unfold get_tile_type, n_rows, width in *.
  destruct (lookup_lt_is_Some_2 (m_maze l) (N.to_nat (row p))) as [r Hrow];
    [lia |].
  assert (Hlen : length r = length (hd [] (m_maze l))).
  { eapply (proj1 (Forall_lookup _ _) Hrect); eauto. }
  destruct (lookup_lt_is_Some_2 r (N.to_nat (col p))) as [t Ht]; [lia |].
  exists t. apply at2_Ok. eauto.
Qed.

Lemma nth_cell_lookup {A} (v : list A) (i : N) :
  nth_cell v i = of_option (v !! N.to_nat i).
Proof.
  unfold nth_cell. destruct (N.leb_spec (N.of_nat (length v)) i) as [Hge |];
    [| done].
  rewrite (proj2 (lookup_ge_None v (N.to_nat i))); [done | lia].
Qed.

Lemma at2_cell {A} (g : list (list A)) (p : TilePos) :
  at2 g p = of_option (cell g p).
Proof.
  unfold at2, cell. rewrite nth_cell_lookup.
  destruct (g !! N.to_nat (row p)) as [r |]; simpl; [| done].
  apply nth_cell_lookup.
Qed.

Lemma pos_eq (p q : TilePos) : row p = row q → col p = col q → p = q.
Proof. destruct p, q; simpl; congruence. Qed.

Lemma cell_set2 {A} (g g' : list (list A)) (p q : TilePos) (x : A) :
  set2 g p x = Ok g' →
  cell g' q = if decide (q = p) then Some x else cell g q.
Proof.
  intros (r & Hr & Hlt & ->)%set2_Ok. unfold cell.
  destruct (decide (q = p)) as [-> | Hne].
  - rewrite list_lookup_insert_eq by (by eapply lookup_lt_Some). simpl.
    by apply list_lookup_insert_eq.
  - destruct (decide (row q = row p)) as [Hrow | Hrow].
    + rewrite Hrow.
      rewrite list_lookup_insert_eq by (by eapply lookup_lt_Some).
      rewrite Hr. simpl. apply list_lookup_insert_ne.
      intros Hc. apply Hne, pos_eq; [done | lia].
    + rewrite list_lookup_insert_ne by lia. done.
Qed.

Lemma at2_set2 {A} (g g' : list (list A)) (p q : TilePos) (x : A) :
  set2 g p x = Ok g' →
  at2 g' q = if decide (q = p) then Ok x else at2 g q.
Proof.
  intros H. rewrite !at2_cell, (cell_set2 g g' p q x H).
  by destruct (decide (q = p)).
Qed.

Lemma set2_in_range {A} (g : list (list A)) (p : TilePos) (x y : A) :
  at2 g p = Ok y → ∃ g', set2 g p x = Ok g'.
Proof.
  intros (r & Hr & Hc)%at2_Ok. eexists. apply set2_Ok.
  exists r. split; [done |]. split; [by eapply lookup_lt_Some | done].
Qed.

Lemma set2_dims {A} (g g' : list (list A)) (p : TilePos) (x : A) :
  set2 g p x = Ok g' →
  length g' = length g ∧
  ∀ i, length <$> (g' !! i) = length <$> (g !! i).
Proof.
  intros (r & Hr & Hlt & ->)%set2_Ok. split; [apply length_insert |].
  intros i. destruct (decide (i = N.to_nat (row p))) as [-> | Hne].
  - rewrite list_lookup_insert_eq by (by eapply lookup_lt_Some).
    rewrite Hr. simpl. by rewrite length_insert.
  - by rewrite list_lookup_insert_ne.
Qed.

Lemma set2_row_lengths {A} (g g' : list (list A)) (p : TilePos) (x : A)
    (c : nat) :
  set2 g p x = Ok g' →
  Forall (fun r => length r = c) g → Forall (fun r => length r = c) g'.
Proof.
  intros Hset Hrows. destruct (set2_dims _ _ _ _ Hset) as [_ Hrows'].
  apply Forall_lookup. intros i r Hi.
  specialize (Hrows' i). rewrite Hi in Hrows'. simpl in Hrows'.
  destruct (g !! i) as [r0 |] eqn:Hr0; [| done].
  simpl in Hrows'. inversion Hrows' as [Hl]. rewrite Hl.
  eapply (proj1 (Forall_lookup _ _) Hrows); eauto.
Qed.

(** *** Counted loops *)

Lemma elem_of_size_range (n i : N) : i ∈ size_range n ↔ i < n.
Proof.
  unfold size_range. rewrite list_elem_of_fmap. split.
  - intros (k & -> & Hk). apply elem_of_seq in Hk. lia.
  - intros Hi. exists (N.to_nat i). split; [lia |].
    apply elem_of_seq. lia.
Qed.

Lemma for_each_collect {A B} (xs : list A) (f : A → list B)
    (body : A → list B → res (list B)) :
  (∀ x acc, x ∈ xs → body x acc = Ok (acc ++ f x)) →
  ∀ acc, for_each xs body acc = Ok (acc ++ (xs ≫= f)).
Proof.
  induction xs as [| x xs IH]; intros Hbody acc; simpl.
  - by rewrite app_nil_r.
  - rewrite Hbody by left. simpl. rewrite IH.
    + by rewrite app_assoc.
    + intros y acc' Hy. apply Hbody. by right.
Qed.

Lemma for_each_invariant {A S} (P : S → Prop) (xs : list A)
    (body : A → S → res S) :
  (∀ x s s', P s → body x s = Ok s' → P s') →
  ∀ s s', P s → for_each xs body s = Ok s' → P s'.
Proof.
  intros Hbody. induction xs as [| x xs IH]; intros s s' HP H; simpl in H.
  - by inversion H; subst.
  - apply bind_Ok in H. destruct H as (s1 & Hs1 & H).
    eapply IH; [| exact H]. eapply Hbody; eauto.
Qed.

(** *** The mazes the constructor builds *)

Lemma rows_rectangular l c :
  Forall (fun r => length r = c) (m_maze l) → rectangular l.
Proof.
  unfold rectangular. intros Hrows.
  destruct (m_maze l) as [| r rest]; [constructor |].
  simpl. inversion Hrows as [| ? ? Hr _]; subst.
  eapply Forall_impl; [exact Hrows |]. simpl. intros r' Hr'. congruence.
Qed.

Lemma set_tile_type_rows t p l l' c :
  set_tile_type t p l = Ok l' →
  Forall (fun r => length r = c) (m_maze l) →
  Forall (fun r => length r = c) (m_maze l').
Proof.
  unfold set_tile_type. intros H Hrows.
  apply bind_Ok in H. destruct H as (m & Hm & H). inversion H; subst. simpl.
  by eapply set2_row_lengths.
Qed.

Lemma place_food_rows rnd l l' c :
  place_food rnd l = Ok l' →
  Forall (fun r => length r = c) (m_maze l) →
  Forall (fun r => length r = c) (m_maze l').
Proof.
  unfold place_food. intros H Hrows.
  apply bind_Ok in H. destruct H as (es & _ & H).
  destruct es as [| e es]; [by inversion H; subst |].
  apply bind_Ok in H. destruct H as (food & _ & H).
  by apply (set_tile_type_rows _ _ _ _ c) in H.
Qed.

Lemma fill_cell_rows ch p st st' c :
  fill_cell ch p st = Ok st' →
  Forall (fun r => length r = c) st.1 → Forall (fun r => length r = c) st'.1.
Proof.
  unfold fill_cell. destruct st as [m spawn]. simpl. intros H Hrows.
  repeat case_decide;
    try (apply bind_Ok in H; destruct H as (m' & Hm' & H);
         inversion H; subst; simpl; by eapply set2_row_lengths).
  by inversion H; subst.
Qed.

(** Every level that leaves the constructor is rectangular. *)
Lemma Level_ctor_rectangular rnd input_maze l :
  Level_ctor rnd input_maze = Ok l → rectangular l.
Proof.
  unfold Level_ctor. intros H.
  apply bind_Ok in H. destruct H as ([m spawn] & Hfill & H).
  set (c := length (hd [] input_maze)) in *.
  apply (rows_rectangular l c).
  apply (place_food_rows _ _ _ c) in H; [exact H |]. simpl.
  change m with (m, spawn).1.
  eapply (for_each_invariant
            (fun st : list (list tile_type_e) * TilePos =>
               Forall (fun r => length r = c) st.1)); [| | exact Hfill].
  - intros i st st' Hst Hrow.
    apply bind_Ok in Hrow. destruct Hrow as (nc & _ & Hrow).
    eapply (for_each_invariant
              (fun st : list (list tile_type_e) * TilePos =>
                 Forall (fun r => length r = c) st.1)); [| exact Hst | exact Hrow].
    intros j st1 st2 Hst1 Hcell.
    apply bind_Ok in Hcell. destruct Hcell as (line & _ & Hcell).
    apply bind_Ok in Hcell. destruct Hcell as (ch & _ & Hcell).
    by eapply fill_cell_rows.
  - simpl. apply Forall_fmap. apply Forall_forall. intros line _. simpl.
    apply length_replicate.
Qed.

Lemma crashed_outside l pos :
  out_of_bounds l pos → crashed l pos = Ok true.
Proof.
  intros Hoob. unfold crashed.
  destruct (N.leb_spec (n_rows l) (row pos)) as [| Hr]; [done |].
  rewrite (n_cols_width l).
  2:{ unfold n_rows in Hr. destruct (m_maze l); simpl in *; [lia | done]. }
  simpl. destruct (N.leb_spec (width l) (col pos)) as [| Hc]; [done |].
  destruct Hoob; lia.
Qed.

Lemma crashed_inside l pos :
  rectangular l → in_bounds l pos →
  ∃ t, get_tile_type l pos = Ok t ∧
       crashed l pos = Ok (bool_decide (t ≠ EMPTY) && bool_decide (t ≠ FOOD)).
Proof.
  intros Hrect Hin. destruct (at2_in_bounds l pos Hrect Hin) as [t Ht].
  destruct Hin as [Hr Hc]. exists t. split; [done |].
  unfold crashed.
  destruct (N.leb_spec (n_rows l) (row pos)); [lia |].
  rewrite (n_cols_width l).
  2:{ unfold n_rows in Hr. destruct (m_maze l); simpl in *; [lia | done]. }
  simpl. destruct (N.leb_spec (width l) (col pos)); [lia |].
  by rewrite Ht.
Qed.

Lemma in_or_out l pos : in_bounds l pos ∨ out_of_bounds l pos.
Proof. unfold in_bounds, out_of_bounds. lia. Qed.

Lemma crashed_total l pos : rectangular l → ∃ b, crashed l pos = Ok b.
Proof.
  intros Hrect. destruct (in_or_out l pos) as [Hin | Hout].
  - destruct (crashed_inside l pos Hrect Hin) as (t & _ & Hc). eauto.
  - exists true. by apply crashed_outside.
Qed.

(** C3.  [crashed] answers true exactly for the coordinates outside the grid
    and for the tiles that are neither [EMPTY] nor [FOOD]; outside the grid
    it answers true whatever the maze holds, and it does so without reading
    a tile (the read of an outside coordinate would be a fault). *)
Theorem crashed_blocking_iff (l : Level) (pos : TilePos) :
  rectangular l →
  (∃ b, crashed l pos = Ok b ∧
        (b = true ↔
         out_of_bounds l pos ∨
         ∃ t, get_tile_type l pos = Ok t ∧ t ≠ EMPTY ∧ t ≠ FOOD)) ∧
  (out_of_bounds l pos → crashed l pos = Ok true).
Proof.
  intros Hrect. split; [| apply crashed_outside].
  destruct (in_or_out l pos) as [Hin | Hout].
  - destruct (crashed_inside l pos Hrect Hin) as (t & Ht & Hc).
    eexists. split; [exact Hc |].
    rewrite andb_true_iff, !bool_decide_eq_true. split.
    + intros [? ?]. right. eauto.
    + intros [[? | ?] | (t' & Ht' & ? & ?)];
        [destruct Hin; lia | destruct Hin; lia |].
      rewrite Ht in Ht'. by inversion Ht'; subst.
  - exists true. split; [by apply crashed_outside |]. split; auto.
Qed.

Lemma demo_level_rectangular : rectangular demo_level.
Proof. unfold rectangular. simpl. repeat constructor. Qed.

Lemma crashed_blocking_iff_witness :
  (∃ b, crashed demo_level (mkTilePos 7 0) = Ok b ∧
        (b = true ↔
         out_of_bounds demo_level (mkTilePos 7 0) ∨
         ∃ t, get_tile_type demo_level (mkTilePos 7 0) = Ok t
              ∧ t ≠ EMPTY ∧ t ≠ FOOD)) ∧
  (out_of_bounds demo_level (mkTilePos 7 0) →
   crashed demo_level (mkTilePos 7 0) = Ok true).
Proof.
  apply (crashed_blocking_iff demo_level (mkTilePos 7 0)).
  exact demo_level_rectangular.
Defined.

(** ** Machine integers *)

Lemma int_wrap_range z : int_range z → int_wrap z = z.
Proof. unfold int_range, int_wrap. intros H. rewrite Z.mod_small; lia. Qed.

Lemma int_wrap_add_r a b : int_wrap (a + int_wrap b) = int_wrap (a + b).
Proof.
  unfold int_wrap.
  replace (a + ((b + 2 ^ 31) mod 2 ^ 32 - 2 ^ 31) + 2 ^ 31)%Z
    with (a + (b + 2 ^ 31) mod 2 ^ 32)%Z by lia.
  rewrite Zplus_mod_idemp_r. f_equal. f_equal. lia.
Qed.

(** ** The controller: lives, score and level advance *)

Lemma respawn_frame s s' :
  respawn s = Ok s' →
  current_life s' = current_life s ∧ current_state s' = current_state s ∧
  score s' = score s ∧ current_food s' = current_food s ∧
  current_level_index s' = current_level_index s ∧ n_food s' = n_food s.
Proof.
  unfold respawn. intros H. bind_inv H. bind_inv H. bind_inv H.
  destruct a1 as [sn l2]. by inversion H.
Qed.

Lemma level_up_frame s s' :
  level_up s = Ok s' →
  current_life s' = current_life s ∧ score s' = score s ∧
  (current_state s' = START_SCREEN ∨ current_state s' = GAME_WON).
Proof.
  unfold level_up. intros H.
  destruct (_ <? _)%Z.
  - bind_inv H. bind_inv H. destruct a0 as [sn l']. bind_inv H.
    apply respawn_frame in Ha1 as (Hl & _ & Hsc & _).
    inversion H; subst; simpl. rewrite Hl, Hsc. simpl. auto.
  - inversion H; subst; simpl. auto.
Qed.

Lemma input_colision_crash s :
  (1 ≤ current_life s < 2 ^ 31)%Z →
  ∃ s', input_colision false true s = Ok s' ∧
        current_life s' = (current_life s - 1)%Z ∧
        current_state s' =
          (if (current_life s =? 1)%Z then GAME_OVER else SNAKE_CRASHED).
Proof.
  intros Hl. unfold input_colision. simpl.
  rewrite (int_wrap_range (current_life s - 1)) by (unfold int_range; lia).
  destruct (Z.gtb_spec (current_life s - 1) 0) as [Hpos | Hzero]; simpl.
  - destruct (Z.eqb_spec (current_life s - 1) 0); [lia |].
    destruct (Z.eqb_spec (current_life s) 1); [lia |].
    eexists. split; [reflexivity |]. simpl. auto.
  - destruct (Z.eqb_spec (current_life s - 1) 0); [| lia].
    destruct (Z.eqb_spec (current_life s) 1); [| lia].
    eexists. split; [reflexivity |]. simpl. auto.
Qed.

(** C4.  The simulation is started with [--lives 1] and a level file; the
    option reaches [n_lives] only, [current_life] keeps the 5 it was given
    when the object was built, and the first logical collision leaves 4
    lives and the state [SNAKE_CRASHED] where one configured life asks for
    [GAME_OVER]. *)
Theorem single_life_crash_is_not_game_over (dir0 : direction) :
  ∃ s s',
    initialize [arg_lives (digits 1); arg_file (Some [demo_level])]
               (SnazeSimulation_ctor dir0) = Ok s ∧
    n_lives s = 1%Z ∧ current_life s = 5%Z ∧
    input_colision false true s = Ok s' ∧
    current_life s' = 4%Z ∧ current_state s' = SNAKE_CRASHED.
Proof.
  eexists. eexists. split; [vm_compute; reflexivity |].
  vm_compute. repeat split; reflexivity.
Qed.

(** C10.  A call with [food = true] never takes the collision branch,
    whatever the collision flag: the lives are untouched, the flag has no
    influence on the result, and the state after the call is the state
    before it or one of the two states set by the level advance; so it is
    [SNAKE_CRASHED] or [GAME_OVER] only if it was so before. *)
Theorem input_colision_food_takes_precedence
    (colision : bool) (s s' : SnazeSimulation) :
  input_colision true colision s = Ok s' →
  current_life s' = current_life s ∧
  (current_state s' = current_state s ∨ current_state s' = START_SCREEN
   ∨ current_state s' = GAME_WON) ∧
  (current_state s' = SNAKE_CRASHED → current_state s = SNAKE_CRASHED) ∧
  (current_state s' = GAME_OVER → current_state s = GAME_OVER) ∧
  input_colision true (negb colision) s = Ok s'.
Proof.
  intros H.
  assert (Hflag : input_colision true (negb colision) s = Ok s')
    by (rewrite <- H; reflexivity).
  unfold input_colision in H. simpl in H.
  destruct (_ =? _)%Z.
  - apply level_up_frame in H as (Hl & _ & Hst). simpl in Hl.
    split; [done |]. split; [tauto |].
    repeat split; [| | done]; intros Hs; destruct Hst; congruence.
  - inversion H; subst; simpl. repeat split; auto.
Qed.

Lemma input_colision_food_takes_precedence_witness :
  current_life fed_sim = current_life hungry_sim ∧
  (current_state fed_sim = current_state hungry_sim
   ∨ current_state fed_sim = START_SCREEN
   ∨ current_state fed_sim = GAME_WON) ∧
  (current_state fed_sim = SNAKE_CRASHED →
   current_state hungry_sim = SNAKE_CRASHED) ∧
  (current_state fed_sim = GAME_OVER → current_state hungry_sim = GAME_OVER) ∧
  input_colision true (negb true) hungry_sim = Ok fed_sim.
Proof.
  apply (input_colision_food_takes_precedence true hungry_sim fed_sim).
  vm_compute. reflexivity.
Defined.

(** ** The score *)

Lemma update_score_adds s :
  int_range (score s + 20 * current_food s) →
  score (update_score s) = (score s + 20 * current_food s)%Z.
Proof.
  intros H. unfold update_score. simpl.
  by rewrite int_wrap_add_r, int_wrap_range.
Qed.

Lemma sum_to_mono (a b : nat) : (a ≤ b)%nat → (sum_to a ≤ sum_to b)%Z.
Proof.
  induction 1 as [| b Hab IH]; [lia |]. simpl sum_to. lia.
Qed.

Lemma sum_to_ge (n : nat) : (Z.of_nat n ≤ sum_to n)%Z.
Proof.
  induction n as [| n IH]; [simpl; lia |].
  change (sum_to (S n)) with (sum_to n + Z.of_nat (S n))%Z. lia.
Qed.

Lemma food_event_score c s s' :
  int_range (current_food s + 1) →
  int_range (score s + 20 * (current_food s + 1)) →
  input_colision true c s = Ok s' →
  score s' = (score s + 20 * (current_food s + 1))%Z ∧
  ((current_food s + 1)%Z ≠ n_food s →
   current_food s' = (current_food s + 1)%Z ∧ n_food s' = n_food s).
Proof.
  intros Hf Hs H. unfold input_colision in H. simpl in H.
  rewrite (int_wrap_range _ Hf) in H.
  destruct (Z.eqb_spec (current_food s + 1) (n_food s)) as [Heq | Hne].
  - apply level_up_frame in H as (_ & Hsc & _). simpl in Hsc.
    split; [| done]. rewrite Hsc, int_wrap_add_r. by apply int_wrap_range.
  - inversion H; subst; simpl. rewrite int_wrap_add_r.
    split; [by apply int_wrap_range | auto].
Qed.

Lemma food_events_score_from cs : ∀ (k : nat) s s',
  current_food s = Z.of_nat k →
  (Z.of_nat (k + length cs) ≤ n_food s)%Z →
  int_range (n_food s) →
  int_range (score s) →
  int_range (score s + 20 * (sum_to (k + length cs) - sum_to k)) →
  food_events cs s = Ok s' →
  score s' = (score s + 20 * (sum_to (k + length cs) - sum_to k))%Z.
Proof.
  induction cs as [| c cs IH]; intros k s s' Hk Hn Hnr Hsr Hfin H.
  - inversion H; subst. simpl. rewrite Nat.add_0_r. lia.
  - unfold food_events in H. simpl in H. bind_inv H.
    fold (food_events cs a) in H.
    simpl length in *.
    assert (Hmono : (sum_to (S k) ≤ sum_to (k + S (length cs)))%Z)
      by (apply sum_to_mono; lia).
    assert (Hstep : sum_to (S k) = (sum_to k + Z.of_nat (S k))%Z)
      by reflexivity.
    unfold int_range in *.
    destruct (food_event_score c s a) as [Hsc Hcf]; unfold int_range;
      [lia | lia | done |].
    destruct cs as [| c' cs].
    + inversion H; subst. simpl length in *.
      replace (k + 1)%nat with (S k) in * by lia. lia.
    + simpl length in *.
      destruct Hcf as [Hcf Hnf]; [lia |].
      rewrite (IH (S k) a s'); simpl length; try done; try lia.
      * replace (S k + S (length cs))%nat with (k + S (S (length cs)))%nat
          by lia. lia.
      * replace (S k + S (length cs))%nat with (k + S (S (length cs)))%nat
          by lia. lia.
Qed.

(** C6.  [update_score] adds 20 times the food counter; a food event
    increments the counter first, so it adds 20 times the incremented
    counter; with a non-negative counter the score does not decrease; [N]
    food events of one level, counted from zero, add [20 * (1 + ... + N)];
    and a second call for the same event adds the amount again (40 times
    the counter in all), which differs from the amount of one call.  All of
    it inside the range of [int]. *)
Theorem score_gains_20_times_food_counter :
  (∀ s, int_range (score s + 20 * current_food s) →
        score (update_score s) = (score s + 20 * current_food s)%Z) ∧
  (∀ c s s',
      int_range (current_food s + 1) →
      int_range (score s + 20 * (current_food s + 1)) →
      input_colision true c s = Ok s' →
      score s' = (score s + 20 * (current_food s + 1))%Z) ∧
  (∀ s, (0 ≤ current_food s)%Z →
        int_range (score s + 20 * current_food s) →
        (score s ≤ score (update_score s))%Z) ∧
  (∀ cs s s',
      current_food s = 0%Z →
      (Z.of_nat (length cs) ≤ n_food s)%Z →
      int_range (n_food s) →
      int_range (score s) →
      int_range (score s + 20 * sum_to (length cs)) →
      food_events cs s = Ok s' →
      score s' = (score s + 20 * sum_to (length cs))%Z) ∧
  (∀ s, (0 < current_food s)%Z →
        int_range (score s + 20 * current_food s) →
        int_range (score s + 40 * current_food s) →
        score (update_score (update_score s))
          = (score s + 40 * current_food s)%Z ∧
        score (update_score (update_score s)) ≠ score (update_score s)).
Proof.
  split; [exact update_score_adds |].
  split; [intros c s s' Hf Hs H; by apply (food_event_score c s s') |].
  split; [intros s Hc Hr; rewrite update_score_adds; [lia | done] |].
  split.
  - intros cs s s' Hz Hn Hnr Hsr Hfin H.
    pose proof (food_events_score_from cs 0 s s') as Hgen.
    simpl in Hgen. rewrite Z.sub_0_r in Hgen. by apply Hgen.
  - intros s Hpos H1 H2.
    assert (Hfirst := update_score_adds s H1).
    assert (Hsecond :
      score (update_score (update_score s))
        = (score (update_score s) + 20 * current_food (update_score s))%Z).
    { apply update_score_adds. rewrite Hfirst. simpl.
      replace (score s + 20 * current_food s + 20 * current_food s)%Z
        with (score s + 40 * current_food s)%Z by lia. done. }
    change (current_food (update_score s)) with (current_food s) in Hsecond.
    rewrite Hsecond, Hfirst. split; lia.
Qed.

Lemma score_gains_20_times_food_counter_witness :
  score three_meals_sim
  = (score (demo_sim GAME_RUNNING) + 20 * sum_to (length [false; true; false]))%Z.
Proof.
  destruct score_gains_20_times_food_counter as (_ & _ & _ & Hrun & _).
  apply (Hrun [false; true; false] (demo_sim GAME_RUNNING) three_meals_sim);
    try (vm_compute; reflexivity);
    try (unfold int_range; simpl; lia).
Defined.

(** ** The movement commit *)

Lemma snake_update_blocked rnd s l t :
  current_state s = SNAKE_THINKING →
  current_level s = Ok l →
  get_tile_type l (next_pos s) = Ok t →
  crashed l (next_pos s) = Ok true →
  snake_update rnd s = Ok (set_current_state GAME_OVER s).
Proof.
  intros Hst Hl Ht Hc. unfold snake_update. rewrite Hl. simpl.
  rewrite Ht. simpl. rewrite Hst. simpl. rewrite Hc. reflexivity.
Qed.

(** The caller of the commit: the [SNAKE_THINKING] case of [update] assigns
    [GAME_RUNNING] after [snake_update] returns, also over the [GAME_OVER]
    of a blocked proposal. *)
Lemma update_after_blocked_commit rnd s l t :
  current_state s = SNAKE_THINKING →
  current_level s = Ok l →
  get_tile_type l (next_pos s) = Ok t →
  crashed l (next_pos s) = Ok true →
  update rnd s = Ok (set_current_state GAME_RUNNING s).
Proof.
  intros Hst Hl Ht Hc. unfold update. rewrite Hst.
  by rewrite (snake_update_blocked rnd s l t).
Qed.

(** C5 (amended).  In the thinking state, with a blocking proposal whose
    tile can be read, that is, a proposal inside the grid, [snake_update]
    moves to [GAME_OVER] and changes nothing else: the lives, every level
    and the snake are as before. *)
Theorem snake_update_blocked_is_game_over
    (rnd : nat) (s : SnazeSimulation) (l : Level) (t : tile_type_e) :
  current_state s = SNAKE_THINKING →
  current_level s = Ok l →
  get_tile_type l (next_pos s) = Ok t →
  crashed l (next_pos s) = Ok true →
  ∃ s', snake_update rnd s = Ok s' ∧
        current_state s' = GAME_OVER ∧
        current_life s' = current_life s ∧
        levels s' = levels s ∧
        snake_obj s' = snake_obj s.
Proof.
  intros Hst Hl Ht Hc. eexists.
  split; [by apply (snake_update_blocked rnd s l t) |]. simpl. auto.
Qed.

Lemma snake_update_blocked_is_game_over_witness :
  ∃ s', snake_update 0 doomed_sim = Ok s' ∧
        current_state s' = GAME_OVER ∧
        current_life s' = current_life doomed_sim ∧
        levels s' = levels doomed_sim ∧
        snake_obj s' = snake_obj doomed_sim.
Proof.
  apply (snake_update_blocked_is_game_over 0 doomed_sim demo_level WALL);
    vm_compute; reflexivity.
Defined.

(** C5 (as stated, refuted).  The proposal (7,0) of [stray_sim] lies
    outside the grid of three rows, so it is blocking: [crashed] says so
    without reading a tile.  [snake_update] reads the tile of the proposal
    first, to learn whether it is food, and only then asks [crashed]: the
    read is outside the maze, and the call does not end in [GAME_OVER]. *)
Lemma snake_update_reads_outside_the_grid :
  current_state stray_sim = SNAKE_THINKING ∧
  current_level stray_sim = Ok demo_level ∧
  out_of_bounds demo_level (next_pos stray_sim) ∧
  crashed demo_level (next_pos stray_sim) = Ok true ∧
  (∀ rnd, snake_update rnd stray_sim = Fail UndefinedBehaviour) ∧
  ¬ ∃ rnd s', snake_update rnd stray_sim = Ok s' ∧
              current_state s' = GAME_OVER.
Proof.
  split; [reflexivity |]. split; [vm_compute; reflexivity |].
  split; [left; vm_compute; discriminate |].
  split; [vm_compute; reflexivity |].
  split; [intros rnd; reflexivity |].
  intros (rnd & s' & H & _). discriminate H.
Qed.

Lemma length_removelast_cons {A} (x : A) (b : list A) :
  length (removelast (x :: b)) = length b.
Proof.
  revert x. induction b as [| y b IH]; intros x; [done |].
  change (removelast (x :: y :: b)) with (x :: removelast (y :: b)).
  cbn [length]. f_equal. apply IH.
Qed.

Lemma committed_grows rnd s s' :
  committed rnd s s' → lands_on_food s →
  body (snake_obj s') = next_pos s :: body (snake_obj s).
Proof.
  intros (Hst & (l & Hl & Hc) & H) (l' & Hl' & Hfood).
  rewrite Hl in Hl'. inversion Hl'; subst l'.
  unfold snake_update in H. rewrite Hl in H. simpl in H.
  rewrite Hfood in H. simpl in H. rewrite Hst in H. simpl in H.
  rewrite Hc in H. simpl in H.
  bind_inv H. bind_inv H. destruct a0 as [body2 l2]. bind_inv H.
  inversion H; subst; simpl.
  bind_inv Ha0. inversion Ha0; subst. reflexivity.
Qed.

Lemma committed_moves rnd s s' :
  committed rnd s s' → ¬ lands_on_food s →
  body (snake_obj s') = removelast (next_pos s :: body (snake_obj s)).
Proof.
  intros (Hst & (l & Hl & Hc) & H) Hnf.
  unfold snake_update in H. rewrite Hl in H. simpl in H.
  bind_inv H.
  assert (Ht : a ≠ FOOD).
  { intros ->. apply Hnf. exists l. auto. }
  rewrite (bool_decide_eq_false_2 _ Ht) in H.
  rewrite Hst in H. simpl in H.
  rewrite Hc in H. simpl in H.
  bind_inv H. bind_inv H. destruct a1 as [body2 l2]. bind_inv H.
  inversion H; subst; simpl.
  bind_inv Ha1. bind_inv Ha1. inversion Ha1; subst. reflexivity.
Qed.

(** C8.  A snake fresh from [reset] has one segment; a committed move onto
    food pushes the new head and keeps the tail, any other committed move
    pushes the new head and pops the tail; so after a run with [n] moves
    onto food the body has [n + 1] segments. *)
Theorem body_length_is_food_plus_one
    (sn sn' : Snake) (l l' : Level) (s s' : SnazeSimulation) (n : nat) :
  reset sn l = Ok (sn', l') →
  snake_obj s = sn' →
  commits s n s' →
  length (body (snake_obj s')) = (n + 1)%nat.
Proof.
  intros Hreset Hsn Hrun.
  assert (Hone : length (body (snake_obj s)) = 1%nat).
  { unfold reset in Hreset. bind_inv Hreset. inversion Hreset; subst.
    rewrite <- H0. reflexivity. }
  induction Hrun as [s | s s1 s2 s3 n rnd Hrun IH Hbody Hc Hfood
                       | s s1 s2 s3 n rnd Hrun IH Hbody Hc Hnf].
  - rewrite Hone. reflexivity.
  - rewrite (committed_grows rnd s2 s3 Hc Hfood). simpl.
    rewrite Hbody, IH; auto.
  - rewrite (committed_moves rnd s2 s3 Hc Hnf), length_removelast_cons.
    rewrite Hbody, IH; auto.
Qed.

(** ** The fallback strategy *)

Lemma pos_eqb_eq a b : pos_eqb a b = true ↔ a = b.
Proof.
  unfold pos_eqb. rewrite andb_true_iff, !N.eqb_eq. split.
  - intros [? ?]. by apply pos_eq.
  - by intros ->.
Qed.

(** What the fallback does guarantee: the cell it leads to was read inside
    the grid, is not a [WALL], and is no segment of the body. *)
Lemma search_random_sound directions h l sn d :
  search_random directions h l sn = Ok (Some d) →
  d ∈ directions ∧
  ∃ t, get_tile_type l (move h d) = Ok t ∧ t ≠ WALL ∧ move h d ∉ body sn.
Proof.
  induction directions as [| d0 directions IH]; intros H; [done |].
  cbn [search_random] in H. apply bind_Ok in H. destruct H as (ok & Hok & H).
  destruct ok.
  - inversion H; subst d0. split; [by left |].
    unfold is_valid_position in Hok.
    apply bind_Ok in Hok. destruct Hok as (t & Ht & Hok).
    exists t. split; [done |].
    case_bool_decide as Hw; [done |]. split; [done |].
    destruct (existsb _ _) eqn:Hex; [done |].
    intros Hin. apply list_elem_of_In in Hin.
    assert (existsb (fun segment => pos_eqb segment (move h d)) (body sn)
            = true); [| congruence].
    apply existsb_exists. exists (move h d). split; [done |].
    by apply pos_eqb_eq.
  - destruct (IH H) as (Hd & Hrest). split; [by right | done].
Qed.

(** The probe is defined when the four neighbours of the head are inside
    the grid. *)
Lemma search_random_defined directions h l sn :
  rectangular l → (∀ d, in_bounds l (move h d)) →
  ∃ r, search_random directions h l sn = Ok r.
Proof.
  intros Hrect Hin. induction directions as [| d directions IH]; [by eexists |].
  cbn [search_random]. unfold is_valid_position.
  destruct (at2_in_bounds l (move h d) Hrect (Hin d)) as [t Ht].
  rewrite Ht. res_simpl.
  case_bool_decide; res_simpl; [exact IH |].
  destruct (existsb _ _); res_simpl; [exact IH | by eexists].
Qed.

(** C2.  On [hidden_wall_level] the head at (1,1) has a hidden wall above
    it and walls on the three other sides; the food is out of reach.  With
    the directions tried in the order up, right, down, left (and in the
    reverse order), the fallback returns [up]: the cell it leads to holds
    [INV_WALL], which [crashed] classifies as blocking.  The thinking step
    of the controller ends with that cell as the proposal. *)
Theorem search_random_enters_hidden_wall :
  search_random [up; right; down; left] (mkTilePos 1 1) hidden_wall_level
                (snake_obj hidden_wall_sim) = Ok (Some up) ∧
  search_random [left; down; right; up] (mkTilePos 1 1) hidden_wall_level
                (snake_obj hidden_wall_sim) = Ok (Some up) ∧
  get_tile_type hidden_wall_level (move (mkTilePos 1 1) up) = Ok INV_WALL ∧
  crashed hidden_wall_level (move (mkTilePos 1 1) up) = Ok true ∧
  ∃ s', snake_thinking [up; right; down; left] hidden_wall_sim = Ok s' ∧
        next_pos s' = mkTilePos 0 1.
Proof.
  split; [vm_compute; reflexivity |]. split; [vm_compute; reflexivity |].
  split; [vm_compute; reflexivity |]. split; [vm_compute; reflexivity |].
  eexists. split; [vm_compute; reflexivity | reflexivity].
Qed.

(** ** Food placement *)

Lemma nonempty_of_row l i : i < n_rows l → m_maze l ≠ [].
Proof. unfold n_rows. destruct (m_maze l); simpl; [lia | done]. Qed.

Lemma in_bounds_tile l p t :
  rectangular l → get_tile_type l p = Ok t → in_bounds l p.
Proof.
  intros Hrect (r & Hr & Hc)%at2_Ok. unfold in_bounds, n_rows, width.
  assert (Hlen : length r = length (hd [] (m_maze l))).
  { eapply (proj1 (Forall_lookup _ _) Hrect); eauto. }
  apply lookup_lt_Some in Hr, Hc. lia.
Qed.

Lemma empty_spaces_scan l :
  rectangular l →
  empty_spaces l
  = Ok (size_range (n_rows l) ≫= fun i =>
        size_range (width l) ≫= fun j => empty_at l i j).
Proof.
  intros Hrect. unfold empty_spaces.
  rewrite (for_each_collect _
             (fun i => size_range (width l) ≫= fun j => empty_at l i j));
    [done |].
  intros i acc Hi%elem_of_size_range.
  rewrite (n_cols_width l (nonempty_of_row l i Hi)). simpl.
  apply for_each_collect.
  intros j acc' Hj%elem_of_size_range.
  destruct (at2_in_bounds l (mkTilePos i j) Hrect) as [t Ht]; [done |].
  unfold empty_at. unfold get_tile_type in Ht. unfold get_tile_type.
  rewrite Ht. simpl.
  destruct t; simpl; by rewrite ?app_nil_r.
Qed.

Lemma empty_spaces_spec l p :
  rectangular l →
  ∃ es, empty_spaces l = Ok es ∧ (p ∈ es ↔ get_tile_type l p = Ok EMPTY).
Proof.
  intros Hrect. eexists. split; [by apply empty_spaces_scan |].
  rewrite list_elem_of_bind. split.
  - intros (i & Hp & Hi). apply list_elem_of_bind in Hp as (j & Hp & Hj).
    unfold empty_at in Hp.
    destruct (get_tile_type l (mkTilePos i j)) as [[] |] eqn:Ht;
      try by apply elem_of_nil in Hp.
    apply list_elem_of_singleton in Hp. by subst p.
  - intros Ht. destruct (in_bounds_tile l p EMPTY Hrect Ht) as [Hr Hc].
    exists (row p). split; [| by apply elem_of_size_range].
    apply list_elem_of_bind. exists (col p).
    split; [| by apply elem_of_size_range].
    unfold empty_at. destruct p as [i j]. simpl. rewrite Ht.
    apply list_elem_of_singleton. done.
Qed.

(** C7.  [place_food] always returns.  Without an [EMPTY] cell it returns
    the level as it was.  With one, the new food location is a cell that
    was [EMPTY] when the call started, that cell is [FOOD] afterwards, every
    other cell keeps its tile and the spawn location is untouched. *)
Theorem place_food_picks_an_empty_cell (rnd : nat) (l : Level) :
  rectangular l →
  ∃ l', place_food rnd l = Ok l' ∧
    ((∀ p, get_tile_type l p ≠ Ok EMPTY) → l' = l) ∧
    ((∃ p, get_tile_type l p = Ok EMPTY) →
       get_tile_type l (m_food_loc l') = Ok EMPTY ∧
       get_tile_type l' (m_food_loc l') = Ok FOOD ∧
       (∀ q, q ≠ m_food_loc l' → get_tile_type l' q = get_tile_type l q) ∧
       m_spawn_loc l' = m_spawn_loc l).
Proof.
  intros Hrect.
  destruct (empty_spaces_spec l (mkTilePos 0 0) Hrect) as (es & Hes & _).
  assert (Hmem : ∀ p, p ∈ es ↔ get_tile_type l p = Ok EMPTY).
  { intros p. destruct (empty_spaces_spec l p Hrect) as (es' & Hes' & Hp).
    rewrite Hes in Hes'. inversion Hes'; subst es'. exact Hp. }
  unfold place_food. rewrite Hes. simpl.
  destruct es as [| e es].
  - exists l. split; [done |]. split; [done |].
    intros [p Hp]. apply Hmem in Hp. by apply elem_of_nil in Hp.
  - set (v := e :: es) in *.
    destruct (lookup_lt_is_Some_2 v (rnd mod length v)%nat) as [food Hfood].
    { apply Nat.mod_upper_bound. done. }
    rewrite Hfood. simpl.
    assert (Hempty : get_tile_type l food = Ok EMPTY).
    { apply Hmem. apply list_elem_of_lookup. eauto. }
    destruct (set2_in_range (m_maze l) food FOOD EMPTY Hempty) as [m' Hset].
    unfold set_tile_type. simpl. rewrite Hset. simpl.
    eexists. split; [reflexivity |]. simpl. split.
    + intros Hnone. by destruct (Hnone food).
    + intros _. unfold get_tile_type. simpl.
      split; [exact Hempty |].
      split; [rewrite (at2_set2 _ _ _ food _ Hset); by rewrite decide_True |].
      split; [| done].
      intros q Hq. rewrite (at2_set2 _ _ _ q _ Hset). by rewrite decide_False.
Qed.

Lemma place_food_picks_an_empty_cell_witness :
  ∃ l', place_food 7 bend_level = Ok l' ∧
    ((∀ p, get_tile_type bend_level p ≠ Ok EMPTY) → l' = bend_level) ∧
    ((∃ p, get_tile_type bend_level p = Ok EMPTY) →
       get_tile_type bend_level (m_food_loc l') = Ok EMPTY ∧
       get_tile_type l' (m_food_loc l') = Ok FOOD ∧
       (∀ q, q ≠ m_food_loc l' →
             get_tile_type l' q = get_tile_type bend_level q) ∧
       m_spawn_loc l' = m_spawn_loc bend_level).
Proof.
  apply (place_food_picks_an_empty_cell 7 bend_level).
  unfold rectangular. simpl. repeat constructor.
Defined.

(** ** The breadth-first search *)

Lemma path_snoc l a b c n : path l a b n → step l b c → path l a c (S n).
Proof.
  induction 1 as [u | u v w n Hs Hp IH]; intros Hbc.
  - eapply path_cons; [exact Hbc | constructor].
  - eapply path_cons; [exact Hs | by apply IH].
Qed.

Lemma count_if_le {A} (f g : A → bool) (xs : list A) :
  (∀ x, g x = true → f x = true) → (count_if g xs ≤ count_if f xs)%nat.
Proof.
  intros Himp. induction xs as [| x xs IH]; simpl; [lia |].
  destruct (g x) eqn:Hg; [rewrite (Himp x Hg) |]; destruct (f x); lia.
Qed.

Lemma count_if_lt {A} (f g : A → bool) (xs : list A) (y : A) :
  (∀ x, g x = true → f x = true) → y ∈ xs → f y = true → g y = false →
  (count_if g xs < count_if f xs)%nat.
Proof.
  intros Himp Hy Hfy Hgy. induction Hy as [y xs | y x xs Hy IH]; simpl.
  - rewrite Hfy, Hgy. pose proof (count_if_le f g xs Himp). lia.
  - specialize (IH Hfy Hgy).
    destruct (g x) eqn:Hg; [rewrite (Himp x Hg) |]; destruct (f x); lia.
Qed.

Lemma count_if_length {A} (f : A → bool) (xs : list A) :
  (count_if f xs ≤ length xs)%nat.
Proof. induction xs as [| x xs IH]; simpl; [lia |]. destruct (f x); lia. Qed.

Lemma length_bind_const {A B} (xs : list A) (f : A → list B) (c : nat) :
  (∀ x, length (f x) = c) → length (xs ≫= f) = (length xs * c)%nat.
Proof.
  intros Hf. induction xs as [| x xs IH]; [done |].
  change ((x :: xs) ≫= f) with (f x ++ (xs ≫= f)).
  rewrite length_app, Hf, IH. simpl. lia.
Qed.

Lemma length_size_range n : length (size_range n) = N.to_nat n.
Proof. unfold size_range. by rewrite length_fmap, length_seq. Qed.

Section Search.
Variables (l : Level) (start : TilePos) (nc : N).
Hypothesis Hrect : rectangular l.
Hypothesis Hnc : n_cols l = Ok nc.
Hypothesis Hfit : n_rows l * nc ≤ size_modulus.
Hypothesis Hstart : in_bounds l start.

Local Abbreviation depth_of := (depth l start nc).
Local Abbreviation inv := (search_inv l start nc).

Lemma width_nc : width l = nc.
Proof.
  unfold n_cols, width in *. destruct (m_maze l); [done |].
  simpl. by inversion Hnc.
Qed.

Lemma length_all_cells :
  length (all_cells l nc) = (N.to_nat (n_rows l) * N.to_nat nc)%nat.
Proof.
  unfold all_cells.
  rewrite (length_bind_const _ _ (N.to_nat nc)).
  - by rewrite length_size_range.
  - intros i. rewrite (length_bind_const _ _ 1%nat); [| done].
    rewrite length_size_range. lia.
Qed.

Lemma elem_of_all_cells p : p ∈ all_cells l nc ↔ in_bounds l p.
Proof.
  unfold all_cells, in_bounds. rewrite width_nc, list_elem_of_bind. split.
  - intros (i & (j & Hp & Hj)%list_elem_of_bind & Hi).
    apply list_elem_of_singleton in Hp. subst p. simpl.
    by apply elem_of_size_range in Hi, Hj.
  - intros [Hr Hc]. exists (row p). split; [| by apply elem_of_size_range].
    apply list_elem_of_bind. exists (col p).
    split; [| by apply elem_of_size_range].
    apply list_elem_of_singleton. by destruct p.
Qed.

Lemma cell_key_in_bounds v :
  in_bounds l v → cell_key nc v = row v * nc + col v.
Proof.
  intros [Hr Hc]. rewrite width_nc in Hc.
  unfold cell_key, size_add, size_mul.
  assert (row v * nc + col v < n_rows l * nc) by nia.
  rewrite (N.mod_small (row v * nc)) by nia.
  apply N.mod_small. lia.
Qed.

Lemma cell_key_inj u v :
  in_bounds l u → in_bounds l v → cell_key nc u = cell_key nc v → u = v.
Proof.
  intros Hu Hv. rewrite !cell_key_in_bounds by done.
  destruct Hu as [_ Hu], Hv as [_ Hv]. rewrite width_nc in Hu, Hv.
  intros Hk.
  assert (row u = row v) by nia.
  apply pos_eq; [done | nia].
Qed.

(** *** The visited table *)

Lemma table_at vis v :
  table_dims l nc vis → in_bounds l v → ∃ b, at2 vis v = Ok b.
Proof.
  intros [Hlen Hrows] [Hr Hc]. rewrite width_nc in Hc.
  unfold n_rows in Hlen, Hr.
  destruct (lookup_lt_is_Some_2 vis (N.to_nat (row v))) as [r Hrow]; [lia |].
  assert (Hl : length r = N.to_nat nc).
  { eapply (proj1 (Forall_lookup _ _) Hrows); eauto. }
  destruct (lookup_lt_is_Some_2 r (N.to_nat (col v))) as [b Hb]; [lia |].
  exists b. apply at2_Ok. eauto.
Qed.

Lemma table_in_bounds vis v b :
  table_dims l nc vis → at2 vis v = Ok b → in_bounds l v.
Proof.
  intros [Hlen Hrows] (r & Hr & Hc)%at2_Ok.
  unfold in_bounds. rewrite width_nc. unfold n_rows in Hlen |- *.
  assert (Hl : length r = N.to_nat nc).
  { eapply (proj1 (Forall_lookup _ _) Hrows); eauto. }
  apply lookup_lt_Some in Hr, Hc. lia.
Qed.

Lemma table_set vis vis' v b :
  table_dims l nc vis → set2 vis v b = Ok vis' → table_dims l nc vis'.
Proof.
  intros [Hlen Hrows] Hset.
  destruct (set2_dims _ _ _ _ Hset) as [Hlen' _].
  split; [congruence | by eapply set2_row_lengths].
Qed.

(** *** Depths along the predecessor map *)

Lemma depth_fun mn :
  (∀ u, mn !! cell_key nc start = Some u → False) →
  ∀ v a, depth_of mn v a → ∀ b, depth_of mn v b → a = b.
Proof.
  intros Hroot v a Ha.
  induction Ha as [| v u n Hv Hmn Hu IH]; intros b Hb.
  - inversion Hb as [| ? u ? ? Hm]; [done | by destruct (Hroot u)].
  - inversion Hb as [Heq | ? u' m ? Hm Hu']; subst.
    + by destruct (Hroot u).
    + rewrite Hmn in Hm. inversion Hm; subst u'. f_equal. by apply IH.
Qed.

Lemma depth_insert mn key c v n :
  mn !! key = None → depth_of mn v n → depth_of (<[key := c]> mn) v n.
Proof.
  intros Hnone. induction 1 as [| v u n Hv Hmn Hu IH]; [constructor |].
  apply (depth_next _ _ _ _ v u n); [done | | done].
  rewrite lookup_insert_ne; [done |]. intros ->. congruence.
Qed.

(** *** Consequences of the invariant *)

Lemma inv_root k F vis mn u :
  inv k F vis mn → mn !! cell_key nc start = Some u → False.
Proof.
  intros Hinv Hu.
  destruct (inv_main _ _ _ _ _ _ _ Hinv start u Hstart Hu) as (_ & _ & _ & Hne).
  done.
Qed.

Lemma depth_visited k F vis mn v n :
  inv k F vis mn → depth_of mn v n → visited vis v.
Proof.
  intros Hinv Hd. destruct Hd as [| v u n Hv Hmn Hu].
  - exact (inv_start _ _ _ _ _ _ _ Hinv).
  - by destruct (inv_main _ _ _ _ _ _ _ Hinv v u Hv Hmn).
Qed.

Lemma depth_path k F vis mn v n :
  inv k F vis mn → depth_of mn v n → path l start v n.
Proof.
  intros Hinv. induction 1 as [| v u n Hv Hmn Hu IH]; [constructor |].
  eapply path_snoc; [exact IH |].
  by destruct (inv_main _ _ _ _ _ _ _ Hinv v u Hv Hmn) as (_ & _ & Hs & _).
Qed.

Lemma inv_depth_unique k F vis mn v a b :
  inv k F vis mn → depth_of mn v a → depth_of mn v b → a = b.
Proof.
  intros Hinv Ha Hb. eapply (depth_fun mn); eauto.
  intros u. by apply (inv_root k F vis mn u).
Qed.

(** The cell at the front of the frontier can be taken to be at the
    current depth level. *)
Lemma inv_front_depth k c rest vis mn :
  inv k (c :: rest) vis mn →
  ∃ k', inv k' (c :: rest) vis mn ∧ depth_of mn c k' ∧ (k' ≤ S k)%nat.
Proof.
  intros Hinv.
  destruct (inv_front _ _ _ _ _ _ _ Hinv) as (q1 & q2 & HF & H1 & H2).
  destruct q1 as [| c1 q1].
  - simpl in HF. subst q2. exists (S k). split; [| split; [| lia]].
    + destruct Hinv as [Hd Hs Hdep Hm _ Hcl]. split; try done.
      * intros v Hv. destruct (Hdep v Hv) as (n & Hn & Hle).
        exists n. split; [done | lia].
      * exists (c :: rest), []. rewrite app_nil_r. split; [done |].
        split; [done | constructor].
    + by inversion H2.
  - inversion HF; subst. exists k. split; [done |]. split; [| lia].
    by inversion H1.
Qed.

(** *** The start of the search *)

Lemma at2_replicate (r c : nat) (v : TilePos) (b : bool) :
  at2 (replicate r (replicate c false)) v = Ok b → b = false.
Proof.
  intros (row0 & Hr & Hc)%at2_Ok.
  apply lookup_replicate in Hr as [-> _].
  by apply lookup_replicate in Hc as [-> _].
Qed.

Lemma table_dims_replicate :
  table_dims l nc
    (replicate (N.to_nat (n_rows l)) (replicate (N.to_nat nc) false)).
Proof.
  split; [apply length_replicate |].
  apply Forall_replicate. apply length_replicate.
Qed.

Lemma inv_init vis1 :
  set2 (replicate (N.to_nat (n_rows l)) (replicate (N.to_nat nc) false))
       start true = Ok vis1 →
  inv 0 [start] vis1 ∅.
Proof.
  intros Hset.
  assert (Hvis : ∀ v, visited vis1 v → v = start).
  { intros v Hv. unfold visited in Hv.
    rewrite (at2_set2 _ _ _ v _ Hset) in Hv.
    destruct (decide (v = start)); [done |].
    by apply at2_replicate in Hv. }
  split.
  - eapply table_set; [apply table_dims_replicate | exact Hset].
  - unfold visited. rewrite (at2_set2 _ _ _ start _ Hset).
    by rewrite decide_True.
  - intros v Hv. rewrite (Hvis v Hv). exists 0%nat. split; [constructor | lia].
  - intros v u _ Hm. by rewrite lookup_empty in Hm.
  - exists [start], []. split; [done |]. split; repeat constructor.
  - intros v Hv Hnot. rewrite (Hvis v Hv) in Hnot.
    destruct Hnot. by left.
Qed.

Lemma set2_start_defined :
  ∃ vis1,
    set2 (replicate (N.to_nat (n_rows l)) (replicate (N.to_nat nc) false))
         start true = Ok vis1.
Proof.
  destruct (table_at _ start table_dims_replicate Hstart) as [b Hb].
  by eapply set2_in_range.
Qed.

(** *** One neighbour *)

Lemma is_visited_true vis v : is_visited vis v = true ↔ visited vis v.
Proof.
  unfold is_visited, visited.
  destruct (at2 vis v) as [[] | f]; split; congruence.
Qed.

Lemma visit_neighbour_inv k curr i st :
  (i < 4)%nat →
  inv k (curr :: fila st) (visit st) (main st) →
  depth_of (main st) curr k →
  ∃ st', visit_neighbour l curr i st = Ok (Continue st') ∧
    inv k (curr :: fila st') (visit st') (main st') ∧
    depth_of (main st') curr k ∧
    (∀ v, visited (visit st) v → visited (visit st') v) ∧
    (search_measure l nc st' ≤ search_measure l nc st)%nat ∧
    (∀ w, w = offset curr i → in_bounds l w → crashed l w = Ok false →
          visited (visit st') w).
Proof.
  intros Hi Hinv Hcurr. unfold visit_neighbour.
  set (V := offset curr i).
  assert (Hsame :
            (∀ w, w = V → in_bounds l w → crashed l w = Ok false →
                  visited (visit st) w) →
            ∃ st', Ok (Continue st) = Ok (Continue st') ∧
              inv k (curr :: fila st') (visit st') (main st') ∧
              depth_of (main st') curr k ∧
              (∀ v, visited (visit st) v → visited (visit st') v) ∧
              (search_measure l nc st' ≤ search_measure l nc st)%nat ∧
              (∀ w, w = V → in_bounds l w → crashed l w = Ok false →
                    visited (visit st') w)).
  { intros HP. exists st. split; [done |]. split; [done |].
    split; [done |]. split; [auto |]. split; [lia | done]. }
  destruct (N.ltb_spec (row V) (n_rows l)) as [Hr | Hr].
  2:{ apply Hsame. intros w -> [Hr' _]. lia. }
  rewrite Hnc. res_simpl.
  destruct (N.ltb_spec (col V) nc) as [Hc | Hc].
  2:{ apply Hsame. intros w -> [_ Hc']. rewrite width_nc in Hc'. lia. }
  assert (HinV : in_bounds l V).
  { split; [done |]. by rewrite width_nc. }
  pose proof (inv_dims _ _ _ _ _ _ _ Hinv) as Hdims.
  destruct (table_at (visit st) V Hdims HinV) as [seen Hseen].
  rewrite Hseen. res_simpl. destruct seen.
  { apply Hsame. by intros w -> _ _. }
  destruct (crashed_total l V Hrect) as [[] Hb]; rewrite Hb; res_simpl.
  { apply Hsame. intros w -> _ Hcr. congruence. }
  destruct (set2_in_range (visit st) V true false Hseen) as [vis' Hset].
  rewrite Hset. res_simpl.
  eexists. split; [reflexivity |]. simpl.
  (* facts about the fresh cell *)
  assert (Hnotvis : ¬ visited (visit st) V).
  { unfold visited. congruence. }
  assert (Hfresh : main st !! cell_key nc V = None).
  { destruct (main st !! cell_key nc V) as [u |] eqn:Hu; [| done].
    by destruct (inv_main _ _ _ _ _ _ _ Hinv V u HinV Hu) as (Hv & _). }
  assert (Hvis' : ∀ v, visited vis' v ↔ v = V ∨ visited (visit st) v).
  { intros v. unfold visited. rewrite (at2_set2 _ _ _ v _ Hset).
    destruct (decide (v = V)) as [-> | Hne]; [tauto |].
    split; [tauto |]. intros [? | ?]; done. }
  assert (Hmono : ∀ v, visited (visit st) v → visited vis' v).
  { intros v Hv. apply Hvis'. by right. }
  assert (Hdmono : ∀ v n, depth_of (main st) v n →
                          depth_of (<[cell_key nc V := curr]> (main st)) v n).
  { intros v n. by apply depth_insert. }
  assert (HdV : depth_of (<[cell_key nc V := curr]> (main st)) V (S k)).
  { apply (depth_next _ _ _ _ V curr k); [done | | by apply Hdmono].
    by rewrite lookup_insert_eq. }
  assert (Hstep : step l curr V).
  { exists i. split; [done |]. split; [done |]. split; [exact HinV | exact Hb]. }
  assert (HVstart : V ≠ start).
  { intros ->. apply Hnotvis. exact (inv_start _ _ _ _ _ _ _ Hinv). }
  split; [| split; [by apply Hdmono | split; [exact Hmono |]]].
  - split.
    + by eapply table_set.
    + apply Hmono. exact (inv_start _ _ _ _ _ _ _ Hinv).
    + intros v [-> | Hv]%Hvis'.
      * exists (S k). split; [done | lia].
      * destruct (inv_depth _ _ _ _ _ _ _ Hinv v Hv) as (n & Hn & Hle).
        exists n. split; [by apply Hdmono | done].
    + intros v u Hv Hm.
      destruct (decide (cell_key nc V = cell_key nc v)) as [Hk | Hk].
      * assert (v = V) by (by apply cell_key_inj). subst v.
        rewrite lookup_insert_eq in Hm. inversion Hm; subst u.
        split; [apply Hvis'; by left |].
        split; [apply Hmono; by eapply depth_visited |]. done.
      * rewrite lookup_insert_ne in Hm by done.
        destruct (inv_main _ _ _ _ _ _ _ Hinv v u Hv Hm) as (? & ? & ? & ?).
        auto.
    + destruct (inv_front _ _ _ _ _ _ _ Hinv) as (q1 & q2 & HF & H1 & H2).
      exists q1, (q2 ++ [V]). split.
      * rewrite app_assoc, <- HF. by rewrite app_comm_cons.
      * split; [eapply Forall_impl; [exact H1 | intros v; apply Hdmono] |].
        apply Forall_app. split; [| by repeat constructor].
        eapply Forall_impl; [exact H2 | intros v; apply Hdmono].
    + intros v Hv Hnot.
      assert (HvV : v ≠ V).
      { intros ->. apply Hnot. right. apply elem_of_app. right. by left. }
      assert (Hv0 : visited (visit st) v).
      { apply Hvis' in Hv as [? | ?]; done. }
      assert (Hnot0 : v ∉ curr :: fila st).
      { intros [-> | Hin]%elem_of_cons; apply Hnot; [by left |].
        right. apply elem_of_app. by left. }
      destruct (inv_closed _ _ _ _ _ _ _ Hinv v Hv0 Hnot0) as [Hnf Hcl].
      split; [done |]. intros w Hw.
      destruct (Hcl w Hw) as (Hwv & n & m & Hn & Hm & Hle).
      split; [by apply Hmono |]. exists n, m. auto.
  - unfold search_measure. simpl. rewrite length_app. simpl.
    assert (Hlt : (count_if (fun p => negb (is_visited vis' p)) (all_cells l nc)
                   < count_if (fun p => negb (is_visited (visit st) p))
                       (all_cells l nc))%nat).
    { apply (count_if_lt _ _ _ V).
      - intros x Hx. apply negb_true_iff in Hx. apply negb_true_iff.
        destruct (is_visited (visit st) x) eqn:Hvx; [| done].
        apply is_visited_true, Hmono, is_visited_true in Hvx. congruence.
      - by apply elem_of_all_cells.
      - apply negb_true_iff. unfold is_visited. by rewrite Hseen.
      - apply negb_false_iff, is_visited_true, Hvis'. by left. }
    split; [lia |]. intros w -> _ _. apply Hvis'. by left.
Qed.

(** *** The four neighbours, and the cell they close *)

Lemma expand_inv k curr indices : ∀ st,
  Forall (fun i => (i < 4)%nat) indices →
  inv k (curr :: fila st) (visit st) (main st) →
  depth_of (main st) curr k →
  ∃ st', expand l curr indices st = Ok (Continue st') ∧
    inv k (curr :: fila st') (visit st') (main st') ∧
    depth_of (main st') curr k ∧
    (∀ v, visited (visit st) v → visited (visit st') v) ∧
    (search_measure l nc st' ≤ search_measure l nc st)%nat ∧
    (∀ i w, i ∈ indices → w = offset curr i → in_bounds l w →
            crashed l w = Ok false → visited (visit st') w).
Proof.
  induction indices as [| i indices IH]; intros st Hlt Hinv Hcurr.
  - exists st. split; [done |]. split; [done |]. split; [done |].
    split; [auto |]. split; [lia |]. intros i w Hi. by apply elem_of_nil in Hi.
  - inversion Hlt as [| ? ? Hi Hrest]; subst.
    destruct (visit_neighbour_inv k curr i st Hi Hinv Hcurr)
      as (st1 & Hrun & Hinv1 & Hcurr1 & Hmono1 & Hmeas1 & Hcl1).
    destruct (IH st1 Hrest Hinv1 Hcurr1)
      as (st2 & Hrun2 & Hinv2 & Hcurr2 & Hmono2 & Hmeas2 & Hcl2).
    exists st2. cbn [expand]. rewrite Hrun. res_simpl.
    split; [done |]. split; [done |]. split; [done |].
    split; [auto |]. split; [lia |].
    intros j w [-> | Hj]%elem_of_cons Hw Hin Hcr.
    + apply Hmono2. by apply Hcl1.
    + by apply (Hcl2 j).
Qed.

Lemma inv_close k curr q vis mn :
  inv k (curr :: q) vis mn → depth_of mn curr k → ¬ is_food l curr →
  (∀ w, step l curr w → visited vis w) →
  inv k q vis mn.
Proof.
  intros Hinv Hcurr Hnf Hnb.
  pose proof Hinv as [Hd Hs Hdep Hm Hfr Hcl]. split; try done.
  - destruct Hfr as (q1 & q2 & HF & H1 & H2).
    destruct q1 as [| c q1].
    + simpl in HF. subst q2. inversion H2 as [| ? ? Hc _]; subst.
      pose proof (inv_depth_unique _ _ _ _ _ _ _ Hinv Hcurr Hc). lia.
    + inversion HF; subst. exists q1, q2. split; [done |].
      split; [by inversion H1 | done].
  - intros v Hv Hnot. destruct (decide (v = curr)) as [-> | Hne].
    + split; [done |]. intros w Hw. split; [by apply Hnb |].
      destruct (Hdep w (Hnb w Hw)) as (m & Hdm & Hle).
      exists k, m. auto.
    + apply Hcl; [done |]. intros [-> | Hin]%elem_of_cons; done.
Qed.

(** Every path from a visited cell to food meets the frontier, at a depth
    the length of the path accounts for. *)
Lemma frontier_bound k F vis mn n v w :
  inv k F vis mn → path l v w n → ∀ a,
  visited vis v → depth_of mn v a → is_food l w →
  ∃ x b, x ∈ F ∧ depth_of mn x b ∧ (b ≤ a + n)%nat.
Proof.
  intros Hinv. induction 1 as [v | v v' w n Hstep Hpath IH];
    intros a Hv Ha Hfood.
  - destruct (decide (v ∈ F)) as [Hin | Hnot].
    + exists v, a. split; [done |]. split; [done | lia].
    + by destruct (inv_closed _ _ _ _ _ _ _ Hinv v Hv Hnot) as [Hnf _].
  - destruct (decide (v ∈ F)) as [Hin | Hnot].
    + exists v, a. split; [done |]. split; [done | lia].
    + destruct (inv_closed _ _ _ _ _ _ _ Hinv v Hv Hnot) as [_ Hcl].
      destruct (Hcl v' Hstep) as (Hv' & n0 & m0 & Hn0 & Hm0 & Hle).
      pose proof (inv_depth_unique _ _ _ _ _ _ _ Hinv Ha Hn0). subst n0.
      destruct (IH m0 Hv' Hm0 Hfood) as (x & b & Hx & Hb & Hle').
      exists x, b. split; [done |]. split; [done | lia].
Qed.

Lemma frontier_depth k F vis mn x b :
  inv k F vis mn → x ∈ F → depth_of mn x b → (k ≤ b)%nat.
Proof.
  intros Hinv Hx Hb.
  destruct (inv_front _ _ _ _ _ _ _ Hinv) as (q1 & q2 & -> & H1 & H2).
  apply elem_of_app in Hx as [Hx | Hx].
  - pose proof (proj1 (Forall_forall _ _) H1 x Hx) as Hk.
    pose proof (inv_depth_unique _ _ _ _ _ _ _ Hinv Hb Hk). lia.
  - pose proof (proj1 (Forall_forall _ _) H2 x Hx) as Hk.
    pose proof (inv_depth_unique _ _ _ _ _ _ _ Hinv Hb Hk). lia.
Qed.

(** *** The loop *)

Lemma bfs_loop_spec (bound : nat) : ∀ fuel st k,
  inv k (fila st) (visit st) (main st) →
  (search_measure l nc st < fuel)%nat →
  (k + search_measure l nc st ≤ bound)%nat →
  ∃ out, bfs_loop fuel l st = Ok out ∧ outcome_spec l start nc bound out.
Proof.
  induction fuel as [| fuel IH]; intros st k Hinv Hfuel Hbound; [lia |].
  cbn [bfs_loop].
  destruct (fila st) as [| curr rest] eqn:Hq.
  - eexists. split; [reflexivity |]. simpl. intros w n Hfood Hpath.
    destruct (frontier_bound k [] (visit st) (main st) n start w Hinv Hpath
                0%nat (inv_start _ _ _ _ _ _ _ Hinv)
                (depth_start l start nc (main st)) Hfood)
      as (x & b & Hx & _).
    by apply elem_of_nil in Hx.
  - destruct (inv_front_depth k curr rest _ _ Hinv)
      as (k' & Hinv' & Hcurr & Hk').
    assert (Hvis : visited (visit st) curr)
      by (by eapply depth_visited).
    assert (Hin : in_bounds l curr).
    { eapply table_in_bounds; [exact (inv_dims _ _ _ _ _ _ _ Hinv) | exact Hvis]. }
    destruct (at2_in_bounds l curr Hrect Hin) as [t Ht].
    rewrite Ht. res_simpl.
    assert (Hlen : (search_measure l nc (mkSearch rest (visit st) (main st))
                    + 1 = search_measure l nc st)%nat).
    { unfold search_measure. simpl. rewrite Hq. simpl. lia. }
    case_bool_decide as Hfood.
    + subst t. eexists. split; [reflexivity |]. simpl. split; [exact Ht |].
      exists k', (curr :: rest), (visit st). split; [done |].
      split; [done |]. split; [lia |].
      intros w n Hw Hpath.
      destruct (frontier_bound k' (curr :: rest) (visit st) (main st) n start w
                  Hinv' Hpath 0%nat (inv_start _ _ _ _ _ _ _ Hinv)
                  (depth_start l start nc (main st)) Hw)
        as (x & b & Hx & Hb & Hle).
      pose proof (frontier_depth _ _ _ _ _ _ Hinv' Hx Hb). lia.
    + destruct (expand_inv k' curr (seq 0 4)
                  (mkSearch rest (visit st) (main st)))
        as (st2 & Hrun & Hinv2 & Hcurr2 & Hmono & Hmeas & Hcl); try done.
      { apply Forall_forall. intros i Hi. apply elem_of_seq in Hi. lia. }
      rewrite Hrun. res_simpl.
      apply (IH st2 k').
      * apply (inv_close k' curr); try done.
        -- unfold is_food. rewrite Ht. congruence.
        -- intros w (i & Hi & Hw & Hwin & Hcr). apply (Hcl i); try done.
           apply elem_of_seq. lia.
      * lia.
      * lia.
Qed.

(** *** Walking back from the food *)

Lemma found_food_walk_spec k F vis mn :
  inv k F vis mn →
  ∀ n fuel v, depth_of mn v (S n) → (n < fuel)%nat →
  ∃ nm, found_food_walk fuel nc mn start v = Ok nm ∧
        step l start nm ∧ path l nm v n.
Proof.
  intros Hinv. induction n as [| n IH]; intros fuel v Hd Hfuel;
    (destruct fuel as [| fuel]; [lia |]);
    inversion Hd as [| ? u ? Hv Hm Hu]; subst; cbn [found_food_walk];
    rewrite Hm; cbn [default from_option id];
    destruct (inv_main _ _ _ _ _ _ _ Hinv v u Hv Hm) as (_ & _ & Hstep & _).
  - assert (u = start) as -> by (by inversion Hu).
    rewrite !N.eqb_refl. cbn [andb].
    exists v. split; [done |]. split; [assumption | constructor].
  - destruct ((row u =? row start) && (col u =? col start)) eqn:Heq.
    + apply andb_true_iff in Heq as [Hr%N.eqb_eq Hc%N.eqb_eq].
      assert (u = start) by (by apply pos_eq). subst u.
      pose proof (inv_depth_unique _ _ _ _ _ _ _ Hinv Hu
                    (depth_start l start nc mn)). lia.
    + destruct (IH fuel u Hu) as (nm & Hrun & Hs & Hp); [lia |].
      exists nm. split; [exact Hrun |]. split; [assumption |].
      eapply path_snoc; eassumption.
Qed.

(** *** From the first push to the proposed move *)

Lemma count_if_lt_length {A} (f : A → bool) (xs : list A) (y : A) :
  y ∈ xs → f y = false → (count_if f xs < length xs)%nat.
Proof.
  intros Hy Hfy. induction Hy as [y xs | y x xs Hy IH]; simpl.
  - rewrite Hfy. pose proof (count_if_length f xs). lia.
  - specialize (IH Hfy). destruct (f x); lia.
Qed.

Lemma found_food_spec k F vis mn f :
  inv k F vis mn → depth_of mn f k →
  (k ≤ N.to_nat (n_rows l) * N.to_nat nc)%nat →
  (∀ n, path l start f n → (k ≤ n)%nat) →
  ∃ nm, found_food (search_fuel l nc) true f mn l start = Ok nm ∧
        best_first_move l start f nm k.
Proof.
  intros Hinv Hd Hk Hmin. unfold found_food. rewrite Hnc. res_simpl.
  destruct k as [| n].
  - assert (f = start) as -> by (by inversion Hd).
    destruct (mn !! cell_key nc start) as [u |] eqn:Hu.
    + by destruct (inv_root _ _ _ _ u Hinv).
    + exists start. split; [done |]. left. done.
  - inversion Hd as [| ? u ? Hv Hm Hu]; subst. rewrite Hm.
    destruct (found_food_walk_spec _ _ _ _ Hinv n (search_fuel l nc) f Hd)
      as (nm & Hrun & Hstep & Hpath); [unfold search_fuel; lia |].
    exists nm. split; [done |]. right. split; [lia |]. split; [assumption |].
    replace (S n - 1)%nat with n by lia. split; [done |].
    intros m Hm'.
    assert (Hlong : path l start f (S m))
      by (eapply path_cons; eassumption).
    apply Hmin in Hlong. lia.
Qed.

Lemma search_core (f0 : TilePos) (n0 : nat) :
  is_food l f0 → path l start f0 n0 →
  ∃ vis1 f st k nm,
    set2 (replicate (N.to_nat (n_rows l)) (replicate (N.to_nat nc) false))
         start true = Ok vis1 ∧
    bfs_loop (search_fuel l nc) l (mkSearch [start] vis1 ∅)
      = Ok (Found f st) ∧
    found_food (search_fuel l nc) true f (main st) l start = Ok nm ∧
    is_food l f ∧ path l start f k ∧
    (∀ w n, is_food l w → path l start w n → (k ≤ n)%nat) ∧
    best_first_move l start f nm k.
Proof.
  intros Hfood0 Hpath0.
  destruct set2_start_defined as [vis1 Hset].
  pose proof (inv_init vis1 Hset) as Hinv0.
  assert (Hmeas : (search_measure l nc (mkSearch [start] vis1 ∅)
                   ≤ N.to_nat (n_rows l) * N.to_nat nc)%nat).
  { unfold search_measure. simpl.
    pose proof (count_if_lt_length
                  (fun p => negb (is_visited vis1 p)) (all_cells l nc) start)
      as Hlt.
    rewrite length_all_cells in Hlt.
    assert ((count_if (fun p => negb (is_visited vis1 p)) (all_cells l nc)
             < N.to_nat (n_rows l) * N.to_nat nc)%nat); [| lia].
    apply Hlt; [by apply elem_of_all_cells |].
    apply negb_false_iff, is_visited_true.
    exact (inv_start _ _ _ _ _ _ _ Hinv0). }
  destruct (bfs_loop_spec (N.to_nat (n_rows l) * N.to_nat nc)
              (search_fuel l nc) (mkSearch [start] vis1 ∅) 0 Hinv0)
    as (out & Hrun & Hout); [unfold search_fuel; lia | lia |].
  destruct out as [f st | st |]; simpl in Hout.
  - destruct Hout as (Hf & k & F & vis & Hinv & Hd & Hk & Hmin).
    destruct (found_food_spec k F vis (main st) f Hinv Hd Hk)
      as (nm & Hnm & Hbest).
    { intros n Hp. by apply (Hmin f). }
    exists vis1, f, st, k, nm. split; [done |]. split; [done |].
    split; [done |]. split; [done |].
    split; [by eapply depth_path |]. split; [exact Hmin | exact Hbest].
  - by destruct (Hout f0 n0).
  - done.
Qed.

End Search.

(** *** The search inside the controller *)

Lemma search_random_body directions h l sn sn' :
  body sn = body sn' →
  search_random directions h l sn = search_random directions h l sn'.
Proof.
  intros Hb. induction directions as [| d directions IH]; [done |].
  cbn [search_random]. unfold is_valid_position. rewrite Hb, IH. done.
Qed.

Lemma troca_frame directions s s' :
  troca directions s = Ok s' →
  levels s' = levels s ∧ snake_obj s' = snake_obj s ∧
  current_level_index s' = current_level_index s ∧
  current_food s' = current_food s ∧ n_food s' = n_food s ∧
  head_pos s' = head_pos s.
Proof.
  unfold troca. intros H. bind_inv H. bind_inv H.
  destruct a0 as [d |].
  - inversion H; subst; simpl. auto 10.
  - unfold input_colision in H. simpl in H.
    inversion H; subst. repeat (case_match; simpl); auto 10.
Qed.

Lemma troca_defined directions s l r :
  current_level s = Ok l →
  search_random directions (head_pos s) l (snake_obj s) = Ok r →
  ∃ s', troca directions s = Ok s'.
Proof.
  intros Hl Hr. unfold troca. rewrite Hl. res_simpl. rewrite Hr. res_simpl.
  destruct r; [eauto |]. unfold input_colision. simpl. eauto.
Qed.

Lemma food_event_keeps_next_pos c s :
  ¬ completes_level s →
  ∃ s', input_colision true c s = Ok s' ∧ next_pos s' = next_pos s.
Proof.
  intros Hno. unfold input_colision. simpl.
  destruct (Z.eqb_spec (int_wrap (current_food s + 1)) (n_food s)) as [He | Hne].
  - unfold level_up. simpl.
    destruct (Z.ltb_spec (int_wrap (current_level_index s + 1))
                (int_wrap (Z.of_nat (length (levels s))))) as [Hlt | Hge].
    + destruct Hno. by split.
    + eexists. split; [reflexivity | done].
  - eexists. split; [reflexivity | done].
Qed.

Lemma reset_spec sn l sn' l' :
  reset sn l = Ok (sn', l') →
  body sn' = [get_spawn_loc l] ∧ get_spawn_loc l' = get_spawn_loc l ∧
  collision sn' = false ∧ wall_collision sn' = wall_collision sn.
Proof.
  unfold reset. intros H. bind_inv H. inversion H; subst.
  unfold set_tile_type in Ha. bind_inv Ha. inversion Ha; subst. done.
Qed.

Lemma current_level_store s l l0 :
  current_level s = Ok l0 →
  current_level (store_current_level l s) = Ok l.
Proof.
  unfold current_level, store_current_level. simpl.
  destruct (current_level_index s <? 0)%Z; [done |].
  intros Hl%of_option_Ok. apply lookup_lt_Some in Hl.
  by rewrite list_lookup_insert_eq.
Qed.

(** The level advance, when a further level exists: the entered level is
    the only one that may differ, the body is its spawn cell, and
    [respawn] leaves that cell in [next_pos]. *)
Lemma level_up_advances s s' :
  (int_wrap (current_level_index s + 1)
   < int_wrap (Z.of_nat (length (levels s))))%Z →
  level_up s = Ok s' →
  level_advanced s s' ∧
  (∃ l', current_level s' = Ok l' ∧ next_pos s' = get_spawn_loc l') ∧
  collision (snake_obj s') = false ∧
  wall_collision (snake_obj s') = wall_collision (snake_obj s).
Proof.
  unfold level_up. intros Hlt H.
  destruct (Z.ltb_spec (int_wrap (current_level_index s + 1))
              (int_wrap (Z.of_nat (length (levels s))))) as [_ | Hge]; [| lia].
  bind_inv_as H l1 Hl1.
  apply bind_Ok in H. destruct H as ([sn l'] & Hreset & H).
  bind_inv_as H s3 Hresp. inversion H; subst s'. clear H.
  apply reset_spec in Hreset as (_ & _ & _ & Hwc).
  unfold respawn in Hresp.
  bind_inv_as Hresp la Hla. bind_inv_as Hresp lb Hlb.
  apply bind_Ok in Hresp. destruct Hresp as ([sn2 l2] & Hreset2 & Hresp).
  inversion Hresp; subst s3. clear Hresp.
  apply reset_spec in Hreset2 as (Hbody & Hspawn & _ & Hwc2).
  assert (Hcur : current_level
                   (set_current_state START_SCREEN
                      (set_next_pos (get_spawn_loc l2)
                         (set_head_pos (get_spawn_loc l2)
                            (set_snake_obj (set_collision false sn2)
                               (store_current_level l2
                                  (print_maze_in_lv
                                     (reset_food
                                        (set_snake_obj sn
                                           (store_current_level l'
                                              (set_current_level_index
                                                 (int_wrap
                                                    (current_level_index s + 1))
                                                 s)))))))))) = Ok l2).
  { apply (current_level_store _ l2 la) in Hla. exact Hla. }
  split; [| split; [| split; [done | simpl in *; congruence]]].
  - split; [done |]. split; [done |]. split.
    + intros j Hj. simpl in Hj. simpl.
      rewrite !list_lookup_insert_ne by done. done.
    + exists l2. split; [exact Hcur |]. simpl. congruence.
  - exists l2. split; [exact Hcur | reflexivity].
Qed.

(** The food event that completes the level while a further level
    exists. *)
Lemma food_event_advances c s s' :
  completes_level s →
  input_colision true c s = Ok s' →
  level_advanced s s' ∧
  ∃ l', current_level s' = Ok l' ∧ next_pos s' = get_spawn_loc l'.
Proof.
  intros [He Hlt]. unfold input_colision. simpl. intros H.
  destruct (Z.eqb_spec (int_wrap (current_food s + 1)) (n_food s))
    as [_ | Hne]; [| done].
  apply level_up_advances in H as (Hadv & Hnp & _); [| exact Hlt].
  split; [| exact Hnp].
  destruct Hadv as (_ & Hidx & Hlv & Hbody).
  split; [exact Hlt |]. split; [exact Hidx |]. split; [exact Hlv | exact Hbody].
Qed.

(** C1 (amended).  In the thinking state, on a rectangular grid that fits
    the key arithmetic, with the head inside the grid, some food reachable
    from it, and the fallback probe of the head's neighbours defined, the
    search computes a best first move [nm] towards a nearest food tile [f]
    at distance [k]: the food cell itself when [k = 0], else a cell one
    move from the head from which a shortest path to [f] has length
    [k - 1].  The invocation returns with [nm] in [next_pos], with one
    exception: when [nm] is the food cell of the level and this one more
    food completes the level while a further level exists, the food signal
    runs [level_up]; the invocation, when it returns, has then entered the
    next level, and [next_pos] holds the spawn cell of that level. *)
Theorem breadthFirst_search_proposes_best_move
    (directions : list direction) (s : SnazeSimulation) (l : Level)
    (f0 : TilePos) (n0 : nat) :
  current_state s = SNAKE_THINKING →
  current_level s = Ok l →
  rectangular l →
  n_rows l * width l ≤ size_modulus →
  in_bounds l (head_pos s) →
  is_food l f0 → path l (head_pos s) f0 n0 →
  (∃ r, search_random directions (head_pos s) l (snake_obj s) = Ok r) →
  ∃ f k nm,
    is_food l f ∧ path l (head_pos s) f k ∧
    (∀ w n, is_food l w → path l (head_pos s) w n → (k ≤ n)%nat) ∧
    best_first_move l (head_pos s) f nm k ∧
    ((∃ s', breadthFirst_search directions s = Ok s' ∧ next_pos s' = nm) ∨
     (nm = get_food_loc l ∧ completes_level s ∧
      ∀ s', breadthFirst_search directions s = Ok s' →
            level_advanced s s' ∧
            ∃ l', current_level s' = Ok l' ∧
                  next_pos s' = get_spawn_loc l')).
Proof.
  intros Hst Hl Hrect Hfit Hstart Hfood Hpath [r Hr].
  assert (Hnc : n_cols l = Ok (width l)).
  { apply n_cols_width. eapply nonempty_of_row. exact (proj1 Hstart). }
  destruct (search_core l (head_pos s) (width l) Hrect Hnc Hfit Hstart
              f0 n0 Hfood Hpath)
    as (vis1 & f & st & k & nm & Hset & Hloop & Hff & Hf & Hp & Hmin & Hbest).
  exists f, k, nm.
  split; [exact Hf |]. split; [exact Hp |]. split; [exact Hmin |].
  split; [exact Hbest |].
  unfold breadthFirst_search. rewrite Hl. res_simpl. rewrite Hnc. res_simpl.
  rewrite (bool_decide_eq_false_2 (current_state s ≠ SNAKE_THINKING))
    by (intros Hne; by apply Hne).
  rewrite Hset. res_simpl. rewrite Hloop. res_simpl.
  set (s1 := set_snake_obj
               (set_collision false (set_found_foods false (snake_obj s))) s).
  set (s2 := set_snake_obj (set_found_foods true (snake_obj s1)) s1).
  assert (Hs3 : ∃ s3,
            match fila st with
            | [] => troca directions s2
            | _ :: _ => Ok s2
            end = Ok s3 ∧
            snake_obj s3 = snake_obj s2 ∧
            current_food s3 = current_food s ∧ n_food s3 = n_food s ∧
            current_level_index s3 = current_level_index s ∧
            levels s3 = levels s).
  { destruct (fila st).
    - destruct (troca_defined directions s2 l r) as [s3 Hs3]; [exact Hl | |].
      { rewrite <- Hr. by apply search_random_body. }
      exists s3. split; [done |].
      apply troca_frame in Hs3 as (? & ? & ? & ? & ? & ?).
      repeat split; assumption.
    - exists s2. repeat split; reflexivity. }
  destruct Hs3 as (s3 & Hs3 & Hsn & Hcf & Hnf & Hidx & Hlv).
  rewrite Hs3. res_simpl.
  replace (found_foods (snake_obj s3)) with true by (by rewrite Hsn).
  rewrite Hff. res_simpl.
  destruct (pos_eqb nm (get_food_loc l)) eqn:Hnm.
  - assert (Hsame : completes_level (set_next_pos nm s3) ↔ completes_level s).
    { unfold completes_level. simpl. by rewrite Hcf, Hnf, Hidx, Hlv. }
    assert (Hcompl : completes_level s ∨ ¬ completes_level s).
    { unfold completes_level.
      destruct (decide (int_wrap (current_food s + 1) = n_food s));
        destruct (decide (int_wrap (current_level_index s + 1)
                          < int_wrap (Z.of_nat (length (levels s))))%Z);
        tauto. }
    destruct Hcompl as [Hyes | Hno].
    + right. split; [by apply pos_eqb_eq |]. split; [exact Hyes |].
      intros s' Hs'.
      destruct (food_event_advances _ _ _ (proj2 Hsame Hyes) Hs')
        as [(Hlt & Hidx' & Hlv' & Hbody) Hnp].
      split; [| exact Hnp].
      unfold level_advanced. simpl in *.
      rewrite Hidx, Hlv in *. auto.
    + left.
      destruct (food_event_keeps_next_pos
                  (collision (snake_obj (set_next_pos nm s3)))
                  (set_next_pos nm s3)) as (s' & Hs' & Hnp).
      { intros Hc. apply Hno, Hsame, Hc. }
      exists s'. split; [exact Hs' | exact Hnp].
  - left. exists (set_next_pos nm s3). split; reflexivity.
Qed.

Lemma level_up_spec s s' :
  level_up s = Ok s' →
  (s' = set_current_state GAME_WON s) ∨
  (level_advanced s s' ∧ collision (snake_obj s') = false ∧
   wall_collision (snake_obj s') = wall_collision (snake_obj s)).
Proof.
  unfold level_up. intros H.
  destruct (Z.ltb_spec (int_wrap (current_level_index s + 1))
              (int_wrap (Z.of_nat (length (levels s))))) as [Hlt | Hge].
  2:{ left. by inversion H. }
  right.
  bind_inv_as H l1 Hl1.
  apply bind_Ok in H. destruct H as ([sn l'] & Hreset & H).
  bind_inv_as H s3 Hresp. inversion H; subst s'. clear H.
  apply reset_spec in Hreset as (_ & _ & _ & Hwc).
  unfold respawn in Hresp.
  bind_inv_as Hresp la Hla. bind_inv_as Hresp lb Hlb.
  apply bind_Ok in Hresp. destruct Hresp as ([sn2 l2] & Hreset2 & Hresp).
  inversion Hresp; subst s3. clear Hresp.
  apply reset_spec in Hreset2 as (Hbody & Hspawn & _ & Hwc2).
  split; [| split; [done | simpl in *; congruence]].
  split; [done |]. split; [done |]. split.
  - intros j Hj. simpl in Hj. simpl.
    rewrite !list_lookup_insert_ne by done. done.
  - exists l2. split.
    + apply (current_level_store _ l2 la) in Hla. exact Hla.
    + simpl. congruence.
Qed.

Lemma food_event_frame c s s' :
  input_colision true c s = Ok s' →
  (collision (snake_obj s) = false → collision (snake_obj s') = false) ∧
  wall_collision (snake_obj s') = wall_collision (snake_obj s) ∧
  (search_frame s s' ∨ (completes_level s ∧ level_advanced s s')).
Proof.
  unfold input_colision. simpl. intros H.
  destruct (Z.eqb_spec (int_wrap (current_food s + 1)) (n_food s)) as [He | Hne].
  - apply level_up_spec in H as [-> | (Hadv & Hc & Hwc)].
    + simpl. split; [done |]. split; [done |]. left. by split.
    + split; [done |]. split; [exact Hwc |]. right.
      split; [| exact Hadv]. split; [done |]. by destruct Hadv.
  - inversion H; subst. simpl. split; [done |]. split; [done |]. left.
    by split.
Qed.

Lemma breadthFirst_search_ignores_flags directions f c s :
  current_state s = SNAKE_THINKING →
  breadthFirst_search directions (with_flags f c s)
  = breadthFirst_search directions s.
Proof.
  intros Hst. destruct s. simpl in Hst. subst. reflexivity.
Qed.

(** C9 (amended).  Outside the thinking state an invocation returns the
    simulation as it got it.  In the thinking state its result does not
    depend on the two flags it was entered with (they are cleared first),
    it leaves the collision flag cleared, and either no level, no body
    segment and not the level index changed, or the invocation itself
    completed the level's food target while a further level existed: then
    only the entered level may differ and the body is that level's spawn
    cell. *)
Theorem breadthFirst_search_frame
    (directions : list direction) (s s' : SnazeSimulation) :
  breadthFirst_search directions s = Ok s' →
  (current_state s ≠ SNAKE_THINKING → s' = s) ∧
  (current_state s = SNAKE_THINKING →
   (∀ f c, breadthFirst_search directions (with_flags f c s) = Ok s') ∧
   collision (snake_obj s') = false ∧
   wall_collision (snake_obj s') = wall_collision (snake_obj s) ∧
   (search_frame s s' ∨ (completes_level s ∧ level_advanced s s'))).
Proof.
  intros H. split.
  - intros Hst. unfold breadthFirst_search in H.
    bind_inv_as H l Hl. bind_inv_as H nc Hnc.
    rewrite (bool_decide_eq_true_2 _ Hst) in H. by inversion H.
  - intros Hst. split.
    { intros f c. by rewrite breadthFirst_search_ignores_flags. }
    unfold breadthFirst_search in H.
    bind_inv_as H l Hl. bind_inv_as H nc Hnc.
    rewrite (bool_decide_eq_false_2 (current_state s ≠ SNAKE_THINKING))
      in H by (intros Hne; by apply Hne).
    bind_inv_as H vis1 Hset. bind_inv_as H out Hloop.
    set (s1 := set_snake_obj
                 (set_collision false (set_found_foods false (snake_obj s))) s)
      in *.
    destruct out as [food_pos st | st |].
    + bind_inv_as H s3 Hs3.
      assert (Hfr3 : collision (snake_obj s3) = false ∧
                     wall_collision (snake_obj s3)
                       = wall_collision (snake_obj s) ∧
                     search_frame s s3 ∧
                     (completes_level s3 → completes_level s) ∧
                     (∀ s'', level_advanced s3 s'' → level_advanced s s'')).
      { destruct (fila st).
        - apply troca_frame in Hs3 as (Hlv & Hsn & Hidx & Hcf & Hnf & _).
          unfold search_frame, completes_level, level_advanced.
          rewrite Hsn, Hlv, Hidx, Hcf, Hnf. simpl. auto 10.
        - inversion Hs3; subst s3. simpl.
          unfold search_frame, completes_level, level_advanced. simpl.
          auto 10. }
      destruct Hfr3 as (Hc & Hwc & (Hidx & Hlv & Hb) & Hcompl & Hadv).
      destruct (found_foods (snake_obj s3)).
      2:{ inversion H; subst s'. split; [done |]. split; [done |]. left.
          by split. }
      bind_inv_as H nm Hnm.
      destruct (pos_eqb nm (get_food_loc l)).
      * apply food_event_frame in H as (Hc' & Hwc' & Hcases).
        simpl in Hc', Hwc'. split; [by apply Hc' |].
        split; [congruence |].
        destruct Hcases as [(Hidx' & Hlv' & Hb') | (Hcl & Hadv')].
        -- left. simpl in *. split; [congruence |]. split; congruence.
        -- right. split.
           ++ apply Hcompl. exact Hcl.
           ++ apply Hadv. exact Hadv'.
      * inversion H; subst s'. simpl. split; [done |]. split; [done |].
        left. by split.
    + apply troca_frame in H as (Hlv & Hsn & Hidx & _).
      rewrite Hsn. simpl. split; [done |]. split; [done |]. left.
      split; [done |]. split; [done |]. by rewrite Hsn.
    + unfold input_colision in H. simpl in H. inversion H; subst s'.
      simpl. split; [done |]. split; [done |]. left. by split.
Qed.

Lemma breadthFirst_search_frame_witness :
  (current_state bend_sim ≠ SNAKE_THINKING → bend_thought_sim = bend_sim) ∧
  (current_state bend_sim = SNAKE_THINKING →
   (∀ f c, breadthFirst_search [up; right; down; left]
             (with_flags f c bend_sim) = Ok bend_thought_sim) ∧
   collision (snake_obj bend_thought_sim) = false ∧
   wall_collision (snake_obj bend_thought_sim)
     = wall_collision (snake_obj bend_sim) ∧
   (search_frame bend_sim bend_thought_sim
    ∨ (completes_level bend_sim ∧ level_advanced bend_sim bend_thought_sim))).
Proof.
  apply (breadthFirst_search_frame [up; right; down; left] bend_sim
           bend_thought_sim).
  vm_compute. reflexivity.
Defined.

(** C9 (as stated, refuted).  On [two_level_sim] the search finds the food
    next to the head, signals the food event, the event completes the level
    and [level_up] resets the snake: the body, [(1,1)] before the call, is
    [(2,2)] after it. *)
Lemma breadthFirst_search_resets_body_on_level_advance :
  ∃ s', breadthFirst_search [up; right; down; left] two_level_sim = Ok s' ∧
        body (snake_obj two_level_sim) = [mkTilePos 1 1] ∧
        body (snake_obj s') = [mkTilePos 2 2].
Proof.
  eexists. split; [vm_compute; reflexivity |].
  split; reflexivity.
Qed.

(** One move of a concrete path: neighbour [i] of the current cell. *)
Ltac walk i :=
  eapply (path_cons _ _ (offset _ i));
  [ exists i; split; [lia |]; split; [reflexivity |];
    split; [split; vm_compute; reflexivity | vm_compute; reflexivity]
  | ].

Lemma bend_path :
  path bend_level (mkTilePos 1 1) (mkTilePos 3 1) 6.
Proof.
  walk 1%nat. walk 1%nat. walk 2%nat. walk 2%nat. walk 3%nat. walk 3%nat.
  vm_compute. constructor.
Qed.

Lemma breadthFirst_search_proposes_best_move_witness :
  ∃ f k nm,
    is_food bend_level f ∧ path bend_level (head_pos bend_sim) f k ∧
    (∀ w n, is_food bend_level w → path bend_level (head_pos bend_sim) w n →
            (k ≤ n)%nat) ∧
    best_first_move bend_level (head_pos bend_sim) f nm k ∧
    ((∃ s', breadthFirst_search [up; right; down; left] bend_sim = Ok s' ∧
            next_pos s' = nm) ∨
     (nm = get_food_loc bend_level ∧ completes_level bend_sim ∧
      ∀ s', breadthFirst_search [up; right; down; left] bend_sim = Ok s' →
            level_advanced bend_sim s' ∧
            ∃ l', current_level s' = Ok l' ∧
                  next_pos s' = get_spawn_loc l')).
Proof.
  apply (breadthFirst_search_proposes_best_move [up; right; down; left]
           bend_sim bend_level (mkTilePos 3 1) 6).
  - reflexivity.
  - vm_compute. reflexivity.
  - unfold rectangular. simpl. repeat constructor.
  - vm_compute. discriminate.
  - split; vm_compute; reflexivity.
  - vm_compute. reflexivity.
  - exact bend_path.
  - eexists. vm_compute. reflexivity.
Defined.

(** C1 (as stated, refuted).  On [two_level_sim] the food lies one move to
    the right of the head, so the claim asks for the food cell (1,2) as the
    next move.  The invocation finds it, signals the food event, the event
    completes the level, and [respawn] overwrites [next_pos]: on return it
    holds (2,2), the spawn of the next level, which is not the food cell and
    is not one move from the head. *)
Lemma breadthFirst_search_returns_next_spawn :
  current_state two_level_sim = SNAKE_THINKING ∧
  current_level two_level_sim = Ok demo_level ∧
  is_food demo_level (mkTilePos 1 2) ∧
  path demo_level (head_pos two_level_sim) (mkTilePos 1 2) 1 ∧
  ∃ s', breadthFirst_search [up; right; down; left] two_level_sim = Ok s' ∧
        next_pos s' = mkTilePos 2 2 ∧
        next_pos s' ≠ mkTilePos 1 2 ∧
        ¬ step demo_level (head_pos two_level_sim) (next_pos s').
Proof.
  split; [reflexivity |]. split; [vm_compute; reflexivity |].
  split; [vm_compute; reflexivity |].
  split.
  { change (head_pos two_level_sim) with (mkTilePos 1 1).
    walk 1%nat. vm_compute. constructor. }
  eexists. split; [vm_compute; reflexivity |].
  split; [reflexivity |]. split; [discriminate |].
  intros (i & Hi & Hoff & _).
  destruct i as [| [| [| [| i]]]]; try lia; vm_compute in Hoff; discriminate.
Qed.

Lemma body_length_is_food_plus_one_witness :
  length (body (snake_obj after_meal_sim)) = (1 + 1)%nat.
Proof.
  apply (body_length_is_food_plus_one
           (mkSnake [] false false false)
           (mkSnake [mkTilePos 1 1] false false false)
           demo_level demo_level (demo_sim SNAKE_THINKING) after_meal_sim 1).
  - vm_compute. reflexivity.
  - reflexivity.
  - apply (commits_grow _ (demo_sim SNAKE_THINKING) eating_sim after_meal_sim
             0 0).
    + apply commits_none.
    + reflexivity.
    + split; [reflexivity |]. split.
      * exists demo_level. split; vm_compute; reflexivity.
      * vm_compute. reflexivity.
    + exists demo_level. split; vm_compute; reflexivity.
Defined.

(** * Further properties of the code *)

(** ** The grid: scanning and clearing *)

Lemma for_each_app {A S} (xs ys : list A) (body : A → S → res S) (s : S) :
  for_each (xs ++ ys) body s = for_each xs body s ≫= for_each ys body.
Proof.
  revert s. induction xs as [| x xs IH]; intros s; simpl; [done |].
  destruct (body x s) as [s1 | f]; simpl; [apply IH | done].
Qed.

Lemma for_each_bind {A B S} (xs : list A) (f : A → list B)
    (body : B → S → res S) (s : S) :
  for_each (xs ≫= f) body s
  = for_each xs (fun x s => for_each (f x) body s) s.
Proof.
  revert s. induction xs as [| x xs IH]; intros s; [done |].
  change ((x :: xs) ≫= f) with (f x ++ (xs ≫= f)).
  rewrite for_each_app. simpl.
  destruct (for_each (f x) body s) as [s1 | e]; simpl; [apply IH | done].
Qed.

Lemma for_each_ext {A S} (xs : list A) (body body' : A → S → res S) (s : S) :
  (∀ x s, x ∈ xs → body x s = body' x s) →
  for_each xs body s = for_each xs body' s.
Proof.
  revert s. induction xs as [| x xs IH]; intros s Hext; simpl; [done |].
  rewrite Hext by left.
  destruct (body' x s) as [s1 | e]; simpl; [| done].
  apply IH. intros y s' Hy. apply Hext. by right.
Qed.

Lemma for_each_singleton {A S} (x : A) (body : A → S → res S) (s : S) :
  for_each [x] body s = body x s.
Proof. simpl. by destruct (body x s). Qed.

(** A row-by-row scan is a scan of the cells in row-major order. *)
Lemma scan_all_cells {S} (l : Level) (nc : N) (body : TilePos → S → res S)
    (s : S) :
  n_cols l = Ok nc ∨ m_maze l = [] →
  for_each (size_range (n_rows l)) (fun i s =>
     nc' ← n_cols l;
     for_each (size_range nc') (fun j s => body (mkTilePos i j) s) s) s
  = for_each (all_cells l nc) body s.
Proof.
  intros Hnc. unfold all_cells. rewrite for_each_bind.
  apply for_each_ext. intros i s' Hi.
  destruct Hnc as [Hnc | Hnil].
  - rewrite Hnc. res_simpl. rewrite for_each_bind.
    apply for_each_ext. intros j s'' _. by rewrite for_each_singleton.
  - apply elem_of_size_range in Hi. unfold n_rows in Hi. rewrite Hnil in Hi.
    simpl in Hi. lia.
Qed.

Lemma without_snake_idemp t : without_snake (without_snake t) = without_snake t.
Proof. by destruct t. Qed.

Lemma clear_cells_spec keys : ∀ m,
  (∀ p, p ∈ keys → ∃ t, cell m p = Some t) →
  ∃ m', for_each keys clear_cell m = Ok m' ∧
        ∀ q, cell m' q
             = (fun t => if bool_decide (q ∈ keys) then without_snake t else t)
               <$> cell m q.
Proof.
  induction keys as [| p keys IH]; intros m Hin.
  - exists m. split; [done |]. intros q. rewrite bool_decide_eq_false_2.
    + by destruct (cell m q).
    + apply not_elem_of_nil.
  - destruct (Hin p) as [t Ht]; [by left |].
    assert (Hstep : ∃ m1, clear_cell p m = Ok m1 ∧
              ∀ q, cell m1 q
                   = (fun t => if bool_decide (q = p) then without_snake t else t)
                     <$> cell m q).
    { unfold clear_cell. rewrite at2_cell, Ht. simpl.
      destruct (bool_decide (t = SNAKE_HEAD) || bool_decide (t = SNAKE_BODY))
        eqn:Hsn.
      - destruct (set2_in_range m p EMPTY t) as [m1 Hm1];
          [by rewrite at2_cell, Ht |].
        exists m1. split; [done |]. intros q.
        rewrite (cell_set2 _ _ _ q _ Hm1).
        destruct (decide (q = p)) as [Heq | Hne].
        + rewrite bool_decide_eq_true_2 by done. rewrite Heq, Ht. simpl.
          unfold without_snake. by rewrite Hsn.
        + rewrite bool_decide_eq_false_2 by done. by destruct (cell m q).
      - exists m. split; [done |]. intros q.
        destruct (decide (q = p)) as [Heq | Hne].
        + rewrite bool_decide_eq_true_2 by done. rewrite Heq, Ht. simpl.
          unfold without_snake. by rewrite Hsn.
        + rewrite bool_decide_eq_false_2 by done. by destruct (cell m q). }
    destruct Hstep as (m1 & Hm1 & Hcell1).
    destruct (IH m1) as (m' & Hm' & Hcell').
    { intros p' Hp'. destruct (Hin p') as [t' Ht']; [by right |].
      rewrite Hcell1, Ht'. simpl. eauto. }
    exists m'. split; [simpl; by rewrite Hm1 |].
    intros q. rewrite Hcell', Hcell1.
    destruct (cell m q) as [t0 |]; [| done]. simpl. f_equal.
    destruct (decide (q = p)) as [Heq | Hne].
    + rewrite (bool_decide_eq_true_2 (q = p)) by done.
      rewrite (bool_decide_eq_true_2 (q ∈ p :: keys)) by (rewrite Heq; left).
      destruct (bool_decide (q ∈ keys)); [apply without_snake_idemp | done].
    + rewrite (bool_decide_eq_false_2 (q = p)) by done.
      destruct (decide (q ∈ keys)) as [Hk | Hk].
      * rewrite (bool_decide_eq_true_2 (q ∈ keys)) by done.
        rewrite (bool_decide_eq_true_2 (q ∈ p :: keys)); [done | by right].
      * rewrite (bool_decide_eq_false_2 (q ∈ keys)) by done.
        rewrite (bool_decide_eq_false_2 (q ∈ p :: keys)); [done |].
        by intros [? | ?]%elem_of_cons.
Qed.

Lemma all_cells_empty_maze l nc : m_maze l = [] → all_cells l nc = [].
Proof. intros Hnil. unfold all_cells, n_rows. by rewrite Hnil. Qed.

Lemma maze_cols l : n_cols l = Ok (width l) ∨ m_maze l = [].
Proof.
  destruct (m_maze l) eqn:Hm; [by right |]. left.
  apply n_cols_width. by rewrite Hm.
Qed.

Lemma cell_in_bounds l q t :
  rectangular l → cell (m_maze l) q = Some t → in_bounds l q.
Proof.
  intros Hrect Hc. apply (in_bounds_tile l q t Hrect).
  unfold get_tile_type. by rewrite at2_cell, Hc.
Qed.

Lemma in_bounds_cell l q :
  rectangular l → in_bounds l q → ∃ t, cell (m_maze l) q = Some t.
Proof.
  intros Hrect Hin. destruct (at2_in_bounds l q Hrect Hin) as [t Ht].
  unfold get_tile_type in Ht. rewrite at2_cell in Ht.
  destruct (cell (m_maze l) q) as [t' |]; [eauto | done].
Qed.

Lemma all_cells_in_bounds l q :
  q ∈ all_cells l (width l) ↔ in_bounds l q.
Proof.
  destruct (maze_cols l) as [Hnc | Hnil].
  - by apply elem_of_all_cells.
  - rewrite (all_cells_empty_maze l _ Hnil). split.
    + by intros ?%elem_of_nil.
    + intros [Hr _]. unfold n_rows in Hr. rewrite Hnil in Hr. simpl in Hr. lia.
Qed.

Lemma remove_snake_cells l :
  rectangular l →
  ∃ l', remove_snake l = Ok l' ∧
        m_spawn_loc l' = m_spawn_loc l ∧ m_food_loc l' = m_food_loc l ∧
        rectangular l' ∧
        ∀ q, cell (m_maze l') q = without_snake <$> cell (m_maze l) q.
Proof.
  intros Hrect. unfold remove_snake.
  change (for_each (size_range (n_rows l))
            (fun i m =>
               nc ← n_cols l;
               for_each (size_range nc)
                 (fun j m => clear_cell (mkTilePos i j) m) m)
            (m_maze l) ≫= fun m => Ok (mkLevel m (m_spawn_loc l) (m_food_loc l)))
    with (remove_snake l).
  unfold remove_snake.
  assert (Hscan := scan_all_cells l (width l) clear_cell (m_maze l)
                     (maze_cols l)).
  unfold clear_cell in Hscan at 1. rewrite Hscan. clear Hscan.
  destruct (clear_cells_spec (all_cells l (width l)) (m_maze l))
    as (m' & Hm' & Hcell).
  { intros p Hp. apply in_bounds_cell; [done |]. by apply all_cells_in_bounds. }
  rewrite Hm'. res_simpl. eexists. split; [reflexivity |]. simpl.
  split; [done |]. split; [done |]. split.
  - apply (rows_rectangular _ (length (hd [] (m_maze l)))). simpl.
    eapply (for_each_invariant
              (fun m => Forall (fun r => length r = length (hd [] (m_maze l))) m));
      [| exact Hrect | exact Hm'].
    intros p m1 m2 Hrows Hstep. unfold clear_cell in Hstep.
    apply bind_Ok in Hstep. destruct Hstep as (t & _ & Hstep).
    destruct (_ || _); [by eapply set2_row_lengths | by inversion Hstep; subst].
  - intros q. rewrite Hcell.
    destruct (cell (m_maze l) q) as [t |] eqn:Hq; [| done]. simpl.
    rewrite bool_decide_eq_true_2; [done |].
    apply all_cells_in_bounds. by eapply cell_in_bounds.
Qed.

Lemma get_tile_cell l q : get_tile_type l q = of_option (cell (m_maze l) q).
Proof. apply at2_cell. Qed.

(** X1.  [remove_snake] returns on every rectangular maze; it turns every
    [SNAKE_HEAD] and [SNAKE_BODY] tile into [EMPTY], keeps every other tile,
    the dimensions, and the spawn and food locations; so no snake tile is
    left. *)
Theorem remove_snake_clears_every_snake_tile (l : Level) :
  rectangular l →
  ∃ l', remove_snake l = Ok l' ∧
        rectangular l' ∧
        m_spawn_loc l' = m_spawn_loc l ∧ m_food_loc l' = m_food_loc l ∧
        (∀ q t, get_tile_type l q = Ok t →
                get_tile_type l' q = Ok (without_snake t)) ∧
        (∀ q, in_bounds l' q ↔ in_bounds l q) ∧
        (∀ q t, get_tile_type l' q = Ok t →
                t ≠ SNAKE_HEAD ∧ t ≠ SNAKE_BODY).
Proof.
  intros Hrect.
  destruct (remove_snake_cells l Hrect)
    as (l' & Hrun & Hsp & Hfd & Hrect' & Hcell).
  exists l'. split; [done |]. split; [done |]. split; [done |].
  split; [done |].
  assert (Htile : ∀ q t, get_tile_type l' q = Ok t →
            ∃ t0, get_tile_type l q = Ok t0 ∧ t = without_snake t0).
  { intros q t. rewrite !get_tile_cell, Hcell.
    destruct (cell (m_maze l) q) as [t0 |]; simpl; [| done].
    intros [= <-]. eauto. }
  split; [| split].
  - intros q t. rewrite !get_tile_cell, Hcell.
    destruct (cell (m_maze l) q) as [t0 |]; simpl; [| done].
    by intros [= <-].
  - intros q. split.
    + intros Hin. destruct (at2_in_bounds l' q Hrect' Hin) as [t Ht].
      destruct (Htile q t Ht) as (t0 & Ht0 & _).
      by eapply in_bounds_tile.
    + intros Hin. destruct (at2_in_bounds l q Hrect Hin) as [t Ht].
      apply (in_bounds_tile l' q (without_snake t) Hrect').
      revert Ht. rewrite !get_tile_cell, Hcell.
      destruct (cell (m_maze l) q) as [t0 |]; simpl; [| done].
      by intros [= <-].
  - intros q t Ht. destruct (Htile q t Ht) as (t0 & _ & ->).
    by destruct t0.
Qed.

Lemma bend_level_rectangular : rectangular bend_level.
Proof. unfold rectangular. simpl. repeat constructor. Qed.

Lemma remove_snake_clears_every_snake_tile_witness :
  ∃ l', remove_snake bend_level = Ok l' ∧
        rectangular l' ∧
        m_spawn_loc l' = m_spawn_loc bend_level ∧
        m_food_loc l' = m_food_loc bend_level ∧
        (∀ q t, get_tile_type bend_level q = Ok t →
                get_tile_type l' q = Ok (without_snake t)) ∧
        (∀ q, in_bounds l' q ↔ in_bounds bend_level q) ∧
        (∀ q t, get_tile_type l' q = Ok t →
                t ≠ SNAKE_HEAD ∧ t ≠ SNAKE_BODY).
Proof.
  apply (remove_snake_clears_every_snake_tile bend_level).
  exact bend_level_rectangular.
Defined.

Lemma bind_sublist {A B} (xs : list A) (f g : A → list B) :
  (∀ x, f x `sublist_of` g x) → (xs ≫= f) `sublist_of` (xs ≫= g).
Proof.
  intros Hfg. induction xs as [| x xs IH]; [constructor |].
  change ((x :: xs) ≫= f) with (f x ++ (xs ≫= f)).
  change ((x :: xs) ≫= g) with (g x ++ (xs ≫= g)).
  by apply sublist_app.
Qed.

Lemma NoDup_size_range n : NoDup (size_range n).
Proof.
  unfold size_range. apply NoDup_fmap_2; [| apply NoDup_seq].
  intros a b Hab. lia.
Qed.

Lemma NoDup_all_cells l nc : NoDup (all_cells l nc).
Proof.
  unfold all_cells. apply NoDup_bind; [| | apply NoDup_size_range].
  - intros i1 i2 p _ _ (j1 & Hp1 & _)%list_elem_of_bind
      (j2 & Hp2 & _)%list_elem_of_bind.
    apply list_elem_of_singleton in Hp1, Hp2. subst p. by inversion Hp2.
  - intros i _. apply NoDup_bind; [| | apply NoDup_size_range].
    + intros j1 j2 p _ _ Hp1%list_elem_of_singleton Hp2%list_elem_of_singleton.
      subst p. by inversion Hp2.
    + intros j _. apply NoDup_singleton.
Qed.

(** X2.  On a rectangular maze [empty_spaces] returns exactly the cells
    holding [EMPTY], each once, in the order of the row-major enumeration of
    the grid (it is a subsequence of that enumeration). *)
Theorem empty_spaces_lists_empty_cells_row_major (l : Level) :
  rectangular l →
  ∃ es, empty_spaces l = Ok es ∧
        es `sublist_of` all_cells l (width l) ∧
        NoDup es ∧
        ∀ p, p ∈ es ↔ get_tile_type l p = Ok EMPTY.
Proof.
  intros Hrect. eexists. split; [by apply empty_spaces_scan |].
  assert (Hsub : (size_range (n_rows l) ≫= fun i =>
                  size_range (width l) ≫= fun j => empty_at l i j)
                 `sublist_of` all_cells l (width l)).
  { unfold all_cells. apply bind_sublist. intros i.
    apply bind_sublist. intros j. unfold empty_at.
    destruct (get_tile_type l (mkTilePos i j)) as [[] |];
      try apply sublist_nil_l. done. }
  split; [exact Hsub |]. split.
  - eapply sublist_NoDup; [apply NoDup_all_cells | exact Hsub].
  - intros p. destruct (empty_spaces_spec l p Hrect) as (es' & Hes' & Hp).
    rewrite (empty_spaces_scan l Hrect) in Hes'. inversion Hes'; subst es'.
    exact Hp.
Qed.

Lemma empty_spaces_lists_empty_cells_row_major_witness :
  ∃ es, empty_spaces bend_level = Ok es ∧
        es `sublist_of` all_cells bend_level (width bend_level) ∧
        NoDup es ∧
        ∀ p, p ∈ es ↔ get_tile_type bend_level p = Ok EMPTY.
Proof.
  apply (empty_spaces_lists_empty_cells_row_major bend_level).
  exact bend_level_rectangular.
Defined.

(** ** The constructor of a level *)

Lemma for_each_total {A S} (P : S → Prop) (xs : list A)
    (body : A → S → res S) :
  (∀ x s, x ∈ xs → P s → ∃ s', body x s = Ok s' ∧ P s') →
  ∀ s, P s → ∃ s', for_each xs body s = Ok s' ∧ P s'.
Proof.
  induction xs as [| x xs IH]; intros Hbody s HP; simpl; [eauto |].
  destruct (Hbody x s) as (s1 & Hs1 & HP1); [by left | done |].
  rewrite Hs1. res_simpl. apply IH; [| done].
  intros y s' Hy. apply Hbody. by right.
Qed.

Lemma place_food_cases rnd l l' :
  rectangular l → place_food rnd l = Ok l' →
  (l' = l ∧ ∀ p, get_tile_type l p ≠ Ok EMPTY) ∨
  (∃ p m', get_tile_type l p = Ok EMPTY ∧
           set2 (m_maze l) p FOOD = Ok m' ∧
           l' = mkLevel m' (m_spawn_loc l) p).
Proof.
  intros Hrect H. unfold place_food in H.
  destruct (empty_spaces_spec l (mkTilePos 0 0) Hrect) as (es & Hes & _).
  assert (Hmem : ∀ p, p ∈ es ↔ get_tile_type l p = Ok EMPTY).
  { intros p. destruct (empty_spaces_spec l p Hrect) as (es' & Hes' & Hp).
    rewrite Hes in Hes'. inversion Hes'; subst es'. exact Hp. }
  rewrite Hes in H. cbn [mbind res_bind] in H.
  destruct es as [| e es].
  - left. inversion H; subst l'. split; [done |].
    intros p Hp%Hmem. by apply elem_of_nil in Hp.
  - right. apply bind_Ok in H. destruct H as (food & Hfood & H).
    apply of_option_Ok in Hfood.
    unfold set_tile_type in H. simpl in H.
    apply bind_Ok in H. destruct H as (m' & Hm' & H). inversion H; subst l'.
    exists food, m'. split; [| done].
    apply Hmem. apply list_elem_of_lookup. eauto.
Qed.

Lemma place_food_total rnd l :
  rectangular l → ∃ l', place_food rnd l = Ok l'.
Proof.
  intros Hrect. unfold place_food.
  destruct (empty_spaces_spec l (mkTilePos 0 0) Hrect) as (es & Hes & _).
  assert (Hmem : ∀ p, p ∈ es ↔ get_tile_type l p = Ok EMPTY).
  { intros p. destruct (empty_spaces_spec l p Hrect) as (es' & Hes' & Hp).
    rewrite Hes in Hes'. inversion Hes'; subst es'. exact Hp. }
  rewrite Hes. res_simpl. destruct es as [| e es]; [eauto |].
  set (v := e :: es) in *.
  destruct (lookup_lt_is_Some_2 v (rnd mod length v)%nat) as [food Hfood].
  { apply Nat.mod_upper_bound. done. }
  rewrite Hfood. res_simpl.
  assert (Hempty : get_tile_type l food = Ok EMPTY).
  { apply Hmem. apply list_elem_of_lookup. eauto. }
  destruct (set2_in_range (m_maze l) food FOOD EMPTY Hempty) as [m' Hset].
  unfold set_tile_type. simpl. rewrite Hset. res_simpl. eauto.
Qed.

Lemma fill_cell_inv input_maze ch p st st' :
  input_char input_maze p = Ok ch →
  fill_inv input_maze st → fill_cell ch p st = Ok st' →
  fill_inv input_maze st'.
Proof.
  intros Hch (Hlen & Hrows & Htiles & Hspawn) H.
  destruct st as [m spawn]. simpl in *. unfold fill_cell in H.
  assert (Hset : ∀ t m', set2 m p t = Ok m' → t ≠ FOOD → t ≠ SNAKE_BODY →
            length m' = length input_maze ∧
            Forall (fun r => length r = length (hd [] input_maze)) m' ∧
            (∀ q t', cell m' q = Some t' → t' ≠ FOOD ∧ t' ≠ SNAKE_BODY)).
  { intros t m' Hm' Hf Hb. split; [| split].
    - destruct (set2_dims _ _ _ _ Hm') as [-> _]. done.
    - by eapply set2_row_lengths.
    - intros q t'. rewrite (cell_set2 _ _ _ q _ Hm').
      destruct (decide (q = p)); [by intros [= <-] | apply Htiles]. }
  assert (Hkeep : ∀ t m', ch ≠ "&"%char → set2 m p t = Ok m' →
            spawn = mkTilePos 0 0 ∨
            (input_char input_maze spawn = Ok "&"%char ∧
             cell m' spawn = Some SNAKE_HEAD)).
  { intros t m' Hne Hm'. destruct Hspawn as [? | [Hc Hs]]; [by left |].
    right. split; [done |]. rewrite (cell_set2 _ _ _ spawn _ Hm').
    destruct (decide (spawn = p)) as [-> | ?]; [| done].
    rewrite Hch in Hc. inversion Hc. done. }
  repeat case_decide; subst;
    try (apply bind_Ok in H; destruct H as (m' & Hm' & H); inversion H; subst;
         simpl;
         destruct (Hset _ _ Hm') as (? & ? & ?); [done | done |]).
  - split; [done |]. split; [done |]. split; [done |]. by eapply Hkeep.
  - split; [done |]. split; [done |]. split; [done |]. by eapply Hkeep.
  - split; [done |]. split; [done |]. split; [done |]. by eapply Hkeep.
  - split; [done |]. split; [done |]. split; [done |]. right.
    split; [done |]. simpl. rewrite (cell_set2 _ _ _ p _ Hm').
    by rewrite decide_True.
  - inversion H; subst. done.
Qed.

Lemma fill_loops_inv input_maze st :
  let sized := (fun _ => replicate (length (hd [] input_maze)) EMPTY)
                 <$> input_maze in
  let l0 := mkLevel sized (mkTilePos 0 0) (mkTilePos 0 0) in
  for_each (size_range (n_rows l0)) (fun i st =>
     nc ← n_cols l0;
     for_each (size_range nc) (fun j st =>
       line ← nth_cell input_maze i;
       ch ← char_at line j;
       fill_cell ch (mkTilePos i j) st) st)
    (sized, mkTilePos 0 0) = Ok st →
  fill_inv input_maze st.
Proof.
  intros sized l0 H.
  eapply (for_each_invariant (fill_inv input_maze)); [| | exact H].
  - intros i st1 st2 Hst Hrow.
    apply bind_Ok in Hrow. destruct Hrow as (nc & _ & Hrow).
    eapply (for_each_invariant (fill_inv input_maze)); [| exact Hst | exact Hrow].
    intros j st3 st4 Hst3 Hcell.
    apply bind_Ok in Hcell. destruct Hcell as (line & Hline & Hcell).
    apply bind_Ok in Hcell. destruct Hcell as (ch & Hch & Hcell).
    eapply (fill_cell_inv input_maze ch (mkTilePos i j)); [| done | done].
    unfold input_char. simpl. rewrite Hline. res_simpl. done.
  - split; [| split; [| split]]; simpl.
    + unfold sized. apply length_fmap.
    + unfold sized. apply Forall_fmap, Forall_forall. intros line _. simpl.
      apply length_replicate.
    + intros q t Hq. unfold cell, sized in Hq.
      rewrite list_lookup_fmap in Hq.
      destruct (input_maze !! N.to_nat (row q)); simpl in Hq; [| done].
      apply lookup_replicate in Hq as [-> _]. done.
    + by left.
Qed.

(** X3.  A level that leaves the constructor is rectangular, has one row
    per input line and the width of the first line; every [FOOD] tile it
    holds is the one at [m_food_loc]; it holds no [SNAKE_BODY] tile; and its
    spawn location holds [SNAKE_HEAD], or is still the default (0,0). *)
Theorem Level_ctor_builds_a_consistent_level
    (rnd : nat) (input_maze : list (list ascii)) (l : Level) :
  Level_ctor rnd input_maze = Ok l →
  rectangular l ∧
  n_rows l = N.of_nat (length input_maze) ∧
  width l = N.of_nat (length (hd [] input_maze)) ∧
  food_at_food_loc l ∧
  (∀ p, get_tile_type l p ≠ Ok SNAKE_BODY) ∧
  (m_spawn_loc l = mkTilePos 0 0 ∨
   get_tile_type l (m_spawn_loc l) = Ok SNAKE_HEAD).
Proof.
  unfold Level_ctor. intros H.
  apply bind_Ok in H. destruct H as ([m spawn] & Hfill & H).
  apply fill_loops_inv in Hfill. destruct Hfill as (Hlen & Hrows & Htiles & Hsp).
  simpl in *.
  set (lf := mkLevel m spawn (mkTilePos 0 0)) in *.
  assert (Hrect : rectangular lf) by (by eapply rows_rectangular).
  assert (Hwidth : ∀ m' : list (list tile_type_e),
            length m' = length input_maze →
            Forall (fun r => length r = length (hd [] input_maze)) m' →
            length (hd [] m') = length (hd [] input_maze)).
  { intros m' Hl HF. destruct m' as [| r m']; simpl.
    - destruct input_maze; [done | simpl in Hl; lia].
    - by inversion HF. }
  destruct (place_food_cases rnd lf l Hrect H)
    as [[-> Hnone] | (p & m' & Hp & Hm' & ->)].
  - split; [done |]. split; [unfold n_rows; simpl; by rewrite Hlen |].
    split; [unfold width; simpl; by rewrite Hwidth |].
    split; [| split].
    + intros q Hq. rewrite get_tile_cell in Hq. simpl in Hq.
      destruct (cell m q) as [t |] eqn:Hc; [| done]. inversion Hq; subst.
      by destruct (Htiles q FOOD Hc).
    + intros q Hq. rewrite get_tile_cell in Hq. simpl in Hq.
      destruct (cell m q) as [t |] eqn:Hc; [| done]. inversion Hq; subst.
      by destruct (Htiles q SNAKE_BODY Hc).
    + destruct Hsp as [? | [_ Hc]]; [by left |]. right.
      rewrite get_tile_cell. simpl. by rewrite Hc.
  - assert (Hrows' : Forall (fun r => length r = length (hd [] input_maze)) m')
      by (by eapply set2_row_lengths).
    assert (Hlen' : length m' = length input_maze).
    { destruct (set2_dims _ _ _ _ Hm') as [-> _]. done. }
    split; [by eapply rows_rectangular |].
    split; [unfold n_rows; simpl; by rewrite Hlen' |].
    split; [unfold width; simpl; by rewrite Hwidth |].
    assert (Hcell' : ∀ q, cell m' q = if decide (q = p) then Some FOOD
                                      else cell m q)
      by (intros q; by apply (cell_set2 m m' p q FOOD)).
    split; [| split].
    + intros q Hq. rewrite get_tile_cell in Hq. simpl in Hq |- *.
      rewrite Hcell' in Hq. destruct (decide (q = p)); [done |].
      destruct (cell m q) as [t |] eqn:Hc; [| done]. inversion Hq; subst.
      by destruct (Htiles q FOOD Hc).
    + intros q Hq. rewrite get_tile_cell in Hq. simpl in Hq.
      rewrite Hcell' in Hq. destruct (decide (q = p)); [done |].
      destruct (cell m q) as [t |] eqn:Hc; [| done]. inversion Hq; subst.
      by destruct (Htiles q SNAKE_BODY Hc).
    + simpl. destruct Hsp as [? | [_ Hc]]; [by left |]. right.
      rewrite get_tile_cell. simpl. rewrite Hcell'.
      destruct (decide (spawn = p)) as [-> | ?]; [| by rewrite Hc].
      rewrite get_tile_cell in Hp. simpl in Hp. rewrite Hc in Hp. done.
Qed.

Lemma Level_ctor_builds_a_consistent_level_witness :
  rectangular room_level ∧
  n_rows room_level = N.of_nat (length room_input) ∧
  width room_level = N.of_nat (length (hd [] room_input)) ∧
  food_at_food_loc room_level ∧
  (∀ p, get_tile_type room_level p ≠ Ok SNAKE_BODY) ∧
  (m_spawn_loc room_level = mkTilePos 0 0 ∨
   get_tile_type room_level (m_spawn_loc room_level) = Ok SNAKE_HEAD).
Proof.
  apply (Level_ctor_builds_a_consistent_level 0 room_input room_level).
  vm_compute. reflexivity.
Defined.

Lemma for_each_ran {A S} (xs : list A) (body : A → S → res S) :
  ∀ s s', for_each xs body s = Ok s' →
  ∀ x, x ∈ xs → ∃ s1 s2, body x s1 = Ok s2.
Proof.
  induction xs as [| y xs IH]; intros s s' H x Hx; [by apply elem_of_nil in Hx |].
  simpl in H. apply bind_Ok in H. destruct H as (s1 & Hy & H).
  apply elem_of_cons in Hx as [-> | Hx]; [eauto |]. by eapply IH.
Qed.

Lemma char_at_Ok line j :
  (∃ ch, char_at line j = Ok ch) ↔ j ≤ N.of_nat (length line).
Proof.
  unfold char_at. destruct (N.eqb_spec j (N.of_nat (length line))) as [-> | Hne].
  - split; [lia | eauto].
  - rewrite nth_cell_lookup. split.
    + intros [ch Hch%of_option_Ok]. apply lookup_lt_Some in Hch. lia.
    + intros Hle.
      destruct (lookup_lt_is_Some_2 line (N.to_nat j)) as [ch Hch]; [lia |].
      exists ch. by apply of_option_Ok.
Qed.

Lemma fill_cell_total input_maze ch p st :
  fill_inv input_maze st →
  (N.to_nat (row p) < length input_maze)%nat →
  (N.to_nat (col p) < length (hd [] input_maze))%nat →
  ∃ st', fill_cell ch p st = Ok st'.
Proof.
  intros (Hlen & Hrows & _) Hr Hc. destruct st as [m spawn]. simpl in *.
  assert (Hset : ∀ t, ∃ m', set2 m p t = Ok m').
  { intros t.
    destruct (lookup_lt_is_Some_2 m (N.to_nat (row p))) as [r Hrow]; [lia |].
    assert (length r = length (hd [] input_maze)).
    { rewrite Forall_forall in Hrows. apply Hrows.
      apply list_elem_of_lookup. eauto. }
    eexists. apply set2_Ok. exists r. split; [done |]. split; [lia | done]. }
  unfold fill_cell.
  repeat case_decide; try (by eauto);
    match goal with |- context [set2 m p ?t] =>
      destruct (Hset t) as [m' ->]; res_simpl; eauto end.
Qed.

(** X4.  The constructor returns exactly on the inputs in which no line is
    more than one character shorter than the first: the cell just past the
    end of a line reads the terminating null (and keeps [EMPTY]), a cell
    further out is read out of range. *)
Theorem Level_ctor_returns_iff_lines_long_enough
    (rnd : nat) (input_maze : list (list ascii)) :
  (∃ l, Level_ctor rnd input_maze = Ok l) ↔ lines_long_enough input_maze.
Proof.
  set (c := length (hd [] input_maze)).
  set (sized := (fun _ : list ascii => replicate c EMPTY) <$> input_maze).
  set (l0 := mkLevel sized (mkTilePos 0 0) (mkTilePos 0 0)).
  assert (Hrows0 : n_rows l0 = N.of_nat (length input_maze)).
  { unfold n_rows, l0, sized. simpl. by rewrite length_fmap. }
  assert (Hcols0 : input_maze ≠ [] → n_cols l0 = Ok (N.of_nat c)).
  { unfold n_cols, l0, sized. simpl. destruct input_maze; [done |]. simpl.
    intros _. by rewrite length_replicate. }
  assert (Hinit : fill_inv input_maze (sized, mkTilePos 0 0)).
  { split; [| split; [| split]]; simpl.
    - unfold sized. apply length_fmap.
    - unfold sized. apply Forall_fmap, Forall_forall. intros line _. simpl.
      apply length_replicate.
    - intros q t Hq. unfold cell, sized in Hq.
      rewrite list_lookup_fmap in Hq.
      destruct (input_maze !! N.to_nat (row q)); simpl in Hq; [| done].
      apply lookup_replicate in Hq as [-> _]. done.
    - by left. }
  split.
  - intros [l H]. unfold Level_ctor in H. fold c sized l0 in H.
    apply bind_Ok in H. destruct H as (st & Hfill & _).
    apply Forall_forall. intros line Hline. fold c.
    destruct (decide (c = 0%nat)) as [-> | Hc]; [lia |].
    apply list_elem_of_lookup in Hline as [i Hi].
    assert (Hin : N.of_nat i ∈ size_range (n_rows l0)).
    { apply elem_of_size_range. rewrite Hrows0.
      apply lookup_lt_Some in Hi. lia. }
    destruct (for_each_ran _ _ _ _ Hfill _ Hin) as (s1 & s2 & Hrow).
    apply bind_Ok in Hrow. destruct Hrow as (nc & Hnc & Hrow).
    rewrite Hcols0 in Hnc by (by intros ->). inversion Hnc; subst nc.
    assert (Hj : N.of_nat (c - 1) ∈ size_range (N.of_nat c)).
    { apply elem_of_size_range. lia. }
    destruct (for_each_ran _ _ _ _ Hrow _ Hj) as (s3 & s4 & Hcell).
    apply bind_Ok in Hcell. destruct Hcell as (line' & Hline' & Hcell).
    apply nth_cell_Ok in Hline'. rewrite Nat2N.id in Hline'.
    rewrite Hi in Hline'. inversion Hline'; subst line'.
    apply bind_Ok in Hcell. destruct Hcell as (ch & Hch & _).
    assert (Hle : N.of_nat (c - 1) ≤ N.of_nat (length line))
      by (apply char_at_Ok; eauto).
    lia.
  - intros Hlong. unfold Level_ctor. fold c sized l0.
    destruct (for_each_total (fill_inv input_maze)
                (size_range (n_rows l0))
                (fun i st =>
                   nc ← n_cols l0;
                   for_each (size_range nc) (fun j st =>
                     line ← nth_cell input_maze i;
                     ch ← char_at line j;
                     fill_cell ch (mkTilePos i j) st) st))
      with (s := (sized, mkTilePos 0 0)) as (st & -> & Hst); [| done |].
    + intros i st Hi Hst. apply elem_of_size_range in Hi. rewrite Hrows0 in Hi.
      rewrite Hcols0 by (intros ->; simpl in Hi; lia). res_simpl.
      apply for_each_total; [| done].
      intros j st' Hj Hst'. apply elem_of_size_range in Hj.
      destruct (lookup_lt_is_Some_2 input_maze (N.to_nat i)) as [line Hline];
        [lia |].
      assert (Hnth : nth_cell input_maze i = Ok line) by (by apply nth_cell_Ok).
      rewrite Hnth. res_simpl.
      assert (Hlen : (c ≤ S (length line))%nat).
      { unfold lines_long_enough in Hlong. rewrite Forall_forall in Hlong.
        apply Hlong. apply list_elem_of_lookup. eauto. }
      destruct (proj2 (char_at_Ok line j)) as [ch Hch]; [lia |].
      rewrite Hch. res_simpl.
      destruct (fill_cell_total input_maze ch (mkTilePos i j) st' Hst')
        as [st'' Hst'']; [simpl; lia | simpl; fold c; lia |].
      exists st''. split; [done |].
      eapply (fill_cell_inv input_maze ch (mkTilePos i j)); [| done | done].
      unfold input_char. simpl. rewrite Hnth. res_simpl. done.
    + res_simpl. destruct st as [m spawn].
      destruct Hst as (_ & Hrows & _). simpl in Hrows.
      apply place_food_total. by eapply rows_rectangular.
Qed.

(** ** Reading and writing tiles *)

Lemma at2_fault {A} (g : list (list A)) (p : TilePos) f :
  at2 g p = Fail f → f = UndefinedBehaviour.
Proof.
  unfold at2, nth_cell. intros H.
  destruct (N.of_nat (length g) <=? row p); [by inversion H |].
  destruct (g !! N.to_nat (row p)) as [r |]; simpl in H; [| by inversion H].
  destruct (N.of_nat (length r) <=? col p); [by inversion H |].
  destruct (r !! N.to_nat (col p)); simpl in H; by inversion H.
Qed.

Lemma get_tile_outside l p :
  rectangular l → out_of_bounds l p →
  get_tile_type l p = Fail UndefinedBehaviour.
Proof.
  intros Hrect Hout.
  destruct (get_tile_type l p) as [t | f] eqn:Ht.
  - apply (in_bounds_tile l p t Hrect) in Ht. destruct Ht, Hout; lia.
  - by rewrite (at2_fault _ _ _ Ht).
Qed.

Lemma set2_fault {A} (g : list (list A)) (p : TilePos) (x : A) f :
  set2 g p x = Fail f → f = UndefinedBehaviour.
Proof.
  unfold set2, nth_cell. intros H.
  destruct (N.of_nat (length g) <=? row p); [by inversion H |].
  destruct (g !! N.to_nat (row p)) as [r |]; simpl in H; [| by inversion H].
  destruct (N.of_nat (length r) <=? col p); by inversion H.
Qed.

Lemma set2_defined_iff {A} (g : list (list A)) (p : TilePos) (x : A) :
  (∃ g', set2 g p x = Ok g') ↔ ∃ y, at2 g p = Ok y.
Proof.
  split.
  - intros [g' (r & Hr & Hc & _)%set2_Ok].
    destruct (lookup_lt_is_Some_2 r (N.to_nat (col p)) Hc) as [y Hy].
    exists y. apply at2_Ok. eauto.
  - intros [y Hy]. by eapply set2_in_range.
Qed.

Lemma set_tile_type_spec t p l l' :
  rectangular l → set_tile_type t p l = Ok l' →
  rectangular l' ∧ in_bounds l p ∧
  m_spawn_loc l' = m_spawn_loc l ∧ m_food_loc l' = m_food_loc l ∧
  n_rows l' = n_rows l ∧ width l' = width l ∧
  (∀ q, get_tile_type l' q
        = if decide (q = p) then Ok t else get_tile_type l q).
Proof.
  intros Hrect H. unfold set_tile_type in H.
  apply bind_Ok in H. destruct H as (m & Hm & H). inversion H; subst l'.
  assert (Hrows : Forall (fun r => length r = length (hd [] (m_maze l))) m)
    by (by eapply set2_row_lengths).
  destruct (set2_dims _ _ _ _ Hm) as [Hlen Hrow].
  assert (Hin : in_bounds l p).
  { destruct (proj1 (set2_defined_iff (m_maze l) p t)) as [y Hy]; [eauto |].
    by eapply in_bounds_tile. }
  assert (Hw : length (hd [] m) = length (hd [] (m_maze l))).
  { destruct m as [| r m]; simpl.
    - destruct (m_maze l); [done | simpl in Hlen; lia].
    - by inversion Hrows. }
  split; [by eapply rows_rectangular |]. split; [done |].
  split; [done |]. split; [done |].
  split; [unfold n_rows; simpl; by rewrite Hlen |].
  split; [unfold width; simpl; by rewrite Hw |].
  intros q. unfold get_tile_type. simpl. by apply at2_set2.
Qed.

Lemma set_tile_type_total t p l :
  rectangular l → in_bounds l p → ∃ l', set_tile_type t p l = Ok l'.
Proof.
  intros Hrect Hin. destruct (at2_in_bounds l p Hrect Hin) as [y Hy].
  destruct (set2_in_range (m_maze l) p t y Hy) as [m Hm].
  unfold set_tile_type. rewrite Hm. res_simpl. eauto.
Qed.

(** X5.  Writing a tile and reading it back: inside a rectangular maze
    [set_tile_type] returns, the tile written is the tile read, every other
    tile, the dimensions and the spawn and food locations are kept; outside
    the maze both the write and the read are out of range. *)
Theorem set_tile_type_then_get_tile_type
    (t : tile_type_e) (p : TilePos) (l : Level) :
  rectangular l →
  (in_bounds l p →
   ∃ l', set_tile_type t p l = Ok l' ∧ rectangular l' ∧
         get_tile_type l' p = Ok t ∧
         (∀ q, q ≠ p → get_tile_type l' q = get_tile_type l q) ∧
         n_rows l' = n_rows l ∧ n_cols l' = n_cols l ∧
         m_spawn_loc l' = m_spawn_loc l ∧ m_food_loc l' = m_food_loc l) ∧
  (out_of_bounds l p →
   set_tile_type t p l = Fail UndefinedBehaviour ∧
   get_tile_type l p = Fail UndefinedBehaviour).
Proof.
  intros Hrect. split.
  - intros Hin. destruct (set_tile_type_total t p l Hrect Hin) as [l' Hl'].
    destruct (set_tile_type_spec t p l l' Hrect Hl')
      as (Hrect' & _ & Hsp & Hfd & Hnr & Hw & Hget).
    exists l'. split; [done |]. split; [done |].
    split; [by rewrite Hget, decide_True |].
    split; [by intros q Hq; rewrite Hget, decide_False |].
    split; [done |]. split; [| done].
    assert (Hne : m_maze l ≠ []) by (eapply nonempty_of_row; apply Hin).
    assert (Hne' : m_maze l' ≠ []).
    { eapply (nonempty_of_row l' (row p)). rewrite Hnr. apply Hin. }
    by rewrite (n_cols_width l Hne), (n_cols_width l' Hne'), Hw.
  - intros Hout. split; [| by apply get_tile_outside].
    destruct (set_tile_type t p l) as [l' | f] eqn:Hset.
    + destruct (set_tile_type_spec t p l l' Hrect Hset) as (_ & [Hr Hc] & _).
      destruct Hout; lia.
    + unfold set_tile_type in Hset.
      destruct (set2 (m_maze l) p t) as [m | f'] eqn:Hm; [done |].
      simpl in Hset. inversion Hset; subst f'.
      by rewrite (set2_fault _ _ _ _ Hm).
Qed.

Lemma set_tile_type_then_get_tile_type_witness :
  (in_bounds demo_level (mkTilePos 1 2) →
   ∃ l', set_tile_type EMPTY (mkTilePos 1 2) demo_level = Ok l' ∧
         rectangular l' ∧
         get_tile_type l' (mkTilePos 1 2) = Ok EMPTY ∧
         (∀ q, q ≠ mkTilePos 1 2 →
               get_tile_type l' q = get_tile_type demo_level q) ∧
         n_rows l' = n_rows demo_level ∧ n_cols l' = n_cols demo_level ∧
         m_spawn_loc l' = m_spawn_loc demo_level ∧
         m_food_loc l' = m_food_loc demo_level) ∧
  (out_of_bounds demo_level (mkTilePos 1 2) →
   set_tile_type EMPTY (mkTilePos 1 2) demo_level = Fail UndefinedBehaviour ∧
   get_tile_type demo_level (mkTilePos 1 2) = Fail UndefinedBehaviour).
Proof.
  apply (set_tile_type_then_get_tile_type EMPTY (mkTilePos 1 2) demo_level).
  exact demo_level_rectangular.
Defined.

(** ** Moves *)

Lemma size_add_minus_one r :
  r < size_modulus →
  size_add r (size_of_int (-1))
  = if r =? 0 then size_modulus - 1 else r - 1.
Proof.
  intros Hr. unfold size_add.
  change (size_of_int (-1)) with (size_modulus - 1).
  destruct (N.eqb_spec r 0) as [-> | Hne]; [done |].
  replace (r + (size_modulus - 1)) with (r - 1 + 1 * size_modulus)
    by (unfold size_modulus in *; lia).
  rewrite N.Div0.mod_add. apply N.mod_small. lia.
Qed.

Lemma size_add_one r :
  r < size_modulus →
  size_add r (size_of_int 1)
  = if r =? size_modulus - 1 then 0 else r + 1.
Proof.
  intros Hr. unfold size_add. change (size_of_int 1) with 1.
  destruct (N.eqb_spec r (size_modulus - 1)) as [-> | Hne]; [done |].
  apply N.mod_small. unfold size_modulus in *. lia.
Qed.

Lemma size_add_zero r : r < size_modulus → size_add r (size_of_int 0) = r.
Proof.
  intros Hr. unfold size_add. change (size_of_int 0) with 0.
  rewrite N.add_0_r. by apply N.mod_small.
Qed.

Lemma move_cases p :
  size_pos p →
  move p up = mkTilePos (if row p =? 0 then size_modulus - 1 else row p - 1)
                        (col p) ∧
  move p right = mkTilePos (row p)
                   (if col p =? size_modulus - 1 then 0 else col p + 1) ∧
  move p down = mkTilePos (if row p =? size_modulus - 1 then 0 else row p + 1)
                          (col p) ∧
  move p left = mkTilePos (row p)
                  (if col p =? 0 then size_modulus - 1 else col p - 1).
Proof.
  intros [Hr Hc]. unfold move, offset, direction_index. cbn [nth drow dcol].
  rewrite !size_add_minus_one, !size_add_one, !size_add_zero by done. done.
Qed.

Ltac eqb_props :=
  repeat match goal with
         | H : (_ =? _) = true |- _ => apply N.eqb_eq in H
         | H : (_ =? _) = false |- _ => apply N.eqb_neq in H
         end.

Lemma size_add_lt a b : size_add a b < size_modulus.
Proof. unfold size_add. by apply N.mod_lt. Qed.

Lemma move_size_pos p d : size_pos p → size_pos (move p d).
Proof. intros _. split; apply size_add_lt. Qed.

Lemma size_add_back r :
  r < size_modulus →
  size_add (size_add r (size_of_int (-1))) (size_of_int 1) = r ∧
  size_add (size_add r (size_of_int 1)) (size_of_int (-1)) = r ∧
  size_add r (size_of_int (-1)) ≠ r ∧ size_add r (size_of_int 1) ≠ r.
Proof.
  intros Hr.
  assert (Hm : size_add r (size_of_int (-1)) < size_modulus)
    by apply size_add_lt.
  assert (Hp : size_add r (size_of_int 1) < size_modulus)
    by apply size_add_lt.
  rewrite (size_add_one _ Hm), (size_add_minus_one _ Hp).
  rewrite (size_add_minus_one r Hr), (size_add_one r Hr).
  repeat case_match; eqb_props; unfold size_modulus in *; lia.
Qed.

(** X6.  [move] on [size_t] coordinates: one step in the direction, with
    the wrap of unsigned arithmetic at the edges of the range (a step up
    from row 0 lands in row 2^64-1); the step always leaves the cell, and
    the opposite step brings it back. *)
Theorem move_wraps_and_is_undone (p : TilePos) (d : direction) :
  size_pos p →
  (move p up = mkTilePos (if row p =? 0 then size_modulus - 1 else row p - 1)
                         (col p) ∧
   move p right = mkTilePos (row p)
                    (if col p =? size_modulus - 1 then 0 else col p + 1) ∧
   move p down = mkTilePos (if row p =? size_modulus - 1 then 0 else row p + 1)
                           (col p) ∧
   move p left = mkTilePos (row p)
                   (if col p =? 0 then size_modulus - 1 else col p - 1)) ∧
  size_pos (move p d) ∧
  move p d ≠ p ∧
  move (move p d) (opposite d) = p.
Proof.
  intros Hp. split; [by apply move_cases |].
  split; [by apply move_size_pos |].
  destruct p as [r c]. destruct Hp as [Hrow Hcol]. simpl in Hrow, Hcol.
  destruct (size_add_back r Hrow) as (Hr1 & Hr2 & Hr3 & Hr4).
  destruct (size_add_back c Hcol) as (Hc1 & Hc2 & Hc3 & Hc4).
  assert (Hz : ∀ x, x < size_modulus → size_add x (size_of_int 0) = x)
    by apply size_add_zero.
  split.
  - destruct d; unfold move, offset; cbn [direction_index nth drow dcol row col];
      intros [=]; done.
  - destruct d; unfold move, offset;
      cbn [opposite direction_index nth drow dcol row col];
      rewrite ?Hr1, ?Hr2, ?Hc1, ?Hc2, ?Hz; try done; apply size_add_lt.
Qed.

Lemma move_wraps_and_is_undone_witness :
  (move (mkTilePos 0 3) up
   = mkTilePos (if row (mkTilePos 0 3) =? 0 then size_modulus - 1
                else row (mkTilePos 0 3) - 1) (col (mkTilePos 0 3)) ∧
   move (mkTilePos 0 3) right
   = mkTilePos (row (mkTilePos 0 3))
       (if col (mkTilePos 0 3) =? size_modulus - 1 then 0
        else col (mkTilePos 0 3) + 1) ∧
   move (mkTilePos 0 3) down
   = mkTilePos (if row (mkTilePos 0 3) =? size_modulus - 1 then 0
                else row (mkTilePos 0 3) + 1) (col (mkTilePos 0 3)) ∧
   move (mkTilePos 0 3) left
   = mkTilePos (row (mkTilePos 0 3))
       (if col (mkTilePos 0 3) =? 0 then size_modulus - 1
        else col (mkTilePos 0 3) - 1)) ∧
  size_pos (move (mkTilePos 0 3) up) ∧
  move (mkTilePos 0 3) up ≠ mkTilePos 0 3 ∧
  move (move (mkTilePos 0 3) up) (opposite up) = mkTilePos 0 3.
Proof.
  apply (move_wraps_and_is_undone (mkTilePos 0 3) up).
  split; reflexivity.
Defined.

(** ** The four-neighbour fallback *)

Lemma existsb_body pos (b : list TilePos) :
  existsb (fun segment => pos_eqb segment pos) b = bool_decide (pos ∈ b).
Proof.
  destruct (existsb _ b) eqn:Hex; symmetry.
  - apply bool_decide_eq_true_2. apply existsb_exists in Hex.
    destruct Hex as (x & Hx & ->%pos_eqb_eq). by apply list_elem_of_In.
  - apply bool_decide_eq_false_2. intros Hin.
    assert (existsb (fun segment => pos_eqb segment pos) b = true);
      [| congruence].
    apply existsb_exists. exists pos. split; [by apply list_elem_of_In |].
    by apply pos_eqb_eq.
Qed.

Lemma is_valid_position_inside pos l sn t :
  get_tile_type l pos = Ok t →
  is_valid_position pos l sn
  = Ok (bool_decide (t ≠ WALL) && bool_decide (pos ∉ body sn)).
Proof.
  intros Ht. unfold is_valid_position. rewrite Ht. res_simpl.
  rewrite existsb_body.
  destruct (decide (t = WALL)) as [-> | Hw].
  - by rewrite bool_decide_eq_true_2.
  - rewrite (bool_decide_eq_false_2 (t = WALL)) by done.
    rewrite (bool_decide_eq_true_2 (t ≠ WALL)) by done.
    destruct (decide (pos ∈ body sn)) as [Hin | Hin].
    + rewrite (bool_decide_eq_true_2 _ Hin).
      by rewrite bool_decide_eq_false_2 by (by intros ?).
    + rewrite (bool_decide_eq_false_2 _ Hin).
      by rewrite bool_decide_eq_true_2.
Qed.

Lemma is_valid_position_outside pos l sn :
  rectangular l → out_of_bounds l pos →
  is_valid_position pos l sn = Fail UndefinedBehaviour.
Proof.
  intros Hrect Hout. unfold is_valid_position.
  by rewrite (get_tile_outside l pos Hrect Hout).
Qed.

Lemma not_crashed_tile l pos :
  rectangular l → crashed l pos = Ok false →
  in_bounds l pos ∧
  (get_tile_type l pos = Ok EMPTY ∨ get_tile_type l pos = Ok FOOD).
Proof.
  intros Hrect Hc. destruct (in_or_out l pos) as [Hin | Hout].
  - split; [done |].
    destruct (crashed_inside l pos Hrect Hin) as (t & Ht & Hcr).
    rewrite Hcr in Hc. inversion Hc as [Hb]. rewrite Ht.
    destruct t; simpl in Hb; try done; auto.
  - by rewrite (crashed_outside l pos Hout) in Hc.
Qed.

(** X7.  [is_valid_position] inside a rectangular grid answers whether the
    tile is not a [WALL] and the cell is no segment of the body; outside
    the grid its read is out of range; and every cell that [crashed] lets
    through and the body does not cover is accepted. *)
Theorem is_valid_position_accepts_non_wall_off_body
    (pos : TilePos) (l : Level) (sn : Snake) :
  rectangular l →
  (in_bounds l pos →
   ∃ t, get_tile_type l pos = Ok t ∧
        is_valid_position pos l sn
        = Ok (bool_decide (t ≠ WALL) && bool_decide (pos ∉ body sn))) ∧
  (out_of_bounds l pos →
   is_valid_position pos l sn = Fail UndefinedBehaviour) ∧
  (crashed l pos = Ok false → pos ∉ body sn →
   is_valid_position pos l sn = Ok true).
Proof.
  intros Hrect. split; [| split].
  - intros Hin. destruct (at2_in_bounds l pos Hrect Hin) as [t Ht].
    exists t. split; [done |]. by apply is_valid_position_inside.
  - by apply is_valid_position_outside.
  - intros Hc Hbody. destruct (not_crashed_tile l pos Hrect Hc) as [_ [Ht | Ht]];
      rewrite (is_valid_position_inside pos l sn _ Ht);
      by rewrite (bool_decide_eq_true_2 _ Hbody).
Qed.

Lemma is_valid_position_accepts_non_wall_off_body_witness :
  (in_bounds hidden_wall_level (mkTilePos 0 1) →
   ∃ t, get_tile_type hidden_wall_level (mkTilePos 0 1) = Ok t ∧
        is_valid_position (mkTilePos 0 1) hidden_wall_level
          (snake_obj hidden_wall_sim)
        = Ok (bool_decide (t ≠ WALL)
              && bool_decide (mkTilePos 0 1 ∉ body (snake_obj hidden_wall_sim)))) ∧
  (out_of_bounds hidden_wall_level (mkTilePos 0 1) →
   is_valid_position (mkTilePos 0 1) hidden_wall_level
     (snake_obj hidden_wall_sim) = Fail UndefinedBehaviour) ∧
  (crashed hidden_wall_level (mkTilePos 0 1) = Ok false →
   mkTilePos 0 1 ∉ body (snake_obj hidden_wall_sim) →
   is_valid_position (mkTilePos 0 1) hidden_wall_level
     (snake_obj hidden_wall_sim) = Ok true).
Proof.
  apply (is_valid_position_accepts_non_wall_off_body
           (mkTilePos 0 1) hidden_wall_level (snake_obj hidden_wall_sim)).
  unfold rectangular. simpl. repeat constructor.
Defined.

Lemma search_random_first directions h l sn r :
  search_random directions h l sn = Ok r →
  match r with
  | Some d =>
      ∃ pre post, directions = pre ++ d :: post ∧
        is_valid_position (move h d) l sn = Ok true ∧
        ∀ d', d' ∈ pre → is_valid_position (move h d') l sn = Ok false
  | None =>
      ∀ d, d ∈ directions → is_valid_position (move h d) l sn = Ok false
  end.
Proof.
  revert r. induction directions as [| d0 directions IH]; intros r H.
  - inversion H; subst r. by intros d ?%elem_of_nil.
  - cbn [search_random] in H. apply bind_Ok in H.
    destruct H as (ok & Hok & H). destruct ok.
    + inversion H; subst r. exists [], directions.
      split; [done |]. split; [done |]. by intros d' ?%elem_of_nil.
    + specialize (IH r H). destruct r as [d |].
      * destruct IH as (pre & post & -> & Hd & Hpre).
        exists (d0 :: pre), post. split; [done |]. split; [done |].
        intros d' [-> | Hd']%elem_of_cons; [done | by apply Hpre].
      * intros d [-> | Hd]%elem_of_cons; [done | by apply IH].
Qed.

(** X8.  [search_random] returns the first direction, in the order the
    shuffle left, whose neighbour [is_valid_position] accepts: every
    direction tried before it was rejected; and it returns nothing only
    when all of them were rejected. *)
Theorem search_random_returns_first_accepted
    (directions : list direction) (h : TilePos) (l : Level) (sn : Snake)
    (r : option direction) :
  search_random directions h l sn = Ok r →
  match r with
  | Some d =>
      ∃ pre post, directions = pre ++ d :: post ∧
        is_valid_position (move h d) l sn = Ok true ∧
        ∀ d', d' ∈ pre → is_valid_position (move h d') l sn = Ok false
  | None =>
      ∀ d, d ∈ directions → is_valid_position (move h d) l sn = Ok false
  end.
Proof.
  intros H. destruct r as [d |].
  - destruct (search_random_first directions h l sn (Some d) H)
      as (pre & post & Hsplit & Hd & Hpre).
    exists pre, post. split; [exact Hsplit |]. split; [exact Hd | exact Hpre].
  - exact (search_random_first directions h l sn None H).
Qed.

Lemma search_random_returns_first_accepted_witness :
  ∃ pre post, [left; down; right; up] = pre ++ up :: post ∧
    is_valid_position (move (mkTilePos 1 1) up) hidden_wall_level
      (snake_obj hidden_wall_sim) = Ok true ∧
    ∀ d', d' ∈ pre →
      is_valid_position (move (mkTilePos 1 1) d') hidden_wall_level
        (snake_obj hidden_wall_sim) = Ok false.
Proof.
  apply (search_random_returns_first_accepted [left; down; right; up]
           (mkTilePos 1 1) hidden_wall_level (snake_obj hidden_wall_sim)
           (Some up)).
  vm_compute. reflexivity.
Defined.

Lemma troca_cases directions s s' l :
  current_level s = Ok l →
  troca directions s = Ok s' →
  (∃ d, search_random directions (head_pos s) l (snake_obj s) = Ok (Some d) ∧
        s' = set_next_pos (move (head_pos s) d) (set_next_dir d s)) ∨
  (search_random directions (head_pos s) l (snake_obj s) = Ok None ∧
   input_colision false true s = Ok s').
Proof.
  intros Hl H. unfold troca in H. rewrite Hl in H. cbn [mbind res_bind] in H.
  apply bind_Ok in H. destruct H as (r & Hr & H).
  destruct r as [d |]; [left | right].
  - exists d. split; [done |]. by inversion H.
  - done.
Qed.

Lemma input_colision_crash_frame s s' :
  input_colision false true s = Ok s' →
  s' = set_current_state (current_state s')
         (set_current_life (int_wrap (current_life s - 1)) s) ∧
  (current_state s' = current_state s ∨ current_state s' = SNAKE_CRASHED
   ∨ current_state s' = GAME_OVER).
Proof.
  unfold input_colision. simpl. intros H. inversion H; subst s'. clear H.
  destruct s; simpl. repeat (case_match; simpl); auto.
Qed.

(** X9.  [troca] either points the snake at the first accepted neighbour
    (it writes [next_pos] and [next_dir] and nothing else), or, when every
    neighbour is rejected, is one collision event: a life is taken,
    [next_pos] and [next_dir] keep their old values, and the state is left
    for [input_colision] to set. *)
Theorem troca_moves_or_costs_a_life
    (directions : list direction) (s s' : SnazeSimulation) (l : Level) :
  current_level s = Ok l →
  troca directions s = Ok s' →
  (∃ d, d ∈ directions ∧
        is_valid_position (move (head_pos s) d) l (snake_obj s) = Ok true ∧
        s' = set_next_pos (move (head_pos s) d) (set_next_dir d s)) ∨
  ((∀ d, d ∈ directions →
         is_valid_position (move (head_pos s) d) l (snake_obj s) = Ok false) ∧
   s' = set_current_state (current_state s')
          (set_current_life (int_wrap (current_life s - 1)) s) ∧
   (current_state s' = current_state s ∨ current_state s' = SNAKE_CRASHED
    ∨ current_state s' = GAME_OVER)).
Proof.
  intros Hl H.
  destruct (troca_cases directions s s' l Hl H) as [(d & Hd & ->) | [Hn Hc]].
  - left. exists d.
    destruct (search_random_first _ _ _ _ _ Hd) as (pre & post & -> & Hv & _).
    split; [| done]. apply elem_of_app. right. by left.
  - right. split.
    + exact (search_random_first _ _ _ _ _ Hn).
    + by apply input_colision_crash_frame.
Qed.

Lemma troca_moves_or_costs_a_life_witness :
  ∃ s', troca [left; down; right; up] hidden_wall_sim = Ok s' ∧
  ((∃ d, d ∈ [left; down; right; up] ∧
         is_valid_position (move (head_pos hidden_wall_sim) d)
           hidden_wall_level (snake_obj hidden_wall_sim) = Ok true ∧
         s' = set_next_pos (move (head_pos hidden_wall_sim) d)
                (set_next_dir d hidden_wall_sim)) ∨
   ((∀ d, d ∈ [left; down; right; up] →
          is_valid_position (move (head_pos hidden_wall_sim) d)
            hidden_wall_level (snake_obj hidden_wall_sim) = Ok false) ∧
    s' = set_current_state (current_state s')
           (set_current_life (int_wrap (current_life hidden_wall_sim - 1))
              hidden_wall_sim) ∧
    (current_state s' = current_state hidden_wall_sim
     ∨ current_state s' = SNAKE_CRASHED ∨ current_state s' = GAME_OVER))).
Proof.
  eexists. split; [vm_compute; reflexivity |].
  apply (troca_moves_or_costs_a_life [left; down; right; up] hidden_wall_sim
           _ hidden_wall_level); vm_compute; reflexivity.
Defined.

(** ** The breadth-first search: what the loop decides *)

Lemma search_loop_outcome l start nc :
  rectangular l → n_cols l = Ok nc → n_rows l * nc ≤ size_modulus →
  in_bounds l start →
  ∃ vis1 out,
    set2 (replicate (N.to_nat (n_rows l)) (replicate (N.to_nat nc) false))
         start true = Ok vis1 ∧
    bfs_loop (search_fuel l nc) l (mkSearch [start] vis1 ∅) = Ok out ∧
    outcome_spec l start nc (N.to_nat (n_rows l) * N.to_nat nc) out.
Proof.
  intros Hrect Hnc Hfit Hstart.
  destruct (set2_start_defined l start nc Hnc Hfit Hstart) as [vis1 Hset].
  pose proof (inv_init l start nc Hfit vis1 Hset) as Hinv0.
  assert (Hmeas : (search_measure l nc (mkSearch [start] vis1 ∅)
                   ≤ N.to_nat (n_rows l) * N.to_nat nc)%nat).
  { unfold search_measure. simpl.
    pose proof (count_if_lt_length l nc Hfit
                  (fun p => negb (is_visited vis1 p)) (all_cells l nc) start)
      as Hlt.
    rewrite (length_all_cells l nc Hfit) in Hlt.
    assert ((count_if (fun p => negb (is_visited vis1 p)) (all_cells l nc)
             < N.to_nat (n_rows l) * N.to_nat nc)%nat); [| lia].
    apply Hlt; [by apply elem_of_all_cells |].
    apply negb_false_iff, is_visited_true.
    exact (inv_start _ _ _ _ _ _ _ Hinv0). }
  destruct (bfs_loop_spec l start nc Hrect Hnc Hfit Hstart
              (N.to_nat (n_rows l) * N.to_nat nc)
              (search_fuel l nc) (mkSearch [start] vis1 ∅) 0 Hinv0)
    as (out & Hrun & Hout); [unfold search_fuel; lia | lia |].
  eauto.
Qed.

(** X10.  The [while] loop of the search, started at a cell of a
    rectangular grid whose cell count fits [size_t], ends within one turn
    per cell plus one, and decides whether food can be reached: it leaves
    through [break] at a food cell no further from the start than any other
    food cell, or it drains the queue and then no food cell can be reached
    at all; it never leaves through the [return] of the inner loop. *)
Theorem bfs_loop_decides_reachability (l : Level) (start : TilePos) (nc : N) :
  rectangular l → n_cols l = Ok nc → n_rows l * nc ≤ size_modulus →
  in_bounds l start →
  ∃ vis1 out,
    set2 (replicate (N.to_nat (n_rows l)) (replicate (N.to_nat nc) false))
         start true = Ok vis1 ∧
    bfs_loop (search_fuel l nc) l (mkSearch [start] vis1 ∅) = Ok out ∧
    match out with
    | Found f st =>
        is_food l f ∧
        ∃ k, path l start f k ∧
             (k ≤ N.to_nat (n_rows l) * N.to_nat nc)%nat ∧
             ∀ w n, is_food l w → path l start w n → (k ≤ n)%nat
    | Exhausted st => ∀ w n, is_food l w → ¬ path l start w n
    | Aborted => False
    end.
Proof.
  intros Hrect Hnc Hfit Hstart.
  destruct (search_loop_outcome l start nc Hrect Hnc Hfit Hstart)
    as (vis1 & out & Hset & Hrun & Hout).
  exists vis1, out. split; [done |]. split; [done |].
  destruct out as [f st | st |]; simpl in Hout.
  - destruct Hout as (Hf & k & F & vis & Hinv & Hd & Hk & Hmin).
    split; [done |]. exists k. split; [by eapply depth_path |]. done.
  - intros w n Hw Hp. by eapply Hout.
  - done.
Qed.

Lemma bfs_loop_decides_reachability_witness :
  ∃ vis1 out,
    set2 (replicate (N.to_nat (n_rows bend_level)) (replicate (N.to_nat 5) false))
         (mkTilePos 1 1) true = Ok vis1 ∧
    bfs_loop (search_fuel bend_level 5) bend_level
      (mkSearch [mkTilePos 1 1] vis1 ∅) = Ok out ∧
    match out with
    | Found f st =>
        is_food bend_level f ∧
        ∃ k, path bend_level (mkTilePos 1 1) f k ∧
             (k ≤ N.to_nat (n_rows bend_level) * N.to_nat 5)%nat ∧
             ∀ w n, is_food bend_level w →
                    path bend_level (mkTilePos 1 1) w n → (k ≤ n)%nat
    | Exhausted st =>
        ∀ w n, is_food bend_level w → ¬ path bend_level (mkTilePos 1 1) w n
    | Aborted => False
    end.
Proof.
  apply (bfs_loop_decides_reachability bend_level (mkTilePos 1 1) 5).
  - exact bend_level_rectangular.
  - reflexivity.
  - vm_compute. discriminate.
  - split; reflexivity.
Defined.

Lemma breadthFirst_search_exhausted directions s l :
  current_state s = SNAKE_THINKING →
  current_level s = Ok l →
  rectangular l →
  n_rows l * width l ≤ size_modulus →
  in_bounds l (head_pos s) →
  (∀ w n, is_food l w → ¬ path l (head_pos s) w n) →
  breadthFirst_search directions s
  = troca directions (with_flags false false s).
Proof.
  intros Hst Hl Hrect Hfit Hstart Hnone.
  assert (Hnc : n_cols l = Ok (width l)).
  { apply n_cols_width. eapply nonempty_of_row. exact (proj1 Hstart). }
  destruct (search_loop_outcome l (head_pos s) (width l) Hrect Hnc Hfit Hstart)
    as (vis1 & out & Hset & Hrun & Hout).
  unfold breadthFirst_search. rewrite Hl. res_simpl. rewrite Hnc. res_simpl.
  rewrite (bool_decide_eq_false_2 (current_state s ≠ SNAKE_THINKING))
    by (intros Hne; by apply Hne).
  rewrite Hset. res_simpl. rewrite Hrun. res_simpl.
  destruct out as [f st | st |]; simpl in Hout.
  - destruct Hout as (Hf & k & F & vis & Hinv & Hd & _).
    destruct (Hnone f k Hf). by eapply depth_path.
  - reflexivity.
  - done.
Qed.

(** X11.  When no food cell can be reached from the head, one invocation
    of [breadthFirst_search] is exactly one [troca] on the simulation with
    the two transient flags cleared: the search itself proposes nothing. *)
Theorem breadthFirst_search_without_food_is_troca
    (directions : list direction) (s : SnazeSimulation) (l : Level) :
  current_state s = SNAKE_THINKING →
  current_level s = Ok l →
  rectangular l →
  n_rows l * width l ≤ size_modulus →
  in_bounds l (head_pos s) →
  (∀ w n, is_food l w → ¬ path l (head_pos s) w n) →
  breadthFirst_search directions s
  = troca directions (with_flags false false s) ∧
  ∀ s', breadthFirst_search directions s = Ok s' →
        levels s' = levels s ∧ body (snake_obj s') = body (snake_obj s) ∧
        head_pos s' = head_pos s ∧ score s' = score s ∧
        current_food s' = current_food s.
Proof.
  intros Hst Hl Hrect Hfit Hstart Hnone.
  assert (Heq := breadthFirst_search_exhausted directions s l
                   Hst Hl Hrect Hfit Hstart Hnone).
  split; [exact Heq |].
  intros s' Hs'. rewrite Heq in Hs'.
  assert (Hl' : current_level (with_flags false false s) = Ok l) by exact Hl.
  destruct (troca_cases directions _ s' l Hl' Hs') as [(d & _ & ->) | [_ Hc]].
  - simpl. done.
  - apply input_colision_crash_frame in Hc as [-> _]. simpl. done.
Qed.

Lemma hidden_wall_no_food_in_reach w n :
  is_food hidden_wall_level w →
  ¬ path hidden_wall_level (head_pos hidden_wall_sim) w n.
Proof.
  intros Hw Hp. inversion Hp as [u | u v w' n' Hstep Hrest]; subst.
  - vm_compute in Hw. discriminate.
  - destruct Hstep as (i & Hi & -> & _ & Hc).
    destruct i as [| [| [| [| i]]]]; try lia; vm_compute in Hc; discriminate.
Qed.

Lemma breadthFirst_search_without_food_is_troca_witness :
  breadthFirst_search [up; right; down; left] hidden_wall_sim
  = troca [up; right; down; left] (with_flags false false hidden_wall_sim) ∧
  ∀ s', breadthFirst_search [up; right; down; left] hidden_wall_sim = Ok s' →
        levels s' = levels hidden_wall_sim ∧
        body (snake_obj s') = body (snake_obj hidden_wall_sim) ∧
        head_pos s' = head_pos hidden_wall_sim ∧
        score s' = score hidden_wall_sim ∧
        current_food s' = current_food hidden_wall_sim.
Proof.
  apply (breadthFirst_search_without_food_is_troca [up; right; down; left]
           hidden_wall_sim hidden_wall_level).
  - reflexivity.
  - reflexivity.
  - unfold rectangular. simpl. repeat constructor.
  - vm_compute. discriminate.
  - split; reflexivity.
  - exact hidden_wall_no_food_in_reach.
Defined.

(** ** The snake and its tiles *)

Lemma reset_tiles sn l sn' l' :
  rectangular l → reset sn l = Ok (sn', l') →
  rectangular l' ∧ in_bounds l (m_spawn_loc l) ∧
  sn' = mkSnake [m_spawn_loc l] false false (wall_collision sn) ∧
  m_spawn_loc l' = m_spawn_loc l ∧ m_food_loc l' = m_food_loc l ∧
  (∀ q, get_tile_type l' q
        = if decide (q = m_spawn_loc l) then Ok SNAKE_HEAD
          else get_tile_type l q).
Proof.
  intros Hrect H. unfold reset, get_spawn_loc in H.
  apply bind_Ok in H. destruct H as (l1 & Hl1 & H). inversion H; subst.
  destruct (set_tile_type_spec _ _ _ _ Hrect Hl1)
    as (Hrect' & Hin & Hsp & Hfd & _ & _ & Hget).
  done.
Qed.

Lemma set2_shape {A} (g g' : list (list A)) (p : TilePos) (x : A) :
  set2 g p x = Ok g' →
  length g' = length g ∧ length (hd [] g') = length (hd [] g).
Proof.
  intros H. destruct (set2_dims _ _ _ _ H) as [Hlen Hrow]. split; [done |].
  specialize (Hrow 0%nat). destruct g as [| r g], g' as [| r' g'];
    simpl in *; try done. by inversion Hrow.
Qed.

Lemma remove_snake_dims l l' :
  remove_snake l = Ok l' → n_rows l' = n_rows l ∧ width l' = width l.
Proof.
  unfold remove_snake. intros H.
  apply bind_Ok in H. destruct H as (m & Hm & H). inversion H; subst l'.
  unfold n_rows, width. simpl.
  assert (length m = length (m_maze l)
          ∧ length (hd [] m) = length (hd [] (m_maze l))) as [-> ->]; [| done].
  eapply (for_each_invariant
            (fun m => length m = length (m_maze l)
                      ∧ length (hd [] m) = length (hd [] (m_maze l))));
    [| | exact Hm]; [| done].
  intros i m1 m2 Hm1 Hrow.
  apply bind_Ok in Hrow. destruct Hrow as (nc & _ & Hrow).
  eapply (for_each_invariant
            (fun m => length m = length (m_maze l)
                      ∧ length (hd [] m) = length (hd [] (m_maze l))));
    [| exact Hm1 | exact Hrow].
  intros j m3 m4 [Hlen Hhd] Hcell.
  apply bind_Ok in Hcell. destruct Hcell as (t & _ & Hcell).
  destruct (_ || _).
  - destruct (set2_shape _ _ _ _ Hcell) as [-> ->]. done.
  - by inversion Hcell; subst.
Qed.

Lemma without_snake_no_snake t :
  without_snake t ≠ SNAKE_HEAD ∧ without_snake t ≠ SNAKE_BODY.
Proof. by destruct t. Qed.

Lemma respawn_spec s l :
  current_level s = Ok l → rectangular l → in_bounds l (m_spawn_loc l) →
  ∃ s' l',
    respawn s = Ok s' ∧ current_level s' = Ok l' ∧ rectangular l' ∧
    s' = set_next_pos (m_spawn_loc l) (set_head_pos (m_spawn_loc l)
           (set_snake_obj
              (mkSnake [m_spawn_loc l] false false
                 (wall_collision (snake_obj s)))
              (store_current_level l' s))) ∧
    m_spawn_loc l' = m_spawn_loc l ∧ m_food_loc l' = m_food_loc l ∧
    (∀ q, in_bounds l' q ↔ in_bounds l q) ∧
    (∀ q t, get_tile_type l q = Ok t →
            get_tile_type l' q
            = Ok (if decide (q = m_spawn_loc l) then SNAKE_HEAD
                  else without_snake t)) ∧
    n_rows l' = n_rows l ∧ width l' = width l.
Proof.
  intros Hl Hrect Hin.
  destruct (remove_snake_cells l Hrect)
    as (l1 & Hl1 & Hsp1 & Hfd1 & Hrect1 & Hcell1).
  destruct (remove_snake_dims l l1 Hl1) as [Hnr1 Hw1].
  assert (Hb1 : ∀ q, in_bounds l1 q ↔ in_bounds l q).
  { intros q. split; intros Hq.
    - destruct (in_bounds_cell l1 q Hrect1 Hq) as [t Ht].
      rewrite Hcell1 in Ht.
      destruct (cell (m_maze l) q) as [t0 |] eqn:Hc; [| done].
      by eapply cell_in_bounds.
    - destruct (in_bounds_cell l q Hrect Hq) as [t Ht].
      apply (cell_in_bounds l1 q (without_snake t) Hrect1).
      by rewrite Hcell1, Ht. }
  destruct (set_tile_type_total SNAKE_HEAD (m_spawn_loc l1) l1 Hrect1)
    as [l2 Hl2]; [rewrite Hsp1; by apply Hb1 |].
  destruct (set_tile_type_spec _ _ _ _ Hrect1 Hl2)
    as (Hrect2 & _ & Hsp2 & Hfd2 & Hnr2 & Hw2 & Hget2).
  unfold respawn. rewrite Hl. res_simpl. rewrite Hl1. res_simpl.
  unfold reset, get_spawn_loc. rewrite Hl2. res_simpl.
  eexists _, l2. split; [reflexivity |].
  split; [by eapply current_level_store |]. split; [done |].
  split; [by rewrite Hsp2, Hsp1 |].
  split; [by rewrite Hsp2 |]. split; [by rewrite Hfd2 |].
  split; [| split; [| split; congruence]].
  - intros q. rewrite <- Hb1. unfold in_bounds. by rewrite Hnr2, Hw2.
  - intros q t Ht. rewrite Hget2, Hsp1.
    destruct (decide (q = m_spawn_loc l)); [done |].
    rewrite !get_tile_cell in *. rewrite Hcell1.
    destruct (cell (m_maze l) q) as [t0 |]; [| done].
    simpl in *. by inversion Ht.
Qed.

(** X12.  [respawn] on a rectangular current level whose spawn cell lies
    inside the grid returns; afterwards the body is the spawn cell alone,
    [head_pos] and [next_pos] are the spawn cell, the two transient flags
    are down, the spawn tile is the only snake tile of the level (so the
    snake and its tiles agree), every other tile that was no snake tile is
    kept, and lives, score, food counter and state are untouched. *)
Theorem respawn_puts_the_snake_on_the_spawn_cell
    (s : SnazeSimulation) (l : Level) :
  current_level s = Ok l → rectangular l → in_bounds l (m_spawn_loc l) →
  ∃ s' l',
    respawn s = Ok s' ∧ current_level s' = Ok l' ∧ rectangular l' ∧
    snake_on_level l' (snake_obj s') ∧
    body (snake_obj s') = [m_spawn_loc l] ∧
    head_pos s' = m_spawn_loc l ∧ next_pos s' = m_spawn_loc l ∧
    collision (snake_obj s') = false ∧ found_foods (snake_obj s') = false ∧
    m_spawn_loc l' = m_spawn_loc l ∧ m_food_loc l' = m_food_loc l ∧
    (∀ q t, q ≠ m_spawn_loc l → get_tile_type l q = Ok t →
            get_tile_type l' q = Ok (without_snake t)) ∧
    current_life s' = current_life s ∧ score s' = score s ∧
    current_food s' = current_food s ∧ current_state s' = current_state s.
Proof.
  intros Hl Hrect Hin.
  destruct (respawn_spec s l Hl Hrect Hin)
    as (s' & l' & Hrun & Hl' & Hrect' & -> & Hsp & Hfd & Hb & Hget & _).
  eexists _, l'. split; [exact Hrun |]. split; [exact Hl' |].
  split; [done |]. simpl.
  split; [| repeat split; try done].
  - split; [apply NoDup_singleton |].
    exists (m_spawn_loc l), []. split; [done |].
    assert (Htile : ∀ p t', get_tile_type l' p = Ok t' →
              ∃ t, get_tile_type l p = Ok t ∧
                   t' = if decide (p = m_spawn_loc l) then SNAKE_HEAD
                        else without_snake t).
    { intros p t' Hp.
      destruct (at2_in_bounds l p Hrect) as [t Ht].
      { apply Hb. by eapply in_bounds_tile. }
      exists t. split; [done |]. rewrite (Hget p t Ht) in Hp. by inversion Hp. }
    split; intros p; split.
    + intros Hp. destruct (Htile p _ Hp) as (t & _ & Heq).
      destruct (decide (p = m_spawn_loc l)); [done |].
      by destruct (without_snake_no_snake t) as [? _].
    + intros ->. destruct (at2_in_bounds l _ Hrect Hin) as [t Ht].
      rewrite (Hget _ t Ht). by rewrite decide_True.
    + intros Hp. destruct (Htile p _ Hp) as (t & _ & Heq).
      destruct (decide (p = m_spawn_loc l)); [done |].
      by destruct (without_snake_no_snake t) as [_ ?].
    + by intros ?%elem_of_nil.
  - intros q t Hq Ht. rewrite (Hget q t Ht). by rewrite decide_False.
Qed.

Lemma respawn_puts_the_snake_on_the_spawn_cell_witness :
  ∃ s' l',
    respawn bend_sim = Ok s' ∧ current_level s' = Ok l' ∧ rectangular l' ∧
    snake_on_level l' (snake_obj s') ∧
    body (snake_obj s') = [m_spawn_loc bend_level] ∧
    head_pos s' = m_spawn_loc bend_level ∧
    next_pos s' = m_spawn_loc bend_level ∧
    collision (snake_obj s') = false ∧ found_foods (snake_obj s') = false ∧
    m_spawn_loc l' = m_spawn_loc bend_level ∧
    m_food_loc l' = m_food_loc bend_level ∧
    (∀ q t, q ≠ m_spawn_loc bend_level → get_tile_type bend_level q = Ok t →
            get_tile_type l' q = Ok (without_snake t)) ∧
    current_life s' = current_life bend_sim ∧ score s' = score bend_sim ∧
    current_food s' = current_food bend_sim ∧
    current_state s' = current_state bend_sim.
Proof.
  apply (respawn_puts_the_snake_on_the_spawn_cell bend_sim bend_level).
  - reflexivity.
  - exact bend_level_rectangular.
  - split; reflexivity.
Defined.

Lemma place_food_spec rnd l :
  rectangular l →
  ∃ l', place_food rnd l = Ok l' ∧ rectangular l' ∧
    n_rows l' = n_rows l ∧ width l' = width l ∧
    m_spawn_loc l' = m_spawn_loc l ∧
    ((l' = l ∧ ∀ p, get_tile_type l p ≠ Ok EMPTY) ∨
     (get_tile_type l (m_food_loc l') = Ok EMPTY ∧
      ∀ q, get_tile_type l' q
           = if decide (q = m_food_loc l') then Ok FOOD
             else get_tile_type l q)).
Proof.
  intros Hrect. destruct (place_food_total rnd l Hrect) as [l' Hl'].
  exists l'. split; [done |].
  destruct (place_food_cases rnd l l' Hrect Hl')
    as [[-> Hnone] | (p & m' & Hp & Hm' & ->)].
  - split; [done |]. split; [done |]. split; [done |]. split; [done |].
    by left.
  - assert (Hset : set_tile_type FOOD p (mkLevel (m_maze l) (m_spawn_loc l) p)
                   = Ok (mkLevel m' (m_spawn_loc l) p)).
    { unfold set_tile_type. simpl. by rewrite Hm'. }
    destruct (set_tile_type_spec FOOD p
                (mkLevel (m_maze l) (m_spawn_loc l) p) _ Hrect Hset)
      as (Hrect' & _ & _ & _ & Hnr & Hw & Hget).
    split; [done |]. split; [done |]. split; [done |]. split; [done |].
    right. split; [done |]. exact Hget.
Qed.

Lemma same_bounds l l' :
  n_rows l' = n_rows l → width l' = width l →
  ∀ q, in_bounds l' q ↔ in_bounds l q.
Proof. intros Hr Hw q. unfold in_bounds. by rewrite Hr, Hw. Qed.

Lemma NoDup_snoc_inv {A} (xs : list A) (x : A) :
  NoDup (xs ++ [x]) → NoDup xs ∧ x ∉ xs.
Proof.
  intros H. apply NoDup_app in H as (Hxs & Hdisj & _). split; [done |].
  intros Hx. apply (Hdisj x Hx). by left.
Qed.
(** The commit of a move onto an [EMPTY] cell. *)
Lemma snake_update_moves rnd s l :
  current_state s = SNAKE_THINKING →
  current_level s = Ok l → rectangular l →
  snake_on_level l (snake_obj s) → food_at_food_loc l →
  get_tile_type l (next_pos s) = Ok EMPTY →
  ∃ s' l',
    snake_update rnd s = Ok s' ∧ current_level s' = Ok l' ∧ rectangular l' ∧
    snake_on_level l' (snake_obj s') ∧ food_at_food_loc l' ∧
    body (snake_obj s') = removelast (next_pos s :: body (snake_obj s)) ∧
    head_pos s' = next_pos s ∧ dir s' = next_dir s ∧
    (∀ q, in_bounds l' q ↔ in_bounds l q) ∧ same_walls l l' ∧
    m_food_loc l' = m_food_loc l ∧
    (∀ q, get_tile_type l' q = Ok FOOD ↔ get_tile_type l q = Ok FOOD) ∧
    current_state s' = current_state s ∧ current_life s' = current_life s ∧
    score s' = score s ∧ current_food s' = current_food s ∧
    next_pos s' = next_pos s.
Proof.
  intros Hst Hl Hrect (Hnd & h & rest & Hbody & Hhead & Hbd) Hfood Hnext.
  set (next := next_pos s) in *.
  assert (Hin : in_bounds l next) by (by eapply in_bounds_tile).
  assert (Hc : crashed l next = Ok false).
  { destruct (crashed_inside l next Hrect Hin) as (t & Ht & ->).
    rewrite Hnext in Ht. by inversion Ht. }
  destruct (exists_last (l := h :: rest)) as (init & tl & Hsplit); [done |].
  rewrite Hbody, Hsplit in Hnd.
  destruct (NoDup_snoc_inv _ _ Hnd) as [Hnd_init Htl_init].
  assert (Hsnake : ∀ q, q ∈ h :: rest →
            get_tile_type l q = Ok SNAKE_HEAD ∨
            get_tile_type l q = Ok SNAKE_BODY).
  { intros q [-> | Hq]%elem_of_cons; [left; by apply Hhead |].
    right. by apply Hbd. }
  assert (Hnext_body : next ∉ h :: rest).
  { intros Hq. destruct (Hsnake _ Hq) as [Hq' | Hq']; congruence. }
  assert (Htl : tl ∈ h :: rest).
  { rewrite Hsplit. apply elem_of_app. right. by left. }
  (* the three writes *)
  destruct (set_tile_type_total SNAKE_HEAD next l Hrect Hin) as [l1 Hl1].
  destruct (set_tile_type_spec _ _ _ _ Hrect Hl1)
    as (Hrect1 & _ & Hsp1 & Hfd1 & Hnr1 & Hw1 & Hget1).
  assert (Hb1 := same_bounds l l1 Hnr1 Hw1).
  assert (Hin_body : ∀ q, q ∈ h :: rest → in_bounds l q).
  { intros q Hq. destruct (Hsnake q Hq); by eapply in_bounds_tile. }
  destruct (set_tile_type_total EMPTY tl l1 Hrect1) as [l2 Hl2];
    [by apply Hb1, Hin_body |].
  destruct (set_tile_type_spec _ _ _ _ Hrect1 Hl2)
    as (Hrect2 & _ & Hsp2 & Hfd2 & Hnr2 & Hw2 & Hget2).
  assert (Hb2 := same_bounds l1 l2 Hnr2 Hw2).
  unfold snake_update. rewrite Hl. res_simpl. fold next. rewrite Hnext. res_simpl.
  rewrite (bool_decide_eq_false_2 (current_state s ≠ SNAKE_THINKING))
    by (intros Hne; by apply Hne).
  rewrite Hc. res_simpl. rewrite Hl1. res_simpl.
  rewrite (bool_decide_eq_false_2 (EMPTY = FOOD)) by done.
  cbn [negb]. rewrite Hbody, Hsplit.
  change (next :: init ++ [tl]) with ((next :: init) ++ [tl]).
  rewrite last_snoc, removelast_last. cbn [of_option]. res_simpl.
  rewrite Hl2. res_simpl.
  assert (Hcur : ∀ l3, current_level (store_current_level l3 s) = Ok l3)
    by (intros l3; by eapply current_level_store).
  assert (Hnh : next ≠ h) by (intros ->; apply Hnext_body; by left).
  assert (Hfood_l : ∀ q, get_tile_type l q = Ok FOOD → q ≠ next ∧ q ∉ h :: rest).
  { intros q Hq. split; [intros ->; congruence |].
    intros Hq'. destruct (Hsnake q Hq'); congruence. }
  destruct init as [| h' init].
  - (* a snake of one segment: the head cell is vacated *)
    simpl in Hsplit. inversion Hsplit; subst tl rest. clear Hsplit.
    cbn [length]. rewrite decide_False by lia. res_simpl.
    eexists _, l2. split; [reflexivity |]. simpl.
    split; [apply Hcur |]. split; [done |].
    assert (Hget : ∀ q, get_tile_type l2 q =
              if decide (q = h) then Ok EMPTY
              else if decide (q = next) then Ok SNAKE_HEAD
              else get_tile_type l q).
    { intros q. by rewrite Hget2, Hget1. }
    split.
    { split; [apply NoDup_singleton |]. exists next, [].
      split; [done |]. split; intros q; rewrite Hget;
        repeat case_decide; subst; split; intros Hq; try done;
        first [ by apply Hhead in Hq | by apply Hbd in Hq
              | by apply elem_of_nil in Hq ]. }
    split.
    { intros q. rewrite Hget. repeat case_decide; try done.
      rewrite Hfd2, Hfd1. apply Hfood. }
    split; [done |]. split; [done |]. split; [done |].
    split; [intros q; by rewrite Hb2, Hb1 |].
    split.
    { intros q. rewrite Hget.
      assert (get_tile_type l h = Ok SNAKE_HEAD) by (by apply Hhead).
      repeat case_decide; subst; split; split;
        intros Hq; try done; congruence. }
    split; [by rewrite Hfd2, Hfd1 |].
    split; [| done].
    intros q. rewrite Hget.
    assert (get_tile_type l h = Ok SNAKE_HEAD) by (by apply Hhead).
    repeat case_decide; subst; split; intros Hq; try done; congruence.
  - (* a longer snake: the last cell is vacated, the old head cell becomes
       a body cell *)
    simpl in Hsplit. inversion Hsplit; subst h' rest. clear Hsplit.
    assert (Hth : tl ≠ h) by (intros ->; apply Htl_init; by left).
    apply NoDup_cons in Hnd_init as [Hh_init Hnd_init'].
    destruct (set_tile_type_total SNAKE_BODY h l2 Hrect2) as [l3 Hl3];
      [apply Hb2, Hb1, Hin_body; by left |].
    destruct (set_tile_type_spec _ _ _ _ Hrect2 Hl3)
      as (Hrect3 & _ & Hsp3 & Hfd3 & Hnr3 & Hw3 & Hget3).
    assert (Hb3 := same_bounds l2 l3 Hnr3 Hw3).
    cbn [length]. rewrite decide_True by lia.
    cbn [lookup list_lookup of_option]. res_simpl. rewrite Hl3. res_simpl.
    eexists _, l3. split; [reflexivity |]. simpl.
    split; [apply Hcur |]. split; [done |].
    assert (Hget : ∀ q, get_tile_type l3 q =
              if decide (q = h) then Ok SNAKE_BODY
              else if decide (q = tl) then Ok EMPTY
              else if decide (q = next) then Ok SNAKE_HEAD
              else get_tile_type l q).
    { intros q. by rewrite Hget3, Hget2, Hget1. }
    assert (Hh : get_tile_type l h = Ok SNAKE_HEAD) by (by apply Hhead).
    assert (Htlb : get_tile_type l tl = Ok SNAKE_BODY).
    { apply Hbd. apply elem_of_app. right. by left. }
    assert (Hrest : ∀ q, q ∈ init ++ [tl] ↔ q ∈ init ∨ q = tl).
    { intros q. rewrite elem_of_app, list_elem_of_singleton. done. }
    split.
    { split.
      - apply NoDup_cons. split.
        + intros Hq. apply Hnext_body.
          apply elem_of_cons in Hq as [-> | Hq]; [by left |].
          right. apply Hrest. by left.
        + by apply NoDup_cons.
      - exists next, (h :: init). split; [done |].
        assert (Hn2 : next ∉ init).
        { intros Hq. apply Hnext_body. right. apply Hrest. by left. }
        assert (Hn3 : next ≠ tl).
        { intros Hq. apply Hnext_body. right. apply Hrest. by right. }
        assert (Hti : tl ∉ init).
        { intros Hq. apply Htl_init. by right. }
        split; intros q; rewrite Hget, ?elem_of_cons;
          pose proof (Hhead q); pose proof (Hbd q); pose proof (Hrest q);
          repeat case_decide; subst; intuition (first [congruence | done]). }
    split.
    { intros q. rewrite Hget. repeat case_decide; try done.
      rewrite Hfd3, Hfd2, Hfd1. apply Hfood. }
    split; [done |]. split; [done |]. split; [done |].
    split; [intros q; by rewrite Hb3, Hb2, Hb1 |].
    split.
    { intros q. rewrite Hget.
      repeat case_decide; subst; split; split;
        intros Hq; try done; congruence. }
    split; [by rewrite Hfd3, Hfd2, Hfd1 |].
    split; [| done].
    intros q. rewrite Hget.
    repeat case_decide; subst; split; intros Hq; try done; congruence.
Qed.
(** The commit of a move onto the [FOOD] cell. *)
Lemma snake_update_eats rnd s l :
  current_state s = SNAKE_THINKING →
  current_level s = Ok l → rectangular l →
  snake_on_level l (snake_obj s) → food_at_food_loc l →
  get_tile_type l (next_pos s) = Ok FOOD →
  ∃ s' l',
    snake_update rnd s = Ok s' ∧ current_level s' = Ok l' ∧ rectangular l' ∧
    snake_on_level l' (snake_obj s') ∧ food_at_food_loc l' ∧
    body (snake_obj s') = next_pos s :: body (snake_obj s) ∧
    head_pos s' = next_pos s ∧ dir s' = next_dir s ∧
    (∀ q, in_bounds l' q ↔ in_bounds l q) ∧ same_walls l l' ∧
    ((∀ q, get_tile_type l' q ≠ Ok FOOD) ∨
     (get_tile_type l (m_food_loc l') = Ok EMPTY ∧
      get_tile_type l' (m_food_loc l') = Ok FOOD)) ∧
    current_state s' = current_state s ∧ current_life s' = current_life s ∧
    score s' = score s ∧ current_food s' = current_food s ∧
    next_pos s' = next_pos s.
Proof.
  intros Hst Hl Hrect (Hnd & h & rest & Hbody & Hhead & Hbd) Hfood Hnext.
  set (next := next_pos s) in *.
  assert (Hin : in_bounds l next) by (by eapply in_bounds_tile).
  assert (Hc : crashed l next = Ok false).
  { destruct (crashed_inside l next Hrect Hin) as (t & Ht & ->).
    rewrite Hnext in Ht. by inversion Ht. }
  assert (Hh : get_tile_type l h = Ok SNAKE_HEAD) by (by apply Hhead).
  assert (Hnh : next ≠ h) by (intros Heq; rewrite Heq in Hnext; congruence).
  assert (Hnr : next ∉ rest).
  { intros Hq%Hbd. congruence. }
  assert (Hloc : ∀ q, get_tile_type l q = Ok FOOD → q = next).
  { intros q Hq. by rewrite (Hfood q Hq), (Hfood next Hnext). }
  destruct (set_tile_type_total SNAKE_HEAD next l Hrect Hin) as [l1 Hl1].
  destruct (set_tile_type_spec _ _ _ _ Hrect Hl1)
    as (Hrect1 & _ & Hsp1 & Hfd1 & Hnr1 & Hw1 & Hget1).
  assert (Hb1 := same_bounds l l1 Hnr1 Hw1).
  destruct (place_food_spec rnd l1 Hrect1)
    as (l2 & Hl2 & Hrect2 & Hnr2 & Hw2 & Hsp2 & Hplace).
  assert (Hb2 := same_bounds l1 l2 Hnr2 Hw2).
  destruct (set_tile_type_total SNAKE_BODY h l2 Hrect2) as [l3 Hl3].
  { apply Hb2, Hb1. by eapply in_bounds_tile. }
  destruct (set_tile_type_spec _ _ _ _ Hrect2 Hl3)
    as (Hrect3 & _ & Hsp3 & Hfd3 & Hnr3 & Hw3 & Hget3).
  assert (Hb3 := same_bounds l2 l3 Hnr3 Hw3).
  assert (Hcur : ∀ l3, current_level (store_current_level l3 s) = Ok l3)
    by (intros l'; by eapply current_level_store).
  unfold snake_update. rewrite Hl. res_simpl. fold next. rewrite Hnext. res_simpl.
  rewrite (bool_decide_eq_false_2 (current_state s ≠ SNAKE_THINKING))
    by (intros Hne; by apply Hne).
  rewrite Hc. res_simpl. rewrite Hl1. res_simpl.
  rewrite (bool_decide_eq_true_2 (FOOD = FOOD)) by done.
  cbn [negb]. rewrite Hl2. res_simpl. rewrite Hbody.
  cbn [length]. rewrite decide_True by lia.
  cbn [lookup list_lookup of_option]. res_simpl. rewrite Hl3. res_simpl.
  eexists _, l3. split; [reflexivity |]. simpl.
  split; [apply Hcur |]. split; [done |].
  assert (HND : NoDup (next :: h :: rest)).
  { rewrite Hbody in Hnd. apply NoDup_cons. split; [| done].
    intros [? | ?]%elem_of_cons; done. }
  destruct Hplace as [[-> Hnone] | [Hp Hget2]].
  - assert (Hget : ∀ q, get_tile_type l3 q =
              if decide (q = h) then Ok SNAKE_BODY
              else if decide (q = next) then Ok SNAKE_HEAD
              else get_tile_type l q).
    { intros q. by rewrite Hget3, Hget1. }
    split.
    { split; [done |]. exists next, (h :: rest). split; [done |].
      split; intros q; rewrite Hget, ?elem_of_cons;
        pose proof (Hhead q); pose proof (Hbd q);
        repeat case_decide; subst; intuition (first [congruence | done]). }
    split.
    { intros q. rewrite Hget. repeat case_decide; try done.
      intros Hq. by apply Hloc in Hq. }
    split; [done |]. split; [done |]. split; [done |].
    split; [intros q; by rewrite Hb3, Hb1 |].
    split.
    { intros q. rewrite Hget.
      repeat case_decide; subst; split; split;
        intros Hq; try done; congruence. }
    split; [| done]. left. intros q. rewrite Hget.
    repeat case_decide; try done. intros Hq. by apply Hloc in Hq.
  - set (p := m_food_loc l2) in *.
    assert (Hpn : p ≠ next).
    { intros Heq. rewrite Hget1, Heq, decide_True in Hp by done. done. }
    assert (Hpl : get_tile_type l p = Ok EMPTY).
    { by rewrite Hget1, decide_False in Hp. }
    assert (Hget : ∀ q, get_tile_type l3 q =
              if decide (q = h) then Ok SNAKE_BODY
              else if decide (q = p) then Ok FOOD
              else if decide (q = next) then Ok SNAKE_HEAD
              else get_tile_type l q).
    { intros q. by rewrite Hget3, Hget2, Hget1. }
    assert (Hph : p ≠ h) by (intros Heq; rewrite Heq in Hpl; congruence).
    split.
    { split; [done |]. exists next, (h :: rest). split; [done |].
      split; intros q; rewrite Hget, ?elem_of_cons;
        pose proof (Hhead q); pose proof (Hbd q);
        repeat case_decide; subst; intuition (first [congruence | done]). }
    split.
    { intros q. rewrite Hget, Hfd3. fold p. repeat case_decide; try done.
      intros Hq. by apply Hloc in Hq. }
    split; [done |]. split; [done |]. split; [done |].
    split; [intros q; by rewrite Hb3, Hb2, Hb1 |].
    split.
    { intros q. rewrite Hget.
      repeat case_decide; subst; split; split;
        intros Hq; try done; congruence. }
    split; [| done]. right. rewrite Hfd3. fold p. split; [done |].
    rewrite Hget. by rewrite decide_False, decide_True.
Qed.
(** X13.  A commit that does not crash keeps the snake and its tiles in
    agreement: on a rectangular level on which the [SNAKE_HEAD] tile is
    under the first segment, the [SNAKE_BODY] tiles are exactly under the
    other (pairwise distinct) segments and the only [FOOD] tile is at
    [m_food_loc], [snake_update] returns, the same holds afterwards, the
    head is the committed cell, and walls, hidden walls, the bounds, the
    state, the lives, the score and the food counter are untouched. *)
Theorem snake_update_keeps_the_snake_on_its_tiles
    (rnd : nat) (s : SnazeSimulation) (l : Level) :
  current_state s = SNAKE_THINKING →
  current_level s = Ok l → rectangular l →
  snake_on_level l (snake_obj s) → food_at_food_loc l →
  crashed l (next_pos s) = Ok false →
  ∃ s' l',
    snake_update rnd s = Ok s' ∧ current_level s' = Ok l' ∧ rectangular l' ∧
    snake_on_level l' (snake_obj s') ∧ food_at_food_loc l' ∧
    body (snake_obj s') !! 0%nat = Some (next_pos s) ∧
    head_pos s' = next_pos s ∧ dir s' = next_dir s ∧
    (∀ q, in_bounds l' q ↔ in_bounds l q) ∧ same_walls l l' ∧
    current_state s' = SNAKE_THINKING ∧ current_life s' = current_life s ∧
    score s' = score s ∧ current_food s' = current_food s.
Proof.
  intros Hst Hl Hrect Hsn Hfood Hc.
  destruct (not_crashed_tile l (next_pos s) Hrect Hc) as [_ [Ht | Ht]].
  - destruct (snake_update_moves rnd s l Hst Hl Hrect Hsn Hfood Ht)
      as (s' & l' & Hrun & Hl' & Hrect' & Hsn' & Hfood' & Hbody & Hhp & Hdir
          & Hb & Hw & _ & _ & Hst' & Hlife & Hscore & Hcf & _).
    exists s', l'. repeat (split; [done |]).
    split.
    { rewrite Hbody. destruct Hsn as (_ & h & rest & -> & _). done. }
    repeat (split; [done |]). split; [congruence | done].
  - destruct (snake_update_eats rnd s l Hst Hl Hrect Hsn Hfood Ht)
      as (s' & l' & Hrun & Hl' & Hrect' & Hsn' & Hfood' & Hbody & Hhp & Hdir
          & Hb & Hw & _ & Hst' & Hlife & Hscore & Hcf & _).
    exists s', l'. repeat (split; [done |]).
    split; [by rewrite Hbody |].
    repeat (split; [done |]). split; [congruence | done].
Qed.

Ltac tile_scan Hrect H p :=
  let Hin := fresh "Hin" in
  assert (Hin : in_bounds _ p) by (eapply in_bounds_tile; [exact Hrect | exact H]);
  apply all_cells_in_bounds in Hin; vm_compute in Hin;
  repeat (apply elem_of_cons in Hin as [-> | Hin];
          [first [reflexivity | vm_compute in H; discriminate] |]);
  by apply elem_of_nil in Hin.

Lemma demo_snake_on_level : snake_on_level demo_level (snake_obj eating_sim).
Proof.
  split; [apply NoDup_singleton |].
  exists (mkTilePos 1 1), []. split; [done |]. split; intros p; split.
  - intros H. tile_scan demo_level_rectangular H p.
  - by intros ->.
  - intros H. exfalso. tile_scan demo_level_rectangular H p.
  - by intros ?%elem_of_nil.
Qed.

Lemma demo_food_at_food_loc : food_at_food_loc demo_level.
Proof. intros p H. tile_scan demo_level_rectangular H p. Qed.

Lemma snake_update_keeps_the_snake_on_its_tiles_witness :
  ∃ s' l',
    snake_update 0 eating_sim = Ok s' ∧ current_level s' = Ok l' ∧
    rectangular l' ∧
    snake_on_level l' (snake_obj s') ∧ food_at_food_loc l' ∧
    body (snake_obj s') !! 0%nat = Some (next_pos eating_sim) ∧
    head_pos s' = next_pos eating_sim ∧ dir s' = next_dir eating_sim ∧
    (∀ q, in_bounds l' q ↔ in_bounds demo_level q) ∧
    same_walls demo_level l' ∧
    current_state s' = SNAKE_THINKING ∧
    current_life s' = current_life eating_sim ∧
    score s' = score eating_sim ∧ current_food s' = current_food eating_sim.
Proof.
  apply (snake_update_keeps_the_snake_on_its_tiles 0 eating_sim demo_level).
  - reflexivity.
  - reflexivity.
  - exact demo_level_rectangular.
  - exact demo_snake_on_level.
  - exact demo_food_at_food_loc.
  - vm_compute. reflexivity.
Defined.
(** ** The game loop *)

Lemma food_event_state c s s' :
  input_colision true c s = Ok s' →
  current_state s' = current_state s ∨ current_state s' = START_SCREEN
  ∨ current_state s' = GAME_WON.
Proof.
  unfold input_colision. intros H. case_match.
  - apply level_up_frame in H as (_ & _ & [-> | ->]); auto.
  - inversion H; subst. by left.
Qed.

Lemma input_colision_state f c s s' :
  input_colision f c s = Ok s' →
  after_thinking (current_state s) (current_state s').
Proof.
  intros H. unfold after_thinking. destruct f.
  - destruct (food_event_state c s s' H) as [-> | [-> | ->]]; auto.
  - destruct c.
    + destruct (input_colision_crash_frame s s' H) as [_ [-> | [-> | ->]]];
        auto 6.
    + inversion H; subst. by left.
Qed.

Lemma troca_state directions s s' :
  troca directions s = Ok s' →
  current_state s' = current_state s ∨ current_state s' = SNAKE_CRASHED
  ∨ current_state s' = GAME_OVER.
Proof.
  unfold troca. intros H. bind_inv H. bind_inv H.
  destruct a0 as [d |].
  - inversion H; subst. by left.
  - by destruct (input_colision_crash_frame s s' H) as [_ ?].
Qed.

Lemma after_thinking_trans a b c :
  after_thinking a b → after_thinking b c → after_thinking a c.
Proof. unfold after_thinking. intros Hab Hbc. intuition congruence. Qed.

Lemma breadthFirst_search_state directions s s' :
  breadthFirst_search directions s = Ok s' →
  after_thinking (current_state s) (current_state s').
Proof.
  unfold breadthFirst_search. intros H.
  bind_inv H. bind_inv H.
  case_bool_decide; [inversion H; subst; by left |].
  bind_inv H. bind_inv H.
  set (s1 := set_snake_obj
               (set_collision false (set_found_foods false (snake_obj s))) s)
    in *.
  change (current_state s) with (current_state s1).
  destruct a2 as [food_pos st | st |].
  - set (s2 := set_snake_obj (set_found_foods true (snake_obj s1)) s1) in *.
    change (current_state s1) with (current_state s2).
    apply bind_Ok in H. destruct H as (s3 & Hs3 & H).
    assert (H23 : after_thinking (current_state s2) (current_state s3)).
    { destruct (fila st).
      - destruct (troca_state _ _ _ Hs3) as [-> | [-> | ->]];
          unfold after_thinking; auto 6.
      - inversion Hs3; subst. by left. }
    eapply after_thinking_trans; [exact H23 |].
    destruct (found_foods (snake_obj s3)).
    + apply bind_Ok in H. destruct H as (nm & _ & H).
      destruct (pos_eqb nm (get_food_loc a)).
      * apply input_colision_state in H. exact H.
      * inversion H; subst. by left.
    + inversion H; subst. by left.
  - destruct (troca_state _ _ _ H) as [-> | [-> | ->]];
      unfold after_thinking; auto 6.
  - by apply input_colision_state in H.
Qed.

Lemma snake_thinking_state directions s s' :
  snake_thinking directions s = Ok s' →
  after_thinking (current_state s) (current_state s').
Proof.
  unfold snake_thinking. intros Hrun. case_bool_decide.
  - destruct (troca_state _ _ _ Hrun) as [-> | [-> | ->]];
      unfold after_thinking; auto 6.
  - by apply breadthFirst_search_state in Hrun.
Qed.

Lemma input_process_state b s s' :
  input_process b s = Ok s' →
  current_state s' = current_state s ∨ current_state s' = SNAKE_THINKING
  ∨ current_state s' = GAME_OVER.
Proof.
  unfold input_process. intros H.
  repeat case_match; try (inversion H; subst; simpl; by auto).
  all: apply bind_Ok in H; destruct H as (s1 & _ & H);
    case_match; inversion H; subst; simpl; auto.
Qed.

Lemma render_state s r :
  render s = Ok r →
  match r with
  | Shown s' =>
      current_state s ≠ GAME_WON ∧ current_state s ≠ GAME_OVER ∧
      current_state s' = (if bool_decide (current_state s = GAME_RUNNING)
                          then SNAKE_THINKING else current_state s)
  | Exited code =>
      (code = EXIT_SUCCESS ∧ current_state s = GAME_WON) ∨
      (code = EXIT_FAILURE ∧ current_state s = GAME_OVER)
  end.
Proof.
  unfold render, print_welcome, print_maze, print_snake_crashed, print_level_up.
  intros H. destruct (current_state s) eqn:Hst;
    try (inversion H; subst; by auto).
  all: apply bind_Ok in H; destruct H as (s1 & Hs1 & H);
    apply bind_Ok in Hs1; destruct Hs1 as (u & _ & Hs1);
    inversion Hs1; subst; inversion H; subst; simpl; by rewrite ?Hst.
Qed.

Lemma update_state rnd s s' :
  update rnd s = Ok s' →
  current_state s ≠ LEVEL_UP →
  current_state s' =
    match current_state s with
    | START => WELCOME
    | WELCOME => START_SCREEN
    | SNAKE_THINKING => GAME_RUNNING
    | st => st
    end.
Proof.
  unfold update. intros H Hne.
  destruct (current_state s) eqn:Hst; try (inversion H; subst; simpl; by auto).
  apply bind_Ok in H. destruct H as (s1 & _ & H). by inversion H.
Qed.

Lemma process_events_state directions b s s' :
  process_events directions b s = Ok s' →
  loop_state (current_state s) →
  loop_state (current_state s') ∨ current_state s' = GAME_WON
  ∨ current_state s' = GAME_OVER.
Proof.
  unfold process_events. intros H Hloop. case_match; [done |].
  unfold loop_state in *.
  destruct (current_state s) eqn:Hst;
    try (inversion H; subst; rewrite Hst; by auto 10);
    try (destruct Hloop as [? | [? | [? | [? | ?]]]]; done).
  - destruct (input_process_state _ _ _ H) as [-> | [-> | ->]];
      rewrite ?Hst; auto 10.
  - apply snake_thinking_state in H. rewrite Hst in H.
    destruct H as [-> | [-> | [-> | [-> | ->]]]]; auto 10.
  - destruct (input_process_state _ _ _ H) as [-> | [-> | ->]];
      rewrite ?Hst; auto 10.
Qed.

Lemma turn_state i s r :
  turn i s = Ok r → loop_state (current_state s) →
  match r with
  | Shown s' => loop_state (current_state s')
                ∧ current_state s' ≠ START
  | Exited _ => True
  end.
Proof.
  unfold turn. intros H Hloop.
  apply bind_Ok in H. destruct H as (s1 & Hs1 & H).
  apply bind_Ok in H. destruct H as (s2 & Hs2 & H).
  destruct r as [s' |]; [| done].
  apply render_state in H. destruct H as (Hw & Ho & Hs').
  apply process_events_state in Hs1; [| done].
  assert (Hne : current_state s1 ≠ LEVEL_UP).
  { unfold loop_state in Hs1. intros Heq. rewrite Heq in Hs1.
    intuition discriminate. }
  apply update_state in Hs2; [| done].
  unfold loop_state in *. rewrite Hs', Hs2. rewrite Hs2 in Hw, Ho.
  destruct (current_state s1); simpl in *;
    try (intuition discriminate); try done;
    split; (auto 10 || discriminate).
Qed.

Lemma game_loop_states inputs : ∀ s r,
  loop_state (current_state s) → game_loop inputs s = Ok r →
  match r with
  | Running s' => loop_state (current_state s')
  | Returned _ => False
  | Ended _ => True
  end.
Proof.
  induction inputs as [| i inputs IH]; intros s r Hloop H.
  - simpl in H. unfold is_over in H. case_bool_decide as Hover.
    + unfold loop_state in Hloop. rewrite Hover in Hloop.
      intuition discriminate.
    + by inversion H; subst.
  - cbn [game_loop] in H. unfold is_over in H. case_bool_decide as Hover.
    + unfold loop_state in Hloop. rewrite Hover in Hloop.
      intuition discriminate.
    + apply bind_Ok in H. destruct H as (f & Hf & H).
      pose proof (turn_state i s f Hf Hloop) as Hturn.
      destruct f as [s1 | code].
      * apply (IH s1 r); [apply Hturn | done].
      * by inversion H; subst.
Qed.

Lemma initialize_arg_frame a s s' :
  initialize_arg a s = Ok s' →
  current_state s' = current_state s ∧ current_life s' = current_life s ∧
  next_pos s' = next_pos s ∧ score s' = score s ∧
  current_food s' = current_food s ∧
  current_level_index s' = current_level_index s ∧
  (fps s ≠ 0%Z → fps s' ≠ 0%Z) ∧
  (levels s ≠ [] → levels s' ≠ []) ∧
  (is_level_file a = true → levels s' ≠ []) ∧
  (is_level_file a = false → levels s' = levels s).
Proof.
  unfold initialize_arg, checked_number. intros H.
  destruct a as [| t | t | t | | | | loaded]; try done.
  - destruct t as [v |]; [| done].
    destruct (2 ^ 31 - 1 <? v); [done |].
    destruct (N.eqb_spec v 0); [done |]. inversion H; subst. simpl.
    repeat split; try done. lia.
  - destruct t as [v |]; [| done].
    destruct (2 ^ 31 - 1 <? v); [done |].
    destruct (v =? 0); [done |]. inversion H; subst. simpl.
    repeat split; done.
  - destruct t as [v |]; [| done].
    destruct (2 ^ 31 - 1 <? v); [done |].
    destruct (v =? 0); [done |]. inversion H; subst. simpl.
    repeat split; done.
  - inversion H; subst. simpl. repeat split; done.
  - inversion H; subst. repeat split; done.
  - destruct loaded as [loaded |]; [| done].
    destruct (levels (set_levels (levels s ++ loaded) s)) eqn:Hlv; [done |].
    apply bind_Ok in H. destruct H as (lv0 & Hlv0 & H).
    apply bind_Ok in H. destruct H as (lv1 & Hlv1 & H).
    inversion H; subst. simpl in *.
    assert (Hne : <[Z.to_nat (current_level_index s) := lv1]> (levels s ++ loaded)
                  ≠ []).
    { intros Hnil. apply (f_equal length) in Hnil.
      rewrite length_insert, Hlv in Hnil. done. }
    repeat split; done.
Qed.

Lemma initialize_frame args s s' :
  initialize args s = Ok s' →
  current_state s' = current_state s ∧ current_life s' = current_life s ∧
  next_pos s' = next_pos s ∧ score s' = score s ∧
  current_food s' = current_food s ∧
  current_level_index s' = current_level_index s ∧
  (fps s ≠ 0%Z → fps s' ≠ 0%Z) ∧
  (levels s ≠ [] → levels s' ≠ []) ∧
  (existsb is_level_file args = true → levels s' ≠ []) ∧
  (existsb is_level_file args = false → levels s' = levels s).
Proof.
  unfold initialize. destruct args as [| a0 args0]; [done |].
  generalize (a0 :: args0). clear a0 args0. intros args. revert s.
  induction args as [| a args IH]; intros s H.
  - simpl in H. inversion H; subst. repeat split; done.
  - simpl in H. apply bind_Ok in H. destruct H as (s1 & Hs1 & H).
    destruct (initialize_arg_frame a s s1 Hs1)
      as (Hst & Hlife & Hnp & Hsc & Hcf & Hidx & Hfps & Hlv & Hfile & Hnofile).
    destruct (IH s1 H)
      as (Hst' & Hlife' & Hnp' & Hsc' & Hcf' & Hidx' & Hfps' & Hlv' & Hfile'
          & Hnofile').
    split; [congruence |]. split; [congruence |]. split; [congruence |].
    split; [congruence |]. split; [congruence |]. split; [congruence |].
    split; [auto |]. split; [auto |]. simpl. split.
    + intros [Ha | Hargs]%orb_true_iff; auto.
    + intros [Ha Hargs]%orb_false_iff. rewrite Hnofile', Hnofile; auto.
Qed.

(** X14.  The game loop never ends through its own test: started from
    the constructed and initialised simulation, whatever the command line,
    the keys pressed and the random draws, [main] never returns through
    [is_over]; the process ends only in a call of [exit] (or in a fault).
    A turn that begins in one of the five states [START], [WELCOME],
    [START_SCREEN], [SNAKE_THINKING], [SNAKE_CRASHED] ends in one of them:
    [GAME_RUNNING], [LEVEL_UP], [GAME_WON] and [GAME_OVER] are never
    seen at the head of the loop. *)
Theorem game_loop_ends_only_by_exit
    (dir0 : direction) (args : list cli_arg) (inputs : list turn_input)
    (r : run) :
  snaze_main dir0 args inputs = Ok r →
  match r with
  | Running s' => loop_state (current_state s') ∧ is_over s' = false
  | Returned _ => False
  | Ended _ => True
  end.
Proof.
  unfold snaze_main. intros H. apply bind_Ok in H. destruct H as (s & Hs & H).
  apply initialize_frame in Hs as (Hst & _).
  assert (Hloop : loop_state (current_state s)) by (rewrite Hst; by left).
  pose proof (game_loop_states inputs s r Hloop H) as Hr.
  destruct r as [s' | s' | code]; [| done | done].
  split; [done |]. unfold is_over. apply bool_decide_eq_false_2.
  intros Heq. unfold loop_state in Hr. rewrite Heq in Hr.
  intuition discriminate.
Qed.

Lemma game_loop_ends_only_by_exit_witness :
  match demo_run with
  | Running s' => loop_state (current_state s') ∧ is_over s' = false
  | Returned _ => False
  | Ended _ => True
  end.
Proof.
  apply (game_loop_ends_only_by_exit right [arg_file (Some [demo_level])]
           demo_inputs demo_run).
  vm_compute. reflexivity.
Defined.

Lemma read_maze_total b s l :
  current_level s = Ok l → rectangular l → read_maze b s = Ok tt.
Proof.
  intros Hl Hrect. unfold read_maze. rewrite Hl. res_simpl.
  destruct (for_each_total (fun _ : unit => True) (size_range (n_rows l))
              (fun i _ =>
                 nc ← n_cols l;
                 for_each (size_range nc) (fun j _ =>
                   if b && pos_eqb (mkTilePos i j) (get_spawn_loc l)
                   then Ok tt
                   else _ ← get_tile_type l (mkTilePos i j); Ok tt) tt))
    with (s := tt) as ([] & Hrun & _); [| done | exact Hrun].
  intros i [] Hi _. apply elem_of_size_range in Hi.
  rewrite (n_cols_width l) by (by eapply nonempty_of_row). res_simpl.
  apply for_each_total; [| done].
  intros j [] Hj _. apply elem_of_size_range in Hj.
  destruct (b && _); [by exists tt |].
  destruct (at2_in_bounds l (mkTilePos i j) Hrect) as [t Ht]; [done |].
  rewrite Ht. res_simpl. by exists tt.
Qed.

Lemma read_maze_no_level b s :
  current_level s = Fail UndefinedBehaviour →
  read_maze b s = Fail UndefinedBehaviour.
Proof. intros Hl. unfold read_maze. by rewrite Hl. Qed.

(** X15.  Started without a readable level file on the command line, the
    program never gets past its first turn: either [initialize] ends the
    process, or it returns with no level loaded and the first [render]
    (the welcome screen) reads [levels[0]] of an empty vector. *)
Theorem main_without_level_file_is_undefined
    (dir0 : direction) (args : list cli_arg) (i : turn_input)
    (inputs : list turn_input) :
  existsb is_level_file args = false →
  snaze_main dir0 args (i :: inputs) = Fail ProcessExit ∨
  snaze_main dir0 args (i :: inputs) = Fail UndefinedBehaviour.
Proof.
  intros Hnofile. unfold snaze_main.
  destruct (initialize args (SnazeSimulation_ctor dir0)) as [s | f] eqn:Hs.
  - right. res_simpl.
    destruct (initialize_frame _ _ _ Hs)
      as (Hst & _ & _ & _ & _ & Hidx & Hfps & _ & _ & Hlv).
    specialize (Hlv Hnofile). simpl in Hst, Hidx, Hlv.
    assert (Hfps' : fps s ≠ 0%Z) by (apply Hfps; done).
    cbn [game_loop]. unfold is_over.
    rewrite bool_decide_eq_false_2 by (by rewrite Hst).
    unfold turn, process_events.
    apply Z.eqb_neq in Hfps'. rewrite Hfps', Hst. res_simpl.
    unfold update. rewrite Hst. res_simpl.
    unfold render. cbn [current_state set_current_state].
    unfold print_welcome.
    rewrite read_maze_no_level; [done |].
    unfold current_level. simpl. rewrite Hidx, Hlv. done.
  - left. res_simpl.
    assert (f = ProcessExit); [| by subst].
    clear -Hs Hnofile. unfold initialize in Hs.
    destruct args as [| a0 args0]; [by inversion Hs |].
    revert Hs Hnofile. generalize (a0 :: args0) (SnazeSimulation_ctor dir0).
    clear. intros args. induction args as [| a args IH]; intros s Hs Hno.
    + done.
    + simpl in Hs, Hno. apply orb_false_iff in Hno as [Ha Hargs].
      destruct (initialize_arg a s) as [s1 | f1] eqn:Ha1.
      * simpl in Hs. by apply (IH s1).
      * simpl in Hs. inversion Hs; subst f1. clear Hs.
        unfold initialize_arg, checked_number in Ha1.
        destruct a as [| t | t | t | | | | loaded]; try done;
          try (by inversion Ha1);
          try (destruct t as [v |];
               [destruct (2 ^ 31 - 1 <? v); [by inversion Ha1 |];
                destruct (v =? 0); by inversion Ha1
               | by inversion Ha1]).
        destruct loaded; [done | by inversion Ha1].
Qed.

Lemma main_without_level_file_is_undefined_witness :
  snaze_main right [arg_fps (digits 5)] demo_inputs = Fail ProcessExit ∨
  snaze_main right [arg_fps (digits 5)] demo_inputs = Fail UndefinedBehaviour.
Proof.
  apply (main_without_level_file_is_undefined right [arg_fps (digits 5)]
           (mkTurn [up; right; down; left] true 0)
           (replicate 4 (mkTurn [up; right; down; left] true 0))).
  reflexivity.
Defined.
Lemma crashed_on_tile l p t :
  rectangular l → get_tile_type l p = Ok t →
  crashed l p = Ok (bool_decide (t ≠ EMPTY) && bool_decide (t ≠ FOOD)).
Proof.
  intros Hrect Ht.
  destruct (crashed_inside l p Hrect) as (t' & Ht' & ->);
    [by eapply in_bounds_tile |].
  rewrite Ht in Ht'. by inversion Ht'.
Qed.

Lemma blocked_commit_turn rnd s l :
  current_state s = SNAKE_THINKING →
  current_level s = Ok l → rectangular l →
  in_bounds l (next_pos s) → crashed l (next_pos s) = Ok true →
  update rnd s ≫= render = Ok (Shown s).
Proof.
  intros Hst Hl Hrect Hin Hc.
  destruct (at2_in_bounds l (next_pos s) Hrect Hin) as [t Ht].
  rewrite (update_after_blocked_commit rnd s l t Hst Hl Ht Hc). res_simpl.
  unfold render. cbn [current_state set_current_state]. unfold print_maze.
  rewrite (read_maze_total false _ l) by done. res_simpl.
  destruct s; simpl in *; by subst.
Qed.

(** X16.  Pressing Enter on the start screen, or after a crash, starts
    the thinking without a move.  The turn commits [next_pos] as it stands,
    before any search has run; when that cell blocks (after [respawn] it is
    the spawn cell, under the head), the commit is dropped and the state
    set by it is overwritten, so the turn changes the state only; after a
    crash it is the respawned simulation that starts thinking. *)
Theorem enter_starts_thinking_without_a_move
    (i : turn_input) (s : SnazeSimulation) (l : Level) :
  turn_enter i = true → fps s ≠ 0%Z →
  current_level s = Ok l → rectangular l →
  (current_state s = START_SCREEN →
   in_bounds l (next_pos s) → crashed l (next_pos s) = Ok true →
   turn i s = Ok (Shown (set_current_state SNAKE_THINKING s))) ∧
  (current_state s = SNAKE_CRASHED →
   in_bounds l (m_spawn_loc l) → current_life s ≠ 0%Z →
   ∃ s1, respawn s = Ok s1 ∧
         turn i s = Ok (Shown (set_current_state SNAKE_THINKING s1))).
Proof.
  intros Henter Hfps Hl Hrect. apply Z.eqb_neq in Hfps. split.
  - intros Hst Hin Hc. unfold turn, process_events, input_process.
    rewrite Hfps, Hst, Henter. cbn [bool_decide decide_rel andb]. res_simpl.
    rewrite bool_decide_eq_true_2 by done. cbn [andb]. res_simpl.
    apply (blocked_commit_turn _ (set_current_state SNAKE_THINKING s) l);
      done.
  - intros Hst Hin Hlife.
    destruct (respawn_spec s l Hl Hrect Hin)
      as (s1 & l1 & Hs1 & Hl1 & Hrect1 & Heq & Hsp & _ & Hb & Hget & _).
    exists s1. split; [done |].
    unfold turn, process_events, input_process.
    rewrite Hfps, Hst, Henter.
    rewrite (bool_decide_eq_false_2 (SNAKE_CRASHED = START_SCREEN)) by done.
    rewrite (bool_decide_eq_false_2 (SNAKE_CRASHED = LEVEL_UP)) by done.
    rewrite (bool_decide_eq_true_2 (SNAKE_CRASHED = SNAKE_CRASHED)) by done.
    cbn [andb]. rewrite Hs1. res_simpl.
    assert (Hlife1 : current_life s1 = current_life s) by (by subst s1).
    rewrite Hlife1. apply Z.eqb_neq in Hlife. rewrite Hlife. res_simpl.
    assert (Hnp : next_pos s1 = m_spawn_loc l) by (by subst s1).
    assert (Hhead : get_tile_type l1 (m_spawn_loc l) = Ok SNAKE_HEAD).
    { destruct (at2_in_bounds l _ Hrect Hin) as [t Ht].
      rewrite (Hget _ t Ht). by rewrite decide_True. }
    apply (blocked_commit_turn _ (set_current_state SNAKE_THINKING s1) l1);
      try done.
    + simpl. rewrite Hnp. by apply Hb.
    + simpl. rewrite Hnp. by rewrite (crashed_on_tile l1 _ _ Hrect1 Hhead).
Qed.

Lemma enter_starts_thinking_without_a_move_witness :
  (current_state (demo_sim START_SCREEN) = START_SCREEN →
   in_bounds demo_level (next_pos (demo_sim START_SCREEN)) →
   crashed demo_level (next_pos (demo_sim START_SCREEN)) = Ok true →
   turn enter (demo_sim START_SCREEN)
   = Ok (Shown (set_current_state SNAKE_THINKING (demo_sim START_SCREEN)))) ∧
  (current_state (demo_sim START_SCREEN) = SNAKE_CRASHED →
   in_bounds demo_level (m_spawn_loc demo_level) →
   current_life (demo_sim START_SCREEN) ≠ 0%Z →
   ∃ s1, respawn (demo_sim START_SCREEN) = Ok s1 ∧
         turn enter (demo_sim START_SCREEN)
         = Ok (Shown (set_current_state SNAKE_THINKING s1))).
Proof.
  apply (enter_starts_thinking_without_a_move enter (demo_sim START_SCREEN)
           demo_level).
  - reflexivity.
  - discriminate.
  - reflexivity.
  - exact demo_level_rectangular.
Defined.

(** X17.  The commit that follows Enter on the start screen checks no
    adjacency: when the cell held by [next_pos] is free, the head is put
    there, wherever it lies; [next_pos] is not computed in that turn. *)
Theorem enter_commits_next_pos_as_it_stands
    (i : turn_input) (s : SnazeSimulation) (l : Level) :
  turn_enter i = true → fps s ≠ 0%Z →
  current_state s = START_SCREEN →
  current_level s = Ok l → rectangular l →
  snake_on_level l (snake_obj s) → food_at_food_loc l →
  crashed l (next_pos s) = Ok false →
  ∃ s' l',
    turn i s = Ok (Shown s') ∧ current_state s' = SNAKE_THINKING ∧
    current_level s' = Ok l' ∧ head_pos s' = next_pos s ∧
    get_tile_type l' (next_pos s) = Ok SNAKE_HEAD ∧
    next_pos s' = next_pos s.
Proof.
  intros Henter Hfps Hst Hl Hrect Hsn Hfood Hc.
  apply Z.eqb_neq in Hfps.
  set (s1 := set_current_state SNAKE_THINKING s).
  assert (Hcommit : ∃ s2 l2,
            snake_update (turn_rnd i) s1 = Ok s2 ∧ current_level s2 = Ok l2 ∧
            rectangular l2 ∧ snake_on_level l2 (snake_obj s2) ∧
            body (snake_obj s2) !! 0%nat = Some (next_pos s) ∧
            head_pos s2 = next_pos s ∧ next_pos s2 = next_pos s).
  { destruct (not_crashed_tile l (next_pos s) Hrect Hc) as [_ [Ht | Ht]].
    - destruct (snake_update_moves (turn_rnd i) s1 l) as (s2 & l2 & H);
        try done.
      destruct H as (Hrun & Hl2 & Hrect2 & Hsn2 & _ & Hbody & Hhp & _ & _ & _
                     & _ & _ & _ & _ & _ & _ & Hnp).
      exists s2, l2. repeat (split; [done |]). split; [| done].
      rewrite Hbody. destruct Hsn as (_ & h & rest & Hb & _).
      simpl. by rewrite Hb.
    - destruct (snake_update_eats (turn_rnd i) s1 l) as (s2 & l2 & H);
        try done.
      destruct H as (Hrun & Hl2 & Hrect2 & Hsn2 & _ & Hbody & Hhp & _ & _ & _
                     & _ & _ & _ & _ & _ & Hnp).
      exists s2, l2. repeat (split; [done |]). split; [| done].
      by rewrite Hbody. }
  destruct Hcommit as (s2 & l2 & Hrun & Hl2 & Hrect2 & Hsn2 & Hb0 & Hhp & Hnp).
  exists (set_current_state SNAKE_THINKING s2), l2.
  split.
  - unfold turn, process_events, input_process.
    rewrite Hfps, Hst, Henter.
    rewrite bool_decide_eq_true_2 by done. cbn [andb]. res_simpl.
    unfold update. cbn [current_state set_current_state]. fold s1.
    rewrite Hrun. res_simpl.
    unfold render. cbn [current_state set_current_state]. unfold print_maze.
    rewrite (read_maze_total false _ l2) by done. res_simpl. done.
  - split; [done |]. split; [done |]. split; [done |]. split; [| done].
    destruct Hsn2 as (_ & h & rest & Hbody & Hhead & _).
    apply Hhead. rewrite Hbody in Hb0. simpl in Hb0. by inversion Hb0.
Qed.

Lemma open_corner_rectangular : rectangular open_corner_level.
Proof. unfold rectangular. simpl. repeat constructor. Qed.

Lemma open_corner_snake : snake_on_level open_corner_level (snake_obj open_corner_sim).
Proof.
  split; [apply NoDup_singleton |].
  exists (mkTilePos 0 2), []. split; [done |]. split; intros p; split.
  - intros H. tile_scan open_corner_rectangular H p.
  - by intros ->.
  - intros H. exfalso. tile_scan open_corner_rectangular H p.
  - by intros ?%elem_of_nil.
Qed.

Lemma open_corner_food : food_at_food_loc open_corner_level.
Proof. intros p H. tile_scan open_corner_rectangular H p. Qed.

Lemma enter_commits_next_pos_as_it_stands_witness :
  ∃ s' l',
    turn enter open_corner_sim = Ok (Shown s') ∧
    current_state s' = SNAKE_THINKING ∧
    current_level s' = Ok l' ∧ head_pos s' = next_pos open_corner_sim ∧
    get_tile_type l' (next_pos open_corner_sim) = Ok SNAKE_HEAD ∧
    next_pos s' = next_pos open_corner_sim.
Proof.
  apply (enter_commits_next_pos_as_it_stands enter open_corner_sim
           open_corner_level).
  - reflexivity.
  - discriminate.
  - reflexivity.
  - reflexivity.
  - exact open_corner_rectangular.
  - exact open_corner_snake.
  - exact open_corner_food.
  - vm_compute. reflexivity.
Defined.
(** ** Levels, start-up and dropped commits *)

Lemma respawn_on_level s l :
  current_level s = Ok l → rectangular l → in_bounds l (m_spawn_loc l) →
  ∃ s' l',
    respawn s = Ok s' ∧ current_level s' = Ok l' ∧ rectangular l' ∧
    s' = set_next_pos (m_spawn_loc l) (set_head_pos (m_spawn_loc l)
           (set_snake_obj
              (mkSnake [m_spawn_loc l] false false
                 (wall_collision (snake_obj s)))
              (store_current_level l' s))) ∧
    m_spawn_loc l' = m_spawn_loc l ∧
    snake_on_level l' (snake_obj s').
Proof.
  intros Hl Hrect Hin.
  destruct (respawn_spec s l Hl Hrect Hin)
    as (s' & l' & Hrun & Hl' & Hrect' & -> & Hsp & Hfd & Hb & Hget & _).
  eexists _, l'. split; [exact Hrun |]. split; [exact Hl' |].
  split; [done |]. split; [done |]. split; [done |]. simpl.
  split; [apply NoDup_singleton |].
  exists (m_spawn_loc l), []. split; [done |].
  assert (Htile : ∀ p t', get_tile_type l' p = Ok t' →
            ∃ t, get_tile_type l p = Ok t ∧
                 t' = if decide (p = m_spawn_loc l) then SNAKE_HEAD
                      else without_snake t).
  { intros p t' Hp.
    destruct (at2_in_bounds l p Hrect) as [t Ht].
    { apply Hb. by eapply in_bounds_tile. }
    exists t. split; [done |]. rewrite (Hget p t Ht) in Hp. by inversion Hp. }
  split; intros p; split.
  - intros Hp. destruct (Htile p _ Hp) as (t & _ & Heq).
    destruct (decide (p = m_spawn_loc l)); [done |].
    by destruct (without_snake_no_snake t) as [? _].
  - intros ->. destruct (at2_in_bounds l _ Hrect Hin) as [t Ht].
    rewrite (Hget _ t Ht). by rewrite decide_True.
  - intros Hp. destruct (Htile p _ Hp) as (t & _ & Heq).
    destruct (decide (p = m_spawn_loc l)); [done |].
    by destruct (without_snake_no_snake t) as [_ ?].
  - by intros ?%elem_of_nil.
Qed.

(** X18.  [level_up] on the last level sets [GAME_WON] and changes
    nothing else.  Otherwise, when the next level is rectangular with its
    spawn cell inside, it returns on the start screen of that level: the
    index is advanced, the food counter is 0, the snake is the spawn cell
    alone and agrees with the tiles of the level, [head_pos] and [next_pos]
    are the spawn cell, and the score, the lives and the other levels are
    untouched. *)
Theorem level_up_enters_the_next_level_or_wins (s : SnazeSimulation) :
  (¬ (int_wrap (current_level_index s + 1)
      < int_wrap (Z.of_nat (length (levels s))))%Z →
   level_up s = Ok (set_current_state GAME_WON s)) ∧
  (∀ l,
     (int_wrap (current_level_index s + 1)
      < int_wrap (Z.of_nat (length (levels s))))%Z →
     current_level
       (set_current_level_index (int_wrap (current_level_index s + 1)) s)
     = Ok l →
     rectangular l → in_bounds l (m_spawn_loc l) →
     ∃ s' l',
       level_up s = Ok s' ∧ current_state s' = START_SCREEN ∧
       current_level_index s' = int_wrap (current_level_index s + 1) ∧
       current_food s' = 0%Z ∧
       current_level s' = Ok l' ∧ rectangular l' ∧
       snake_on_level l' (snake_obj s') ∧
       body (snake_obj s') = [m_spawn_loc l] ∧
       head_pos s' = m_spawn_loc l ∧ next_pos s' = m_spawn_loc l ∧
       score s' = score s ∧ current_life s' = current_life s ∧
       ∀ j, j ≠ Z.to_nat (current_level_index s') →
            levels s' !! j = levels s !! j).
Proof.
  split.
  - intros Hge. unfold level_up.
    destruct (Z.ltb_spec (int_wrap (current_level_index s + 1))
                (int_wrap (Z.of_nat (length (levels s))))); [done | done].
  - intros l Hlt Hl Hrect Hin. unfold level_up.
    destruct (Z.ltb_spec (int_wrap (current_level_index s + 1))
                (int_wrap (Z.of_nat (length (levels s))))) as [_ | ?]; [| lia].
    rewrite Hl. res_simpl.
    destruct (set_tile_type_total SNAKE_HEAD (m_spawn_loc l) l Hrect Hin)
      as [la Hla].
    destruct (set_tile_type_spec _ _ _ _ Hrect Hla)
      as (Hrecta & _ & Hspa & _ & Hnra & Hwa & _).
    unfold reset, get_spawn_loc. rewrite Hla. res_simpl.
    set (s1 := set_current_level_index
                 (int_wrap (current_level_index s + 1)) s) in *.
    set (s2 := print_maze_in_lv (reset_food (set_snake_obj _ _))).
    assert (Hl2 : current_level s2 = Ok la).
    { apply (current_level_store s1 la l Hl). }
    destruct (respawn_on_level s2 la Hl2 Hrecta)
      as (s3 & l3 & Hrun & Hl3 & Hrect3 & Heq & Hsp3 & Hsn3).
    { rewrite Hspa. by apply (same_bounds l la Hnra Hwa). }
    rewrite Hrun. res_simpl.
    exists (set_current_state START_SCREEN s3), l3.
    split; [done |]. rewrite Heq in *. simpl.
    split; [done |]. split; [done |]. split; [done |].
    split; [exact Hl3 |]. split; [done |]. split; [exact Hsn3 |].
    rewrite Hspa.
    split; [done |]. split; [done |]. split; [done |]. split; [done |].
    split; [done |].
    intros j Hj. rewrite !list_lookup_insert_ne by done. done.
Qed.

Lemma level_up_enters_the_next_level_or_wins_witness :
  ∃ s' l',
    level_up two_level_sim = Ok s' ∧ current_state s' = START_SCREEN ∧
    current_level_index s'
    = int_wrap (current_level_index two_level_sim + 1) ∧
    current_food s' = 0%Z ∧
    current_level s' = Ok l' ∧ rectangular l' ∧
    snake_on_level l' (snake_obj s') ∧
    body (snake_obj s') = [m_spawn_loc second_level] ∧
    head_pos s' = m_spawn_loc second_level ∧
    next_pos s' = m_spawn_loc second_level ∧
    score s' = score two_level_sim ∧
    current_life s' = current_life two_level_sim ∧
    ∀ j, j ≠ Z.to_nat (current_level_index s') →
         levels s' !! j = levels two_level_sim !! j.
Proof.
  apply (proj2 (level_up_enters_the_next_level_or_wins two_level_sim)
           second_level).
  - vm_compute. reflexivity.
  - reflexivity.
  - unfold rectangular. simpl. repeat constructor.
  - split; reflexivity.
Defined.

(** X19.  [update] overwrites the state that the commit leaves: in the
    thinking state it always ends in [GAME_RUNNING], so the [GAME_OVER]
    that [snake_update] sets on a blocked proposal is never seen by
    [is_over]; with the board drawn, the turn has then changed nothing at
    all. *)
Theorem update_overwrites_the_state_of_the_commit
    (rnd : nat) (s : SnazeSimulation) :
  current_state s = SNAKE_THINKING →
  (∀ s', update rnd s = Ok s' →
         current_state s' = GAME_RUNNING ∧ is_over s' = false) ∧
  (∀ l, current_level s = Ok l → rectangular l →
        in_bounds l (next_pos s) → crashed l (next_pos s) = Ok true →
        snake_update rnd s = Ok (set_current_state GAME_OVER s) ∧
        update rnd s = Ok (set_current_state GAME_RUNNING s) ∧
        update rnd s ≫= render = Ok (Shown s)).
Proof.
  intros Hst. split.
  - intros s' H. unfold update in H. rewrite Hst in H.
    apply bind_Ok in H. destruct H as (s1 & _ & H). inversion H; subst.
    split; [done |]. unfold is_over. by apply bool_decide_eq_false_2.
  - intros l Hl Hrect Hin Hc.
    destruct (at2_in_bounds l (next_pos s) Hrect Hin) as [t Ht].
    split; [by eapply snake_update_blocked |].
    split; [by eapply update_after_blocked_commit |].
    by eapply blocked_commit_turn.
Qed.

Lemma update_overwrites_the_state_of_the_commit_witness :
  (∀ s', update 0 doomed_sim = Ok s' →
         current_state s' = GAME_RUNNING ∧ is_over s' = false) ∧
  (∀ l, current_level doomed_sim = Ok l → rectangular l →
        in_bounds l (next_pos doomed_sim) →
        crashed l (next_pos doomed_sim) = Ok true →
        snake_update 0 doomed_sim = Ok (set_current_state GAME_OVER doomed_sim) ∧
        update 0 doomed_sim = Ok (set_current_state GAME_RUNNING doomed_sim) ∧
        update 0 doomed_sim ≫= render = Ok (Shown doomed_sim)).
Proof.
  apply (update_overwrites_the_state_of_the_commit 0 doomed_sim).
  reflexivity.
Defined.

Lemma initialize_arg_at_spawn a s s' :
  initialize_arg a s = Ok s' →
  (is_level_file a = true → at_spawn s' ∧ dir s' = right) ∧
  (at_spawn s ∧ dir s = right → at_spawn s' ∧ dir s' = right).
Proof.
  unfold initialize_arg, checked_number. intros H.
  destruct a as [| t | t | t | | | | loaded]; try done;
    try (destruct t as [v |]; [| done];
         destruct (2 ^ 31 - 1 <? v); [done |];
         destruct (v =? 0); [done |]; inversion H; subst;
         split; [done | by intros [? ?]]);
    try (inversion H; subst; split; [done | by intros [? ?]]).
  destruct loaded as [loaded |]; [| done].
  destruct (levels (set_levels (levels s ++ loaded) s)) eqn:Hlv; [done |].
  apply bind_Ok in H. destruct H as (lv0 & Hlv0 & H).
  apply bind_Ok in H. destruct H as (lv1 & Hlv1 & H).
  inversion H; subst s'. clear H.
  assert (Hgoal : at_spawn
            (set_snake_obj
               (init (head_pos (set_dir right
                        (set_head_pos (get_spawn_loc lv0)
                           (set_levels (levels s ++ loaded) s))))
                  (snake_obj (set_dir right
                     (set_head_pos (get_spawn_loc lv0)
                        (set_levels (levels s ++ loaded) s)))))
               (store_current_level lv1
                  (set_dir right
                     (set_head_pos (get_spawn_loc lv0)
                        (set_levels (levels s ++ loaded) s)))))).
  { exists lv1. split.
    - apply (current_level_store _ lv1 lv0). exact Hlv0.
    - unfold set_tile_type in Hlv1. apply bind_Ok in Hlv1.
      destruct Hlv1 as (m & Hm & Hlv1). inversion Hlv1; subst lv1.
      simpl in *. unfold get_spawn_loc in *.
      split; [done |]. split; [done |].
      unfold get_tile_type. simpl.
      rewrite (at2_set2 _ _ _ (m_spawn_loc lv0) _ Hm). by rewrite decide_True. }
  split; [done | by intros _].
Qed.

Lemma initialize_at_spawn args : ∀ s s',
  for_each args initialize_arg s = Ok s' →
  (existsb is_level_file args = true → at_spawn s' ∧ dir s' = right) ∧
  (at_spawn s ∧ dir s = right → at_spawn s' ∧ dir s' = right).
Proof.
  induction args as [| a args IH]; intros s s' H.
  - simpl in H. inversion H; subst. done.
  - simpl in H. apply bind_Ok in H. destruct H as (s1 & Hs1 & H).
    destruct (initialize_arg_at_spawn a s s1 Hs1) as [Hfile Hkeep].
    destruct (IH s1 s' H) as [Hfile' Hkeep'].
    split.
    + simpl. intros [Ha | Hargs]%orb_true_iff; auto.
    + auto.
Qed.

(** X20.  What [initialize] leaves when it returns: the state is still
    [START], [current_life] is still the 5 of its initialiser (whatever
    [--lives] said), [next_pos] is still (0,0), score, food counter and
    level index are 0 and [fps] is not 0.  With a level file among the
    arguments the snake stands on the spawn cell of the first level, which
    holds [SNAKE_HEAD], facing right; without one no level is loaded. *)
Theorem initialize_sets_up_the_first_level
    (dir0 : direction) (args : list cli_arg) (s : SnazeSimulation) :
  initialize args (SnazeSimulation_ctor dir0) = Ok s →
  current_state s = START ∧ current_life s = 5%Z ∧
  next_pos s = mkTilePos 0 0 ∧ score s = 0%Z ∧ current_food s = 0%Z ∧
  current_level_index s = 0%Z ∧ fps s ≠ 0%Z ∧
  (existsb is_level_file args = true → at_spawn s ∧ dir s = right) ∧
  (existsb is_level_file args = false → levels s = []).
Proof.
  intros H.
  destruct (initialize_frame _ _ _ H)
    as (Hst & Hlife & Hnp & Hsc & Hcf & Hidx & Hfps & _ & _ & Hlv).
  repeat (split; [done |]). split; [by apply Hfps |].
  split; [| exact Hlv].
  unfold initialize in H. destruct args as [| a0 args0]; [done |].
  exact (proj1 (initialize_at_spawn _ _ _ H)).
Qed.

Lemma initialize_sets_up_the_first_level_witness :
  ∃ s,
    initialize [arg_lives (digits 1); arg_file (Some [demo_level])]
      (SnazeSimulation_ctor right) = Ok s ∧
    current_state s = START ∧ current_life s = 5%Z ∧
    next_pos s = mkTilePos 0 0 ∧ score s = 0%Z ∧ current_food s = 0%Z ∧
    current_level_index s = 0%Z ∧ fps s ≠ 0%Z ∧
    (existsb is_level_file [arg_lives (digits 1); arg_file (Some [demo_level])]
     = true → at_spawn s ∧ dir s = right) ∧
    (existsb is_level_file [arg_lives (digits 1); arg_file (Some [demo_level])]
     = false → levels s = []).
Proof.
  eexists. split; [vm_compute; reflexivity |].
  apply (initialize_sets_up_the_first_level right
           [arg_lives (digits 1); arg_file (Some [demo_level])]).
  vm_compute. reflexivity.
Defined.
(** ** A turn of thinking *)

Lemma snake_on_level_body l sn sn' :
  body sn = body sn' → snake_on_level l sn → snake_on_level l sn'.
Proof. unfold snake_on_level. by intros ->. Qed.

Lemma snake_update_commits rnd s l :
  current_state s = SNAKE_THINKING →
  current_level s = Ok l → rectangular l →
  snake_on_level l (snake_obj s) → food_at_food_loc l →
  crashed l (next_pos s) = Ok false →
  ∃ s' l',
    snake_update rnd s = Ok s' ∧ current_level s' = Ok l' ∧ rectangular l' ∧
    snake_on_level l' (snake_obj s') ∧ food_at_food_loc l' ∧
    body (snake_obj s') !! 0%nat = Some (next_pos s) ∧
    head_pos s' = next_pos s ∧ dir s' = next_dir s ∧
    (∀ q, in_bounds l' q ↔ in_bounds l q) ∧ same_walls l l' ∧
    current_state s' = SNAKE_THINKING ∧ current_life s' = current_life s ∧
    score s' = score s ∧ current_food s' = current_food s ∧
    next_pos s' = next_pos s.
Proof.
  intros Hst Hl Hrect Hsn Hfood Hc.
  destruct (not_crashed_tile l (next_pos s) Hrect Hc) as [_ [Ht | Ht]].
  - destruct (snake_update_moves rnd s l Hst Hl Hrect Hsn Hfood Ht)
      as (s' & l' & Hrun & Hl' & Hrect' & Hsn' & Hfood' & Hbody & Hhp & Hdir
          & Hb & Hw & _ & _ & Hst' & Hlife & Hscore & Hcf & Hnp).
    exists s', l'. repeat (split; [done |]).
    split.
    { rewrite Hbody. destruct Hsn as (_ & h & rest & -> & _). done. }
    repeat (split; [done |]). split; [congruence | done].
  - destruct (snake_update_eats rnd s l Hst Hl Hrect Hsn Hfood Ht)
      as (s' & l' & Hrun & Hl' & Hrect' & Hsn' & Hfood' & Hbody & Hhp & Hdir
          & Hb & Hw & _ & Hst' & Hlife & Hscore & Hcf & Hnp).
    exists s', l'. repeat (split; [done |]).
    split; [by rewrite Hbody |].
    repeat (split; [done |]). split; [congruence | done].
Qed.

Lemma direction_of_index i :
  (i < 4)%nat → ∃ d, ∀ p, offset p i = move p d.
Proof.
  intros Hi. destruct i as [| [| [| [| i]]]]; try lia.
  - by exists up.
  - by exists right.
  - by exists down.
  - by exists left.
Qed.

(** What the search leaves when food can be reached and this meal does not
    complete the level. *)
Lemma thinking_finds_a_step directions s l f0 n0 :
  current_state s = SNAKE_THINKING →
  current_level s = Ok l → rectangular l →
  n_rows l * width l ≤ size_modulus →
  snake_on_level l (snake_obj s) →
  body (snake_obj s) !! 0%nat = Some (head_pos s) →
  is_food l f0 → path l (head_pos s) f0 n0 →
  (∀ d, in_bounds l (move (head_pos s) d)) →
  (∀ d, d ∈ directions) →
  int_wrap (current_food s + 1) ≠ n_food s →
  ∃ s' f k,
    breadthFirst_search directions s = Ok s' ∧
    is_food l f ∧ path l (head_pos s) f k ∧
    (∀ w n, is_food l w → path l (head_pos s) w n → (k ≤ n)%nat) ∧
    (0 < k)%nat ∧ step l (head_pos s) (next_pos s') ∧
    shortest l (next_pos s') f (k - 1) ∧
    current_state s' = SNAKE_THINKING ∧ levels s' = levels s ∧
    current_level_index s' = current_level_index s ∧
    body (snake_obj s') = body (snake_obj s) ∧
    head_pos s' = head_pos s ∧ current_life s' = current_life s ∧
    fps s' = fps s ∧
    current_food s' = (if pos_eqb (next_pos s') (get_food_loc l)
                       then int_wrap (current_food s + 1)
                       else current_food s).
Proof.
  intros Hst Hl Hrect Hfit Hsn Hhead0 Hfood0 Hpath0 Hprobe Hdirs Hlast.
  destruct Hsn as (Hnd & h & rest & Hbody & Hhead & Hbd).
  rewrite Hbody in Hhead0. simpl in Hhead0. inversion Hhead0; subst h.
  clear Hhead0.
  assert (Hhd : get_tile_type l (head_pos s) = Ok SNAKE_HEAD) by (by apply Hhead).
  assert (Hstart : in_bounds l (head_pos s)) by (by eapply in_bounds_tile).
  assert (Hnc : n_cols l = Ok (width l)).
  { apply n_cols_width. eapply nonempty_of_row. exact (proj1 Hstart). }
  destruct (search_core l (head_pos s) (width l) Hrect Hnc Hfit Hstart
              f0 n0 Hfood0 Hpath0)
    as (vis1 & f & st & k & nm & Hset & Hloop & Hff & Hf & Hp & Hmin & Hbest).
  destruct Hbest as [(-> & -> & _) | (Hk & Hstep & Hshort)].
  { unfold is_food in Hf. congruence. }
  assert (Hnm : is_valid_position nm l (snake_obj s) = Ok true).
  { destruct Hstep as (i & Hi & -> & Hin & Hc).
    destruct (not_crashed_tile l _ Hrect Hc) as [_ Htile].
    assert (Hnb : offset (head_pos s) i ∉ body (snake_obj s)).
    { rewrite Hbody. intros [Heq | Hin']%elem_of_cons.
      - rewrite Heq in Htile. destruct Htile; congruence.
      - apply Hbd in Hin'. destruct Htile; congruence. }
    destruct Htile as [Ht | Ht];
      rewrite (is_valid_position_inside _ l _ _ Ht);
      by rewrite (bool_decide_eq_true_2 _ Hnb). }
  unfold breadthFirst_search. rewrite Hl. res_simpl. rewrite Hnc. res_simpl.
  rewrite (bool_decide_eq_false_2 (current_state s ≠ SNAKE_THINKING))
    by (intros Hne; by apply Hne).
  rewrite Hset. res_simpl. rewrite Hloop. res_simpl.
  set (s1 := set_snake_obj
               (set_collision false (set_found_foods false (snake_obj s))) s).
  set (s2 := set_snake_obj (set_found_foods true (snake_obj s1)) s1).
  assert (Hs3 : ∃ np nd,
            match fila st with
            | [] => troca directions s2
            | _ :: _ => Ok s2
            end = Ok (set_next_pos np (set_next_dir nd s2))).
  { destruct (fila st).
    - destruct (search_random_defined directions (head_pos s) l (snake_obj s2)
                  Hrect Hprobe) as [r Hr].
      unfold troca. change (current_level s2) with (current_level s).
      rewrite Hl. res_simpl. change (head_pos s2) with (head_pos s).
      rewrite Hr. res_simpl. destruct r as [d |]; [by eexists _, _ |].
      exfalso. pose proof (search_random_first _ _ _ _ _ Hr) as Hnone.
      simpl in Hnone.
      destruct Hstep as (i & Hi & Heq & _).
      destruct (direction_of_index i Hi) as [d Hd].
      specialize (Hnone d (Hdirs d)). rewrite <- Hd, <- Heq in Hnone.
      unfold is_valid_position in Hnone, Hnm. simpl in Hnone.
      rewrite Hnm in Hnone. done.
    - exists (next_pos s2), (next_dir s2). by destruct s. }
  destruct Hs3 as (np & nd & ->). res_simpl.
  cbn [found_foods snake_obj set_next_pos set_next_dir set_snake_obj
       set_found_foods s2].
  rewrite Hff. res_simpl.
  assert (Hflag : found_foods (snake_obj (set_next_pos np (set_next_dir nd s2)))
                  = true) by done.
  destruct (pos_eqb nm (get_food_loc l)) eqn:Hpe.
  - unfold input_colision. simpl.
    apply Z.eqb_neq in Hlast. rewrite Hlast.
    eexists _, f, k. split; [reflexivity |]. simpl. rewrite Hpe.
    repeat (split; [done |]). done.
  - eexists _, f, k. split; [reflexivity |]. simpl. rewrite Hpe.
    repeat (split; [done |]). done.
Qed.

(** X21.  One turn of the game loop in the thinking state.  On a
    rectangular level on which the snake and its tiles agree, with food in
    reach of the head, the four neighbours of the head inside the grid and
    this meal not the last of the level, the turn returns in the thinking
    state with the head moved one step along a shortest way to a nearest
    food cell; the snake and its tiles still agree, and no life is lost. *)
Theorem thinking_turn_steps_towards_the_nearest_food
    (i : turn_input) (s : SnazeSimulation) (l : Level)
    (f0 : TilePos) (n0 : nat) :
  fps s ≠ 0%Z → player_type s = BACKTRACKING →
  current_state s = SNAKE_THINKING →
  current_level s = Ok l → rectangular l →
  n_rows l * width l ≤ size_modulus →
  snake_on_level l (snake_obj s) →
  body (snake_obj s) !! 0%nat = Some (head_pos s) →
  food_at_food_loc l →
  is_food l f0 → path l (head_pos s) f0 n0 →
  (∀ d, in_bounds l (move (head_pos s) d)) →
  (∀ d, d ∈ turn_directions i) →
  int_wrap (current_food s + 1) ≠ n_food s →
  ∃ s' l' f k,
    turn i s = Ok (Shown s') ∧ current_state s' = SNAKE_THINKING ∧
    current_level s' = Ok l' ∧ rectangular l' ∧
    snake_on_level l' (snake_obj s') ∧ food_at_food_loc l' ∧
    body (snake_obj s') !! 0%nat = Some (head_pos s') ∧
    is_food l f ∧ path l (head_pos s) f k ∧
    (∀ w n, is_food l w → path l (head_pos s) w n → (k ≤ n)%nat) ∧
    (0 < k)%nat ∧ step l (head_pos s) (head_pos s') ∧
    shortest l (head_pos s') f (k - 1) ∧
    current_life s' = current_life s.
Proof.
  intros Hfps Hplayer Hst Hl Hrect Hfit Hsn Hhead0 Hfood Hfood0 Hpath0
         Hprobe Hdirs Hlast.
  destruct (thinking_finds_a_step (turn_directions i) s l f0 n0)
    as (sT & f & k & Hthink & Hf & Hp & Hmin & Hk & Hstep & Hshort & HstT
        & Hlv & Hidx & Hbody & Hhp & Hlife & HfpsT & _); try done.
  assert (HlT : current_level sT = Ok l).
  { unfold current_level in *. by rewrite Hlv, Hidx. }
  assert (Hc : crashed l (next_pos sT) = Ok false).
  { by destruct Hstep as (j & _ & _ & _ & ?). }
  destruct (snake_update_commits (turn_rnd i) sT l)
    as (s2 & l2 & Hrun & Hl2 & Hrect2 & Hsn2 & Hfood2 & Hb0 & Hhp2 & _ & _ & _
        & Hst2 & Hlife2 & _); try done.
  { by apply (snake_on_level_body l (snake_obj s)). }
  exists (set_current_state SNAKE_THINKING s2), l2, f, k.
  split.
  - unfold turn, process_events. apply Z.eqb_neq in Hfps.
    rewrite Hfps, Hst. unfold snake_thinking.
    rewrite bool_decide_eq_false_2 by (by rewrite Hplayer).
    rewrite Hthink. res_simpl.
    unfold update. rewrite HstT, Hrun. res_simpl.
    unfold render. cbn [current_state set_current_state]. unfold print_maze.
    rewrite (read_maze_total false _ l2) by done. res_simpl. done.
  - simpl. split; [done |]. split; [done |]. split; [done |].
    split; [done |]. split; [done |]. rewrite Hhp2.
    split; [done |]. split; [done |]. split; [done |]. split; [done |].
    split; [done |]. split; [done |]. split; [done |]. congruence.
Qed.

Lemma bend_snake_on_level : snake_on_level bend_level (snake_obj bend_sim).
Proof.
  split; [apply NoDup_singleton |].
  exists (mkTilePos 1 1), []. split; [done |]. split; intros p; split.
  - intros H. tile_scan bend_level_rectangular H p.
  - by intros ->.
  - intros H. exfalso. tile_scan bend_level_rectangular H p.
  - by intros ?%elem_of_nil.
Qed.

Lemma bend_food_at_food_loc : food_at_food_loc bend_level.
Proof. intros p H. tile_scan bend_level_rectangular H p. Qed.

Lemma thinking_turn_steps_towards_the_nearest_food_witness :
  ∃ s' l' f k,
    turn enter bend_sim = Ok (Shown s') ∧ current_state s' = SNAKE_THINKING ∧
    current_level s' = Ok l' ∧ rectangular l' ∧
    snake_on_level l' (snake_obj s') ∧ food_at_food_loc l' ∧
    body (snake_obj s') !! 0%nat = Some (head_pos s') ∧
    is_food bend_level f ∧ path bend_level (head_pos bend_sim) f k ∧
    (∀ w n, is_food bend_level w → path bend_level (head_pos bend_sim) w n →
            (k ≤ n)%nat) ∧
    (0 < k)%nat ∧ step bend_level (head_pos bend_sim) (head_pos s') ∧
    shortest bend_level (head_pos s') f (k - 1) ∧
    current_life s' = current_life bend_sim.
Proof.
  apply (thinking_turn_steps_towards_the_nearest_food enter bend_sim
           bend_level (mkTilePos 3 1) 6).
  - discriminate.
  - reflexivity.
  - reflexivity.
  - reflexivity.
  - exact bend_level_rectangular.
  - vm_compute. discriminate.
  - exact bend_snake_on_level.
  - reflexivity.
  - exact bend_food_at_food_loc.
  - reflexivity.
  - exact bend_path.
  - intros d. destruct d; split; reflexivity.
  - intros d. destruct d; simpl; repeat constructor.
  - vm_compute. discriminate.
Defined.
(** ** The game loop on playable levels *)

Lemma interior_in_bounds l p : interior l p → in_bounds l p.
Proof. unfold interior, in_bounds. lia. Qed.

Lemma playable_fits l :
  playable l → n_rows l * width l ≤ size_modulus.
Proof. intros (_ & Hfit & _). unfold size_modulus. lia. Qed.

Lemma playable_frame l l' :
  playable l → rectangular l' → same_frame l l' → food_at_food_loc l' →
  playable l'.
Proof.
  intros (Hrect & Hfit & Hsp & _ & Hwall) Hrect' (Hnr & Hw & Hspawn & Hsame)
         Hfood'.
  split; [done |]. split; [by rewrite Hnr, Hw |].
  split; [unfold interior in *; by rewrite Hnr, Hw, Hspawn |].
  split; [done |].
  intros p Hin Hnot.
  assert (Hin0 : in_bounds l p).
  { unfold in_bounds in *. by rewrite <- Hnr, <- Hw. }
  assert (Hnot0 : ¬ interior l p).
  { unfold interior in *. by rewrite <- Hnr, <- Hw. }
  rewrite (Hsame p Hin0 Hnot0). by apply Hwall.
Qed.

Lemma same_walls_frame l l' :
  playable l → n_rows l' = n_rows l → width l' = width l →
  m_spawn_loc l' = m_spawn_loc l → same_walls l l' → same_frame l l'.
Proof.
  intros (_ & _ & _ & _ & Hwall) Hnr Hw Hsp Hsame.
  split; [done |]. split; [done |]. split; [done |].
  intros p Hin Hnot. destruct (Hsame p) as [H1 H2].
  destruct (Hwall p Hin Hnot) as [Hp | Hp]; rewrite Hp; [by apply H1 | by apply H2].
Qed.

Lemma playable_interior_tile l p t :
  playable l → get_tile_type l p = Ok t → t ≠ WALL → t ≠ INV_WALL →
  interior l p.
Proof.
  intros (Hrect & _ & _ & _ & Hwall) Ht Hw Hi.
  assert (Hin : in_bounds l p) by (by eapply in_bounds_tile).
  destruct (decide (0 < row p ∧ 0 < col p ∧ row p + 1 < n_rows l
                    ∧ col p + 1 < width l)) as [Hint | Hnot]; [done |].
  destruct (Hwall p Hin Hnot) as [Hp | Hp]; rewrite Hp in Ht; by inversion Ht.
Qed.

Lemma interior_neighbours l p :
  n_rows l * width l ≤ size_modulus → interior l p →
  ∀ d, in_bounds l (move p d).
Proof.
  intros Hfit (Hr0 & Hc0 & Hr1 & Hc1) d.
  assert (Hrows : n_rows l ≤ size_modulus) by nia.
  assert (Hcols : width l ≤ size_modulus) by nia.
  assert (Hp : size_pos p) by (split; lia).
  destruct (move_cases p Hp) as (Hu & Hr & Hd & Hl).
  unfold in_bounds.
  destruct d; rewrite ?Hu, ?Hr, ?Hd, ?Hl; simpl.
  - destruct (N.eqb_spec (row p) 0); lia.
  - destruct (N.eqb_spec (col p) (size_modulus - 1)); lia.
  - destruct (N.eqb_spec (row p) (size_modulus - 1)); lia.
  - destruct (N.eqb_spec (col p) 0); lia.
Qed.

Lemma levels_insert_current s l :
  current_level s = Ok l →
  levels s = <[Z.to_nat (current_level_index s) := l]> (levels s).
Proof.
  unfold current_level. destruct (current_level_index s <? 0)%Z; [done |].
  intros Hl%of_option_Ok. symmetry. by apply list_insert_id.
Qed.

Lemma set_tile_type_dims t p l l' :
  rectangular l → set_tile_type t p l = Ok l' →
  rectangular l' ∧ n_rows l' = n_rows l ∧ width l' = width l ∧
  m_spawn_loc l' = m_spawn_loc l.
Proof.
  intros Hrect Hset.
  destruct (set_tile_type_spec _ _ _ _ Hrect Hset)
    as (Hrect' & _ & Hsp & _ & Hnr & Hwd & _).
  done.
Qed.

Lemma place_food_dims rnd l l' :
  rectangular l → place_food rnd l = Ok l' →
  rectangular l' ∧ n_rows l' = n_rows l ∧ width l' = width l ∧
  m_spawn_loc l' = m_spawn_loc l.
Proof.
  intros Hrect Hpf.
  destruct (place_food_spec rnd l Hrect)
    as (l2 & Hl2 & Hrect2 & Hnr & Hw & Hsp & _).
  rewrite Hpf in Hl2. inversion Hl2; subst l2. done.
Qed.

Lemma snake_update_frame rnd s s' l :
  current_level s = Ok l → rectangular l → snake_update rnd s = Ok s' →
  ∃ l', current_level s' = Ok l' ∧
        levels s' = <[Z.to_nat (current_level_index s) := l']> (levels s) ∧
        n_rows l' = n_rows l ∧ width l' = width l ∧
        m_spawn_loc l' = m_spawn_loc l ∧
        fps s' = fps s ∧ current_level_index s' = current_level_index s ∧
        n_food s' = n_food s ∧ n_lives s' = n_lives s ∧
        player_type s' = player_type s.
Proof.
  intros Hl Hrect H. unfold snake_update in H. rewrite Hl in H.
  cbn [mbind res_bind] in H.
  apply bind_Ok in H. destruct H as (t & Ht & H).
  case_bool_decide as Hst.
  { inversion H; subst s'. exists l. split; [done |].
    split; [by apply levels_insert_current |]. done. }
  apply bind_Ok in H. destruct H as (c & Hc & H). destruct c.
  { inversion H; subst s'. exists l. split; [exact Hl |].
    split; [by apply (levels_insert_current s l) |]. done. }
  apply bind_Ok in H. destruct H as (l1 & Hl1 & H).
  destruct (set_tile_type_dims _ _ _ _ Hrect Hl1) as (Hrect1 & Hnr1 & Hw1 & Hsp1).
  apply bind_Ok in H. destruct H as ([body2 l2] & Hl2 & H).
  assert (H2 : rectangular l2 ∧ n_rows l2 = n_rows l1 ∧ width l2 = width l1 ∧
               m_spawn_loc l2 = m_spawn_loc l1).
  { destruct (negb _).
    - apply bind_Ok in Hl2. destruct Hl2 as (tl & _ & Hl2).
      apply bind_Ok in Hl2. destruct Hl2 as (l2' & Hl2' & Hl2).
      inversion Hl2; subst. by eapply set_tile_type_dims.
    - apply bind_Ok in Hl2. destruct Hl2 as (l2' & Hl2' & Hl2).
      inversion Hl2; subst. by eapply place_food_dims. }
  destruct H2 as (Hrect2 & Hnr2 & Hw2 & Hsp2).
  apply bind_Ok in H. destruct H as (l3 & Hl3 & H).
  assert (H3 : n_rows l3 = n_rows l2 ∧ width l3 = width l2 ∧
               m_spawn_loc l3 = m_spawn_loc l2).
  { case_decide.
    - apply bind_Ok in Hl3. destruct Hl3 as (seg & _ & Hl3).
      by destruct (set_tile_type_dims _ _ _ _ Hrect2 Hl3) as (_ & ? & ? & ?).
    - by inversion Hl3; subst. }
  destruct H3 as (Hnr3 & Hw3 & Hsp3).
  inversion H; subst s'. exists l3. simpl.
  split; [by eapply current_level_store |]. split; [done |].
  split; [congruence |]. split; [congruence |]. split; [congruence |]. done.
Qed.

Lemma current_level_unique s l l' :
  current_level s = Ok l → current_level s = Ok l' → l = l'.
Proof. congruence. Qed.

Lemma current_level_index_range s l :
  current_level s = Ok l →
  (0 ≤ current_level_index s)%Z ∧
  (Z.to_nat (current_level_index s) < length (levels s))%nat ∧
  levels s !! Z.to_nat (current_level_index s) = Some l.
Proof.
  unfold current_level.
  destruct (Z.ltb_spec (current_level_index s) 0); [done |].
  intros Hl%of_option_Ok. split; [done |]. split; [| done].
  by eapply lookup_lt_Some.
Qed.

(** The commit on a playable level: it returns, and the level stays
    playable. *)
Lemma snake_update_on_playable rnd s l :
  current_state s = SNAKE_THINKING →
  current_level s = Ok l → playable l →
  snake_on_level l (snake_obj s) →
  body (snake_obj s) !! 0%nat = Some (head_pos s) →
  in_bounds l (next_pos s) →
  ∃ s' l',
    snake_update rnd s = Ok s' ∧ current_level s' = Ok l' ∧ playable l' ∧
    levels s' = <[Z.to_nat (current_level_index s) := l']> (levels s) ∧
    snake_on_level l' (snake_obj s') ∧
    body (snake_obj s') !! 0%nat = Some (head_pos s') ∧
    in_bounds l' (next_pos s') ∧
    fps s' = fps s ∧ current_level_index s' = current_level_index s.
Proof.
  intros Hst Hl Hplay Hsn Hhead Hin.
  pose proof Hplay as (Hrect & Hfit & Hspawn & Hfood & Hwall).
  destruct (crashed_total l (next_pos s) Hrect) as [c Hc]. destruct c.
  - destruct (at2_in_bounds l (next_pos s) Hrect Hin) as [t Ht].
    exists (set_current_state GAME_OVER s), l.
    split; [by eapply snake_update_blocked |].
    split; [exact Hl |]. split; [done |].
    split; [by apply (levels_insert_current s l) |]. done.
  - destruct (snake_update_commits rnd s l Hst Hl Hrect Hsn Hfood Hc)
      as (s' & l' & Hrun & Hl' & Hrect' & Hsn' & Hfood' & Hb0 & Hhp & _ & Hb
          & Hsame & _ & _ & _ & _ & Hnp).
    destruct (snake_update_frame rnd s s' l Hl Hrect Hrun)
      as (l'' & Hl'' & Hlv & Hnr & Hw & Hsp & Hfps & Hidx & _).
    rewrite Hl' in Hl''. inversion Hl''; subst l''.
    exists s', l'. split; [done |]. split; [done |].
    split; [apply (playable_frame l l'); try done;
            by apply same_walls_frame |].
    split; [done |]. split; [done |].
    split; [by rewrite Hhp |].
    split; [rewrite Hnp; by apply Hb |]. done.
Qed.

Lemma respawn_on_playable s l :
  current_level s = Ok l → playable l →
  ∃ s' l',
    respawn s = Ok s' ∧ current_level s' = Ok l' ∧ playable l' ∧
    s' = set_next_pos (m_spawn_loc l) (set_head_pos (m_spawn_loc l)
           (set_snake_obj
              (mkSnake [m_spawn_loc l] false false
                 (wall_collision (snake_obj s)))
              (store_current_level l' s))) ∧
    m_spawn_loc l' = m_spawn_loc l ∧
    snake_on_level l' (snake_obj s') ∧
    get_tile_type l' (m_spawn_loc l) = Ok SNAKE_HEAD.
Proof.
  intros Hl Hplay.
  pose proof Hplay as (Hrect & Hfit & Hspawn & Hfood & Hwall).
  assert (Hin : in_bounds l (m_spawn_loc l)) by (by apply interior_in_bounds).
  destruct (respawn_spec s l Hl Hrect Hin)
    as (s' & l' & Hrun & Hl' & Hrect' & Heq & Hsp & Hfd & Hb & Hget & Hnr & Hw).
  destruct (respawn_on_level s l Hl Hrect Hin)
    as (s'' & l'' & Hrun' & Hl'' & _ & _ & _ & Hsn).
  rewrite Hrun in Hrun'. inversion Hrun'; subst s''.
  rewrite Hl' in Hl''. inversion Hl''; subst l''.
  assert (Htile : ∀ p t', get_tile_type l' p = Ok t' →
            ∃ t, get_tile_type l p = Ok t ∧
                 t' = if decide (p = m_spawn_loc l) then SNAKE_HEAD
                      else without_snake t).
  { intros p t' Hp.
    destruct (at2_in_bounds l p Hrect) as [t Ht].
    { apply Hb. by eapply in_bounds_tile. }
    exists t. split; [done |]. rewrite (Hget p t Ht) in Hp. by inversion Hp. }
  exists s', l'. split; [done |]. split; [done |]. split.
  - apply (playable_frame l l'); [done | done | |].
    + split; [done |]. split; [done |]. split; [done |].
      intros p Hp Hnot.
      destruct (Hwall p Hp Hnot) as [Ht | Ht]; rewrite Ht;
        rewrite (Hget p _ Ht); (rewrite decide_False; [done |]);
        by intros ->.
    + intros q Hq. destruct (Htile q _ Hq) as (t & Ht & Heq').
      destruct (decide (q = m_spawn_loc l)); [done |].
      rewrite Hfd. apply Hfood. rewrite Ht. by destruct t.
  - split; [done |]. split; [done |]. split; [done |].
    destruct (at2_in_bounds l _ Hrect Hin) as [t Ht].
    rewrite (Hget _ t Ht). by rewrite decide_True.
Qed.

Lemma game_inv_same s s' :
  fps s' = fps s → current_level_index s' = current_level_index s →
  levels s' = levels s → body (snake_obj s') = body (snake_obj s) →
  head_pos s' = head_pos s → next_pos s' = next_pos s →
  game_inv s → game_inv s'.
Proof.
  intros Hfps Hidx Hlv Hbody Hhp Hnp (Hf & Hi & Hlen & Hall & l & Hl & Hsn & Hb0 & Hin).
  split; [by rewrite Hfps |]. split; [by rewrite Hidx |].
  split; [by rewrite Hlv |]. split; [by rewrite Hlv |].
  exists l. split; [unfold current_level in *; by rewrite Hidx, Hlv |].
  split; [by apply (snake_on_level_body l (snake_obj s)) |].
  split; [by rewrite Hbody, Hhp |]. by rewrite Hnp.
Qed.

Lemma game_inv_next_pos s l np :
  game_inv s → current_level s = Ok l → in_bounds l np →
  game_inv (set_next_pos np s).
Proof.
  intros (Hf & Hi & Hlen & Hall & l' & Hl' & Hsn & Hb0 & Hin) Hl Hnp.
  rewrite Hl in Hl'. inversion Hl'; subst l'.
  split; [done |]. split; [done |]. split; [done |]. split; [done |].
  exists l. done.
Qed.

Lemma game_inv_level s l :
  game_inv s → current_level s = Ok l →
  playable l ∧ snake_on_level l (snake_obj s) ∧
  body (snake_obj s) !! 0%nat = Some (head_pos s) ∧
  in_bounds l (next_pos s) ∧ interior l (head_pos s) ∧
  (∀ d, in_bounds l (move (head_pos s) d)).
Proof.
  intros (Hf & Hi & Hlen & Hall & l' & Hl' & Hsn & Hb0 & Hin) Hl.
  rewrite Hl in Hl'. inversion Hl'; subst l'.
  assert (Hplay : playable l).
  { rewrite Forall_forall in Hall. apply Hall.
    destruct (current_level_index_range s l Hl) as (_ & _ & Hlook).
    apply list_elem_of_lookup. eauto. }
  assert (Hint : interior l (head_pos s)).
  { destruct Hsn as (_ & h & rest & Hbody & Hhead & _).
    rewrite Hbody in Hb0. simpl in Hb0. inversion Hb0; subst h.
    apply (playable_interior_tile l _ SNAKE_HEAD Hplay); [| done | done].
    by apply Hhead. }
  repeat (split; [done |]).
  apply interior_neighbours; [| done]. by apply playable_fits.
Qed.

Lemma troca_on_playable directions s :
  game_inv s →
  ∃ s', troca directions s = Ok s' ∧ game_inv s' ∧
        snake_obj s' = snake_obj s ∧ levels s' = levels s ∧
        current_level_index s' = current_level_index s ∧
        head_pos s' = head_pos s ∧
        current_food s' = current_food s ∧ n_food s' = n_food s ∧
        (current_state s' = current_state s ∨ current_state s' = SNAKE_CRASHED
         ∨ current_state s' = GAME_OVER).
Proof.
  intros Hinv. pose proof Hinv as (_ & _ & _ & _ & l & Hl & _).
  destruct (game_inv_level s l Hinv Hl)
    as (Hplay & Hsn & Hb0 & Hin & Hint & Hprobe).
  pose proof Hplay as (Hrect & _).
  destruct (search_random_defined directions (head_pos s) l (snake_obj s)
              Hrect Hprobe) as [r Hr].
  destruct (troca_defined directions s l r Hl Hr) as [s' Hs'].
  exists s'. split; [done |].
  destruct (troca_frame _ _ _ Hs') as (Hlv & Hso & Hidx & Hcf & Hnf & Hhp).
  destruct (troca_cases directions s s' l Hl Hs') as [(d & Hd & ->) | [_ Hc]].
  - split; [| by repeat split; auto].
    apply (game_inv_next_pos _ l); [| done | apply Hprobe].
    by apply (game_inv_same s).
  - destruct (input_colision_crash_frame s s' Hc) as [Heq Hst].
    split; [| by repeat split; auto].
    apply (game_inv_same s); try done; by rewrite Heq.
Qed.

Lemma level_up_on_playable s :
  game_inv s →
  ∃ s', level_up s = Ok s' ∧ game_inv s' ∧
        (current_state s' = START_SCREEN ∨ current_state s' = GAME_WON).
Proof.
  intros Hinv.
  pose proof Hinv as (Hfps & Hidx & Hlen & Hall & l & Hl & _).
  destruct (current_level_index_range s l Hl) as (_ & Hlt & _).
  unfold level_up.
  assert (Hi1 : int_wrap (current_level_index s + 1)
                = (current_level_index s + 1)%Z).
  { apply int_wrap_range. unfold int_range. lia. }
  assert (Hn : int_wrap (Z.of_nat (length (levels s)))
               = Z.of_nat (length (levels s))).
  { apply int_wrap_range. unfold int_range. lia. }
  rewrite Hi1, Hn.
  destruct (Z.ltb_spec (current_level_index s + 1)
              (Z.of_nat (length (levels s)))) as [Hnext | Hlast].
  2:{ eexists. split; [reflexivity |]. split; [| by right].
      by apply (game_inv_same s). }
  set (s1 := set_current_level_index (current_level_index s + 1) s).
  destruct (lookup_lt_is_Some_2 (levels s)
              (Z.to_nat (current_level_index s + 1))) as [ln Hln]; [lia |].
  assert (Hl1 : current_level s1 = Ok ln).
  { unfold current_level. simpl.
    destruct (Z.ltb_spec (current_level_index s + 1) 0); [lia |].
    by rewrite Hln. }
  assert (Hplayn : playable ln).
  { rewrite Forall_forall in Hall. apply Hall.
    apply list_elem_of_lookup. eauto. }
  pose proof Hplayn as (Hrectn & Hfitn & Hspn & Hfoodn & Hwalln).
  rewrite Hl1. res_simpl.
  destruct (set_tile_type_total SNAKE_HEAD (m_spawn_loc ln) ln Hrectn)
    as [la Hla]; [by apply interior_in_bounds |].
  destruct (set_tile_type_spec _ _ _ _ Hrectn Hla)
    as (Hrecta & _ & Hspa & Hfda & Hnra & Hwa & Hgeta).
  assert (Hplaya : playable la).
  { apply (playable_frame ln la); [done | done | |].
    - split; [done |]. split; [done |]. split; [done |].
      intros p _ Hnot. rewrite Hgeta. rewrite decide_False; [done |].
      by intros ->.
    - intros q. rewrite Hgeta, Hfda. case_decide; [done |]. apply Hfoodn. }
  unfold reset, get_spawn_loc. rewrite Hla. res_simpl.
  set (s2 := print_maze_in_lv (reset_food (set_snake_obj _ _))).
  assert (Hl2 : current_level s2 = Ok la).
  { apply (current_level_store s1 la ln Hl1). }
  destruct (respawn_on_playable s2 la Hl2 Hplaya)
    as (s3 & l3 & Hrun & Hl3 & Hplay3 & Heq & Hsp3 & Hsn3 & Hhd3).
  rewrite Hrun. res_simpl.
  eexists. split; [reflexivity |]. split; [| by left].
  rewrite Heq in *. clear Heq.
  split; [done |]. split; [simpl; lia |].
  split; [simpl; by rewrite !length_insert |].
  split.
  { simpl. apply Forall_insert; [| done]. by apply Forall_insert. }
  exists l3. split; [exact Hl3 |]. split; [exact Hsn3 |].
  split; [done |]. simpl. rewrite <- Hsp3.
  apply interior_in_bounds. by destruct Hplay3 as (_ & _ & ? & _).
Qed.

Lemma food_event_on_playable c s :
  game_inv s →
  ∃ s', input_colision true c s = Ok s' ∧ game_inv s' ∧
        (current_state s' = current_state s ∨ current_state s' = START_SCREEN
         ∨ current_state s' = GAME_WON).
Proof.
  intros Hinv. unfold input_colision.
  set (s3 := set_snake_obj _ _).
  assert (Hinv3 : game_inv s3) by (by apply (game_inv_same s)).
  destruct (current_food s3 =? n_food s3)%Z.
  - destruct (level_up_on_playable s3 Hinv3) as (s' & Hs' & Hinv' & Hst).
    exists s'. split; [done |]. split; [done |]. by right.
  - exists s3. split; [done |]. split; [done |]. by left.
Qed.

Lemma breadthFirst_search_on_playable directions s :
  game_inv s →
  ∃ s', breadthFirst_search directions s = Ok s' ∧ game_inv s' ∧
        after_thinking (current_state s) (current_state s').
Proof.
  intros Hinv. pose proof Hinv as (_ & _ & _ & _ & l & Hl & _).
  destruct (game_inv_level s l Hinv Hl)
    as (Hplay & Hsn & Hb0 & Hin & Hint & Hprobe).
  pose proof Hplay as (Hrect & _).
  pose proof (playable_fits l Hplay) as Hfit.
  assert (Hstart : in_bounds l (head_pos s)) by (by apply interior_in_bounds).
  assert (Hnc : n_cols l = Ok (width l)).
  { apply n_cols_width. eapply nonempty_of_row. exact (proj1 Hstart). }
  unfold breadthFirst_search. rewrite Hl. res_simpl. rewrite Hnc. res_simpl.
  case_bool_decide as Hst.
  { exists s. split; [done |]. split; [done |]. by left. }
  destruct (search_loop_outcome l (head_pos s) (width l) Hrect Hnc Hfit Hstart)
    as (vis1 & out & Hset & Hrun & Hout).
  rewrite Hset. res_simpl. rewrite Hrun. res_simpl.
  set (s1 := set_snake_obj
               (set_collision false (set_found_foods false (snake_obj s))) s).
  assert (Hinv1 : game_inv s1) by (by apply (game_inv_same s)).
  destruct out as [f st | st |]; simpl in Hout.
  - destruct Hout as (Hf & k & F & vis & Hsinv & Hd & Hk & Hmin).
    destruct (found_food_spec l (head_pos s) (width l) Hnc Hfit Hstart
                k F vis (main st) f Hsinv Hd Hk)
      as (nm & Hnm & Hbest).
    { intros n Hp. by apply (Hmin f). }
    assert (Hnm_in : in_bounds l nm).
    { destruct Hbest as [(_ & -> & ->) | (_ & (j & _ & _ & ? & _) & _)]; done. }
    set (s2 := set_snake_obj (set_found_foods true (snake_obj s1)) s1).
    assert (Hinv2 : game_inv s2) by (by apply (game_inv_same s)).
    assert (Hs3 : ∃ s3,
              match fila st with
              | [] => troca directions s2
              | _ :: _ => Ok s2
              end = Ok s3 ∧ game_inv s3 ∧ snake_obj s3 = snake_obj s2 ∧
              current_level s3 = Ok l ∧
              (current_state s3 = current_state s
               ∨ current_state s3 = SNAKE_CRASHED
               ∨ current_state s3 = GAME_OVER)).
    { destruct (fila st).
      - destruct (troca_on_playable directions s2 Hinv2)
          as (s3 & Hs3 & Hinv3 & Hso & Hlv & Hidx & _ & _ & _ & Hst3).
        exists s3. split; [done |]. split; [done |]. split; [done |].
        split; [| done].
        unfold current_level in *. rewrite Hidx, Hlv. exact Hl.
      - exists s2. split; [done |]. split; [done |]. split; [done |].
        split; [exact Hl | by left]. }
    destruct Hs3 as (s3 & -> & Hinv3 & Hso3 & Hl3 & Hst3). res_simpl.
    rewrite Hso3. cbn [found_foods s2 set_snake_obj snake_obj set_found_foods].
    rewrite Hnm. res_simpl.
    assert (Hinv4 : game_inv (set_next_pos nm s3))
      by (by apply (game_inv_next_pos s3 l)).
    assert (H03 : after_thinking (current_state s) (current_state s3)).
    { unfold after_thinking. destruct Hst3 as [-> | [-> | ->]]; auto 6. }
    destruct (pos_eqb nm (get_food_loc l)).
    + destruct (food_event_on_playable
                  (collision (set_found_foods true (snake_obj s1)))
                  (set_next_pos nm s3) Hinv4) as (s5 & Hs5 & Hinv5 & Hst5).
      exists s5. split; [exact Hs5 |]. split; [done |].
      eapply after_thinking_trans; [exact H03 |].
      unfold after_thinking. simpl in Hst5.
      destruct Hst5 as [-> | [-> | ->]]; auto 6.
    + exists (set_next_pos nm s3). split; [done |]. split; [done |]. done.
  - destruct (troca_on_playable directions s1 Hinv1)
      as (s' & Hs' & Hinv' & _ & _ & _ & _ & _ & _ & Hst').
    exists s'. split; [done |]. split; [done |].
    unfold after_thinking. simpl in Hst'.
    destruct Hst' as [-> | [-> | ->]]; auto 6.
  - done.
Qed.

Lemma snake_thinking_on_playable directions s :
  game_inv s →
  ∃ s', snake_thinking directions s = Ok s' ∧ game_inv s' ∧
        after_thinking (current_state s) (current_state s').
Proof.
  intros Hinv. unfold snake_thinking. case_bool_decide.
  - destruct (troca_on_playable directions s Hinv)
      as (s' & Hs' & Hinv' & _ & _ & _ & _ & _ & _ & Hst').
    exists s'. split; [done |]. split; [done |].
    unfold after_thinking. destruct Hst' as [-> | [-> | ->]]; auto 6.
  - by apply breadthFirst_search_on_playable.
Qed.

Lemma game_inv_store s l l' :
  game_inv s → current_level s = Ok l → playable l' →
  ∀ s', fps s' = fps s → current_level_index s' = current_level_index s →
        levels s' = <[Z.to_nat (current_level_index s) := l']> (levels s) →
        snake_on_level l' (snake_obj s') →
        body (snake_obj s') !! 0%nat = Some (head_pos s') →
        in_bounds l' (next_pos s') →
        game_inv s'.
Proof.
  intros (Hf & Hi & Hlen & Hall & _) Hl Hplay s' Hfps Hidx Hlv Hsn Hb0 Hin.
  split; [by rewrite Hfps |]. split; [by rewrite Hidx |].
  split; [by rewrite Hlv, length_insert |].
  split; [rewrite Hlv; by apply Forall_insert |].
  exists l'. split; [| done].
  destruct (current_level_index_range s l Hl) as (_ & Hlt & _).
  unfold current_level. rewrite Hidx, Hlv.
  destruct (Z.ltb_spec (current_level_index s) 0); [lia |].
  by rewrite list_lookup_insert_eq.
Qed.

Lemma respawn_game_inv s :
  game_inv s →
  ∃ s', respawn s = Ok s' ∧ game_inv s' ∧
        current_state s' = current_state s.
Proof.
  intros Hinv. pose proof Hinv as (_ & _ & _ & _ & l & Hl & _).
  destruct (game_inv_level s l Hinv Hl) as (Hplay & _).
  destruct (respawn_on_playable s l Hl Hplay)
    as (s' & l' & Hrun & Hl' & Hplay' & Heq & Hsp & Hsn & Hhd).
  exists s'. split; [done |]. split; [| by subst s'].
  apply (game_inv_store s l l' Hinv Hl Hplay'); try (by subst s').
  subst s'. simpl. rewrite <- Hsp. apply interior_in_bounds.
  by destruct Hplay' as (_ & _ & ? & _).
Qed.

Lemma process_events_on_playable directions b s :
  game_inv s → loop_state (current_state s) →
  ∃ s1, process_events directions b s = Ok s1 ∧ game_inv s1.
Proof.
  intros Hinv Hloop. pose proof Hinv as (Hfps & _).
  unfold process_events. apply Z.eqb_neq in Hfps. rewrite Hfps.
  assert (Hinput : ∃ s1, input_process b s = Ok s1 ∧ game_inv s1).
  { unfold input_process.
    destruct (_ && b); [eexists; split; [done | by apply (game_inv_same s)] |].
    destruct (_ && b); [eexists; split; [done | by apply (game_inv_same s)] |].
    destruct (_ && b); [| by exists s].
    destruct (respawn_game_inv s Hinv) as (s1 & -> & Hinv1 & _). res_simpl.
    destruct (current_life s1 =? 0)%Z;
      (eexists; split; [done | by apply (game_inv_same s1)]). }
  destruct (current_state s) eqn:Hst; try (by exists s); try done.
  - destruct (snake_thinking_on_playable directions s Hinv)
      as (s1 & Hs1 & Hinv1 & _).
    by exists s1.
  - unfold loop_state in Hloop. intuition discriminate.
Qed.

Lemma update_on_playable rnd s :
  game_inv s → current_state s ≠ LEVEL_UP →
  ∃ s', update rnd s = Ok s' ∧ game_inv s'.
Proof.
  intros Hinv Hne. unfold update.
  destruct (current_state s) eqn:Hst; try (by exists s); try done;
    try (eexists; split; [done | by apply (game_inv_same s)]).
  pose proof Hinv as (_ & _ & _ & _ & l & Hl & _).
  destruct (game_inv_level s l Hinv Hl) as (Hplay & Hsn & Hb0 & Hin & _).
  destruct (snake_update_on_playable rnd s l Hst Hl Hplay Hsn Hb0 Hin)
    as (s' & l' & -> & Hl' & Hplay' & Hlv & Hsn' & Hb0' & Hin' & Hfps & Hidx).
  res_simpl. eexists. split; [done |].
  by apply (game_inv_store s l l' Hinv Hl Hplay').
Qed.

Lemma render_on_playable s :
  game_inv s →
  ∃ r, render s = Ok r ∧
       match r with Shown s' => game_inv s' | Exited _ => True end.
Proof.
  intros Hinv. pose proof Hinv as (_ & _ & _ & _ & l & Hl & _).
  destruct (game_inv_level s l Hinv Hl) as ((Hrect & _) & _).
  unfold render, print_welcome, print_maze, print_snake_crashed, print_level_up.
  destruct (current_state s); rewrite ?(read_maze_total _ s l Hl Hrect);
    res_simpl; eexists; (split; [reflexivity |]); done.
Qed.

(** *** The counters in a turn *)

Lemma respawn_n_lives s s' : respawn s = Ok s' → n_lives s' = n_lives s.
Proof.
  unfold respawn. intros H. bind_inv H. bind_inv H. bind_inv H.
  destruct a1 as [sn l2]. by inversion H.
Qed.

Lemma level_up_counters s s' :
  level_up s = Ok s' →
  n_food s' = n_food s ∧ n_lives s' = n_lives s ∧
  current_life s' = current_life s ∧ score s' = score s ∧
  (current_food s' = 0%Z ∨
   (current_food s' = current_food s ∧ current_state s' = GAME_WON)).
Proof.
  unfold level_up. intros H.
  destruct (_ <? _)%Z.
  - bind_inv H. bind_inv H. destruct a0 as [sn l']. bind_inv H.
    pose proof (respawn_n_lives _ _ Ha1) as Hnl.
    apply respawn_frame in Ha1 as (Hl & _ & Hsc & Hcf & _ & Hnf).
    inversion H; subst; simpl. rewrite Hl, Hsc, Hcf, Hnf, Hnl. simpl.
    split; [done |]. split; [done |]. split; [done |]. split; [done |].
    by left.
  - inversion H; subst; simpl.
    split; [done |]. split; [done |]. split; [done |]. split; [done |].
    by right.
Qed.

Lemma food_event_counters c s s' :
  input_colision true c s = Ok s' →
  n_food s' = n_food s ∧ n_lives s' = n_lives s ∧
  current_life s' = current_life s ∧
  score s'
  = int_wrap (score s + int_wrap (20 * int_wrap (current_food s + 1))) ∧
  (current_food s' = 0%Z ∨
   (current_food s' = int_wrap (current_food s + 1) ∧
    (current_food s' ≠ n_food s ∨ current_state s' = GAME_WON))).
Proof.
  unfold input_colision. simpl. intros H.
  destruct (Z.eqb_spec (int_wrap (current_food s + 1)) (n_food s)) as [He | Hne].
  - apply level_up_counters in H as (Hnf & Hnl & Hl & Hsc & Hcf). simpl in *.
    split; [done |]. split; [done |]. split; [done |]. split; [done |].
    destruct Hcf as [? | [? ?]]; [by left | right; auto].
  - inversion H; subst; simpl. auto 10.
Qed.

Lemma crash_event_counters s s' :
  input_colision false true s = Ok s' →
  n_food s' = n_food s ∧ n_lives s' = n_lives s ∧
  current_food s' = current_food s ∧ score s' = score s ∧
  current_life s' = int_wrap (current_life s - 1).
Proof.
  unfold input_colision. simpl. intros H. inversion H; subst s'.
  repeat case_match; simpl; done.
Qed.

Lemma troca_counters directions s s' :
  troca directions s = Ok s' →
  n_food s' = n_food s ∧ n_lives s' = n_lives s ∧
  current_food s' = current_food s ∧ score s' = score s ∧
  (current_life s' = current_life s ∨
   current_life s' = int_wrap (current_life s - 1)).
Proof.
  intros H. pose proof H as H'. unfold troca in H'.
  apply bind_Ok in H'. destruct H' as (l & Hl & _).
  destruct (troca_cases directions s s' l Hl H) as [(d & _ & ->) | [_ Hc]].
  - simpl. auto 10.
  - apply crash_event_counters in Hc as (? & ? & ? & ? & ?). auto 10.
Qed.

Lemma breadthFirst_search_counters directions s s' :
  breadthFirst_search directions s = Ok s' →
  n_food s' = n_food s ∧ n_lives s' = n_lives s ∧
  (current_life s' = current_life s ∨
   current_life s' = int_wrap (current_life s - 1)) ∧
  ((current_food s' = current_food s ∧ score s' = score s) ∨
   (score s'
    = int_wrap (score s + int_wrap (20 * int_wrap (current_food s + 1))) ∧
    (current_food s' = 0%Z ∨
     (current_food s' = int_wrap (current_food s + 1) ∧
      (current_food s' ≠ n_food s ∨ current_state s' = GAME_WON))))).
Proof.
  unfold breadthFirst_search. intros H.
  bind_inv H. bind_inv H.
  case_bool_decide; [inversion H; subst; auto 10 |].
  bind_inv H. bind_inv H.
  set (s1 := set_snake_obj
               (set_collision false (set_found_foods false (snake_obj s))) s)
    in *.
  destruct a2 as [food_pos st | st |].
  - set (s2 := set_snake_obj (set_found_foods true (snake_obj s1)) s1) in *.
    apply bind_Ok in H. destruct H as (s3 & Hs3 & H).
    assert (H3 : n_food s3 = n_food s ∧ n_lives s3 = n_lives s ∧
                 current_food s3 = current_food s ∧ score s3 = score s ∧
                 (current_life s3 = current_life s ∨
                  current_life s3 = int_wrap (current_life s - 1))).
    { destruct (fila st).
      - by apply troca_counters in Hs3.
      - inversion Hs3; subst. simpl. auto 10. }
    destruct H3 as (Hnf & Hnl & Hcf & Hsc & Hlife).
    destruct (found_foods (snake_obj s3)).
    + apply bind_Ok in H. destruct H as (nm & _ & H).
      destruct (pos_eqb nm (get_food_loc a)).
      * apply food_event_counters in H as (Hnf' & Hnl' & Hl' & Hsc' & Hcf').
        simpl in Hnf', Hnl', Hl', Hsc', Hcf'.
        rewrite Hcf, Hsc in Hsc'. rewrite Hcf, Hnf in Hcf'.
        rewrite Hnf', Hnl', Hl', Hnf, Hnl.
        split; [done |]. split; [done |]. split; [done |]. right. by split.
      * inversion H; subst; simpl. auto 10.
    + inversion H; subst. auto 10.
  - apply troca_counters in H as (? & ? & ? & ? & ?). simpl in *. auto 10.
  - unfold input_colision in H. simpl in H. inversion H; subst. simpl. auto 10.
Qed.

Lemma snake_update_counters rnd s s' :
  snake_update rnd s = Ok s' → counters s' = counters s.
Proof.
  unfold snake_update. intros H.
  bind_inv H. bind_inv H.
  case_bool_decide; [by inversion H; subst |].
  bind_inv H. destruct a1; [by inversion H; subst |].
  bind_inv H. apply bind_Ok in H. destruct H as ([b2 l2] & _ & H).
  bind_inv H. by inversion H; subst.
Qed.

Lemma input_process_counters b s s' :
  input_process b s = Ok s' → counters s' = counters s.
Proof.
  unfold input_process. intros H.
  destruct (_ && b); [by inversion H; subst |].
  destruct (_ && b); [by inversion H; subst |].
  destruct (_ && b); [| by inversion H; subst].
  apply bind_Ok in H. destruct H as (sr & Hsr & H).
  pose proof (respawn_n_lives _ _ Hsr) as Hnl.
  apply respawn_frame in Hsr as (Hl & _ & Hsc & Hcf & _ & Hnf).
  unfold counters. rewrite <- Hl, <- Hsc, <- Hcf, <- Hnf, <- Hnl.
  destruct (current_life sr =? 0)%Z; by inversion H; subst.
Qed.

Lemma update_counters rnd s s' :
  update rnd s = Ok s' → current_state s ≠ LEVEL_UP →
  counters s' = counters s.
Proof.
  unfold update. intros H Hne.
  destruct (current_state s); try (by inversion H; subst); try done.
  apply bind_Ok in H. destruct H as (s1 & Hs1 & H).
  apply snake_update_counters in Hs1. by inversion H; subst.
Qed.

Lemma render_counters s s' :
  render s = Ok (Shown s') → counters s' = counters s.
Proof.
  unfold render, print_welcome, print_maze, print_snake_crashed, print_level_up.
  intros H. destruct (current_state s); try (by inversion H; subst).
  all: apply bind_Ok in H; destruct H as (s1 & Hs1 & H);
    apply bind_Ok in Hs1; destruct Hs1 as (u & _ & Hs1);
    inversion Hs1; subst; by inversion H; subst.
Qed.

Lemma process_events_counters directions b s s1 :
  loop_state (current_state s) →
  process_events directions b s = Ok s1 →
  n_food s1 = n_food s ∧ n_lives s1 = n_lives s ∧
  (current_life s1 = current_life s ∨
   current_life s1 = int_wrap (current_life s - 1)) ∧
  ((current_food s1 = current_food s ∧ score s1 = score s) ∨
   (score s1
    = int_wrap (score s + int_wrap (20 * int_wrap (current_food s + 1))) ∧
    (current_food s1 = 0%Z ∨
     (current_food s1 = int_wrap (current_food s + 1) ∧
      (current_food s1 ≠ n_food s ∨ current_state s1 = GAME_WON))))).
Proof.
  intros Hloop H. unfold process_events in H. case_match; [done |].
  assert (Hsame : ∀ s2, counters s2 = counters s →
            n_food s2 = n_food s ∧ n_lives s2 = n_lives s ∧
            (current_life s2 = current_life s ∨
             current_life s2 = int_wrap (current_life s - 1)) ∧
            ((current_food s2 = current_food s ∧ score s2 = score s) ∨
             (score s2
              = int_wrap (score s
                          + int_wrap (20 * int_wrap (current_food s + 1))) ∧
              (current_food s2 = 0%Z ∨
               (current_food s2 = int_wrap (current_food s + 1) ∧
                (current_food s2 ≠ n_food s
                 ∨ current_state s2 = GAME_WON)))))).
  { intros s2 Hc. unfold counters in Hc. inversion Hc. auto 10. }
  unfold loop_state in Hloop.
  destruct (current_state s) eqn:Hst;
    try (destruct Hloop as [? | [? | [? | [? | ?]]]]; done);
    try (inversion H; subst; by apply Hsame).
  - by apply Hsame, (input_process_counters b).
  - unfold snake_thinking in H. case_bool_decide.
    + apply troca_counters in H as (? & ? & ? & ? & ?). auto 10.
    + by apply breadthFirst_search_counters in H.
  - by apply Hsame, (input_process_counters b).
Qed.

(** With room for one turn, the [int] operations that a turn can perform
    stay in range: the food event computes [current_food + 1], 20 times
    that, and the score plus the product; the crash computes
    [current_life - 1]; the print functions compute
    [n_lives - current_life], before or after the crash. *)
Lemma counters_in_range_operations n s :
  counters_in_range (S n) s →
  int_range (current_food s + 1) ∧
  int_range (20 * (current_food s + 1)) ∧
  int_range (score s + 20 * (current_food s + 1)) ∧
  int_range (current_life s - 1) ∧
  int_range (n_lives s - current_life s) ∧
  int_range (n_lives s - (current_life s - 1)).
Proof.
  intros (Hlr & Hd1 & Hd2 & Hcr & Hnr & Hs0 & Hbudget).
  rewrite Nat2Z.inj_succ in Hlr, Hd2, Hbudget.
  rewrite Z.mul_succ_r in Hbudget.
  assert (Hroom : (0 ≤ 20 * n_food s * Z.of_nat n)%Z) by nia.
  unfold int_range. repeat split; lia.
Qed.

(** One turn uses up one turn of the room the counters leave. *)
Lemma turn_counters i s s' n :
  loop_state (current_state s) →
  counters_in_range (S n) s →
  turn i s = Ok (Shown s') →
  counters_in_range n s'.
Proof.
  intros Hloop Hrange H. unfold turn in H.
  apply bind_Ok in H. destruct H as (s1 & Hs1 & H).
  apply bind_Ok in H. destruct H as (s2 & Hs2 & H).
  pose proof (process_events_state _ _ _ _ Hs1 Hloop) as Hst1.
  assert (Hne : current_state s1 ≠ LEVEL_UP).
  { unfold loop_state in Hst1. intros Heq. rewrite Heq in Hst1.
    intuition discriminate. }
  pose proof (update_counters _ _ _ Hs2 Hne) as Hc2.
  pose proof (update_state _ _ _ Hs2 Hne) as Hst2.
  pose proof (render_counters _ _ H) as Hc'.
  apply render_state in H. destruct H as (Hnw & _ & _).
  assert (Hnw1 : current_state s1 ≠ GAME_WON).
  { intros Hw. apply Hnw. by rewrite Hst2, Hw. }
  destruct (process_events_counters _ _ _ _ Hloop Hs1)
    as (Hnf & Hnl & Hlife & Hfood).
  rewrite Hc2 in Hc'. unfold counters in Hc'.
  inversion Hc' as [[Hl' Hcf' Hsc' Hnf' Hnl']].
  destruct Hrange as (Hlr & Hd1 & Hd2 & Hcr & Hnr & Hs0 & Hbudget).
  rewrite Nat2Z.inj_succ in Hlr, Hd2, Hbudget.
  rewrite Z.mul_succ_r in Hbudget.
  set (room := (20 * n_food s * Z.of_nat n)%Z) in *.
  assert (Hroom : (0 ≤ room)%Z) by (unfold room; nia).
  unfold counters_in_range.
  rewrite Hl', Hcf', Hsc', Hnf', Hnl', Hnf, Hnl. fold room.
  assert (Hlife1 : (current_life s1 = current_life s
                    ∨ current_life s1 = current_life s - 1)%Z).
  { destruct Hlife as [-> | ->]; [by left | right].
    apply int_wrap_range. unfold int_range. lia. }
  split; [lia |]. split; [lia |]. split; [lia |].
  destruct Hfood as [[-> ->] | [Hsc1 Hcf1]]; [lia |].
  rewrite (int_wrap_range (current_food s + 1)) in Hsc1, Hcf1
    by (unfold int_range; lia).
  rewrite (int_wrap_range (20 * (current_food s + 1))) in Hsc1
    by (unfold int_range; lia).
  rewrite int_wrap_range in Hsc1 by (unfold int_range; lia).
  rewrite Hsc1.
  destruct Hcf1 as [-> | [-> [Hlt | Hwon]]]; [lia | lia | done].
Qed.

Lemma turn_on_playable i s :
  game_inv s → loop_state (current_state s) →
  ∃ r, turn i s = Ok r ∧
       match r with
       | Shown s' => game_inv s' ∧ loop_state (current_state s')
       | Exited _ => True
       end.
Proof.
  intros Hinv Hloop.
  destruct (process_events_on_playable (turn_directions i) (turn_enter i) s
              Hinv Hloop) as (s1 & Hs1 & Hinv1).
  pose proof (process_events_state _ _ _ _ Hs1 Hloop) as Hst1.
  assert (Hne : current_state s1 ≠ LEVEL_UP).
  { unfold loop_state in Hst1. intros Heq. rewrite Heq in Hst1.
    intuition discriminate. }
  destruct (update_on_playable (turn_rnd i) s1 Hinv1 Hne) as (s2 & Hs2 & Hinv2).
  destruct (render_on_playable s2 Hinv2) as (r & Hr & Hinvr).
  assert (Hturn : turn i s = Ok r).
  { unfold turn. rewrite Hs1. res_simpl. rewrite Hs2. res_simpl. exact Hr. }
  exists r. split; [done |].
  pose proof (turn_state i s r Hturn Hloop) as Hstate.
  destruct r as [s' |]; [| done]. split; [done | apply Hstate].
Qed.

Lemma game_loop_on_playable inputs : ∀ s k,
  game_inv s → loop_state (current_state s) →
  counters_in_range (length inputs + k) s →
  ∃ r, game_loop inputs s = Ok r ∧
       match r with
       | Running s' => game_inv s' ∧ loop_state (current_state s') ∧
                       counters_in_range k s'
       | Returned _ => False
       | Ended _ => True
       end.
Proof.
  induction inputs as [| i inputs IH]; intros s k Hinv Hloop Hrange.
  - simpl. unfold is_over. case_bool_decide as Hover.
    + unfold loop_state in Hloop. rewrite Hover in Hloop.
      intuition discriminate.
    + by exists (Running s).
  - cbn [game_loop]. unfold is_over. case_bool_decide as Hover.
    + unfold loop_state in Hloop. rewrite Hover in Hloop.
      intuition discriminate.
    + destruct (turn_on_playable i s Hinv Hloop) as (r & Hturn & Hr).
      rewrite Hturn. res_simpl.
      destruct r as [s' | code].
      * destruct Hr as [Hinv' Hloop']. apply IH; [done | done |].
        by apply (turn_counters i s s').
      * by exists (Ended code).
Qed.

(** X22.  On playable levels, and within the range of [int], the game
    loop never runs into undefined behaviour.  Let a turn start in one of
    the states in which the loop can be at its head ([START], [WELCOME],
    [START_SCREEN], [SNAKE_THINKING] or [SNAKE_CRASHED]); let the levels be
    rectangular, closed by walls all around, with the spawn cell inside
    and a single food tile recorded in [m_food_loc]; let the snake and its
    tiles agree; and let the counters leave room for the turns to come:
    the food counter is below its target, and the score plus
    [20 * n_food] for every turn is still an [int] (a turn counts at most
    one food and takes at most one life, so no [int] operation of these
    turns overflows).  Then every turn returns or ends the process with
    [exit], whatever keys are pressed and whatever the random draws are;
    the loop never returns through [is_over]; and at the head of the next
    turn the same holds again: the levels are still playable, the snake
    still agrees with the tiles of the current level, [next_pos] is a cell
    of the grid, and the counters leave room for the turns that remain. *)
Theorem game_loop_is_safe_on_playable_levels
    (inputs : list turn_input) (k : nat) (s : SnazeSimulation) :
  game_inv s → loop_state (current_state s) →
  counters_in_range (length inputs + k) s →
  ∃ r, game_loop inputs s = Ok r ∧
       match r with
       | Running s' => game_inv s' ∧ loop_state (current_state s') ∧
                       counters_in_range k s'
       | Returned _ => False
       | Ended _ => True
       end.
Proof.
  intros Hinv Hloop Hrange.
  destruct (game_loop_on_playable inputs s k Hinv Hloop Hrange)
    as (r & Hr & Hspec).
  exists r. split; [exact Hr |].
  destruct r as [s' | s' | code]; [| done | done].
  destruct Hspec as (Hinv' & Hloop' & Hrange').
  split; [exact Hinv' |]. split; [exact Hloop' | exact Hrange'].
Qed.

Lemma bend_level_playable : playable bend_level.
Proof.
  split; [exact bend_level_rectangular |].
  split; [vm_compute; discriminate |].
  split; [repeat split; reflexivity |].
  split; [exact bend_food_at_food_loc |].
  intros p Hin Hnot. apply all_cells_in_bounds in Hin. vm_compute in Hin.
  repeat (apply elem_of_cons in Hin as [-> | Hin];
          [first [ left; reflexivity
                 | exfalso; apply Hnot; repeat split; reflexivity ] |]).
  by apply elem_of_nil in Hin.
Qed.

Lemma bend_sim_game_inv : game_inv bend_sim.
Proof.
  split; [discriminate |]. split; [done |]. split; [done |].
  split; [constructor; [exact bend_level_playable | constructor] |].
  exists bend_level. split; [reflexivity |].
  split; [exact bend_snake_on_level |]. split; [reflexivity |].
  split; reflexivity.
Qed.

Lemma game_loop_is_safe_on_playable_levels_witness :
  ∃ r, game_loop demo_inputs bend_sim = Ok r ∧
       match r with
       | Running s' => game_inv s' ∧ loop_state (current_state s') ∧
                       counters_in_range 3 s'
       | Returned _ => False
       | Ended _ => True
       end.
Proof.
  apply (game_loop_is_safe_on_playable_levels demo_inputs 3 bend_sim).
  - exact bend_sim_game_inv.
  - unfold loop_state. simpl. auto.
  - vm_compute. repeat split; congruence.
Defined.

Lemma initialize_arg_n_lives a s s' :
  initialize_arg a s = Ok s' →
  (0 < n_lives s < 2 ^ 31)%Z → (0 < n_lives s' < 2 ^ 31)%Z.
Proof.
  unfold initialize_arg, checked_number. intros H Hn.
  destruct a as [| t | t | t | | | | loaded]; try done;
    try (destruct t as [v |]; [| done];
         destruct (N.ltb_spec (2 ^ 31 - 1) v); [done |];
         destruct (N.eqb_spec v 0); [done |]; inversion H; subst; simpl;
         first [exact Hn | lia]);
    try (inversion H; subst; exact Hn).
  destruct loaded as [loaded |]; [| done].
  destruct (levels (set_levels (levels s ++ loaded) s)); [done |].
  apply bind_Ok in H. destruct H as (lv0 & _ & H).
  apply bind_Ok in H. destruct H as (lv1 & _ & H).
  inversion H; subst. exact Hn.
Qed.

Lemma initialize_n_lives args s s' :
  initialize args s = Ok s' →
  (0 < n_lives s < 2 ^ 31)%Z → (0 < n_lives s' < 2 ^ 31)%Z.
Proof.
  unfold initialize. destruct args as [| a0 args0]; [done |].
  generalize (a0 :: args0). clear a0 args0. intros args. revert s.
  induction args as [| a args IH]; intros s H Hn.
  - simpl in H. by inversion H; subst.
  - simpl in H. apply bind_Ok in H. destruct H as (s1 & Hs1 & H).
    apply (IH s1); [done |]. by apply (initialize_arg_n_lives a s).
Qed.

Lemma initialize_arg_n_food a s s' :
  initialize_arg a s = Ok s' →
  (0 < n_food s < 2 ^ 31)%Z → (0 < n_food s' < 2 ^ 31)%Z.
Proof.
  unfold initialize_arg, checked_number. intros H Hn.
  destruct a as [| t | t | t | | | | loaded]; try done;
    try (destruct t as [v |]; [| done];
         destruct (N.ltb_spec (2 ^ 31 - 1) v); [done |];
         destruct (N.eqb_spec v 0); [done |]; inversion H; subst; simpl;
         first [exact Hn | lia]);
    try (inversion H; subst; exact Hn).
  destruct loaded as [loaded |]; [| done].
  destruct (levels (set_levels (levels s ++ loaded) s)); [done |].
  apply bind_Ok in H. destruct H as (lv0 & _ & H).
  apply bind_Ok in H. destruct H as (lv1 & _ & H).
  inversion H; subst. exact Hn.
Qed.

Lemma initialize_n_food args s s' :
  initialize args s = Ok s' →
  (0 < n_food s < 2 ^ 31)%Z → (0 < n_food s' < 2 ^ 31)%Z.
Proof.
  unfold initialize. destruct args as [| a0 args0]; [done |].
  generalize (a0 :: args0). clear a0 args0. intros args. revert s.
  induction args as [| a args IH]; intros s H Hn.
  - simpl in H. by inversion H; subst.
  - simpl in H. apply bind_Ok in H. destruct H as (s1 & Hs1 & H).
    apply (IH s1); [done |]. by apply (initialize_arg_n_food a s).
Qed.

Lemma initialize_game_inv dir0 args s :
  initialize args (SnazeSimulation_ctor dir0) = Ok s →
  existsb is_level_file args = true →
  Forall playable (levels s) →
  (Z.of_nat (length (levels s)) < 2 ^ 31)%Z →
  (∀ l p t, current_level s = Ok l → get_tile_type l p = Ok t →
            (t = SNAKE_HEAD → p = m_spawn_loc l) ∧ t ≠ SNAKE_BODY) →
  game_inv s ∧ loop_state (current_state s).
Proof.
  intros Hinit Hfile Hall Hlen Hfresh.
  destruct (initialize_frame _ _ _ Hinit)
    as (Hst & _ & Hnp & _ & _ & Hidx & Hfps & _).
  assert (Hspawn : at_spawn s ∧ dir s = right).
  { unfold initialize in Hinit. destruct args as [| a0 args0]; [done |].
    exact (proj1 (initialize_at_spawn _ _ _ Hinit) Hfile). }
  destruct Hspawn as [(l & Hl & Hhp & Hbody & Hhd) _].
  split; [| rewrite Hst; by left].
  split; [by apply Hfps |]. split; [by rewrite Hidx |].
  split; [done |]. split; [done |].
  exists l. split; [done |].
  assert (Hplay : playable l).
  { rewrite Forall_forall in Hall. apply Hall.
    destruct (current_level_index_range s l Hl) as (_ & _ & Hlook).
    apply list_elem_of_lookup. eauto. }
  split; [| split].
  - split; [rewrite Hbody; apply NoDup_singleton |].
    exists (m_spawn_loc l), []. split; [done |].
    split; intros p; split.
    + intros Hp. by apply (Hfresh l p SNAKE_HEAD Hl Hp).
    + by intros ->.
    + intros Hp. by destruct (Hfresh l p SNAKE_BODY Hl Hp).
    + by intros ?%elem_of_nil.
  - by rewrite Hbody, Hhp.
  - rewrite Hnp. simpl.
    destruct Hplay as (_ & _ & (? & ? & ? & ?) & _).
    unfold in_bounds. simpl. lia.
Qed.

(** What [initialize] leaves in the counters: 5 lives, no food counted, no
    score, and a target that is a positive [int]. *)
Lemma initialize_counters dir0 args s turns :
  initialize args (SnazeSimulation_ctor dir0) = Ok s →
  (20 * n_food s * Z.of_nat turns < 2 ^ 31)%Z →
  (n_lives s + Z.of_nat turns < 2 ^ 31)%Z →
  counters_in_range turns s.
Proof.
  intros Hinit Hbudget Hlives.
  destruct (initialize_frame _ _ _ Hinit)
    as (_ & Hlife & _ & Hsc & Hcf & _).
  pose proof (initialize_n_food _ _ _ Hinit) as Hnf.
  pose proof (initialize_n_lives _ _ _ Hinit) as Hnl.
  simpl in Hlife, Hsc, Hcf, Hnf, Hnl.
  assert (Hn : (0 < n_food s < 2 ^ 31)%Z) by (apply Hnf; lia).
  assert (Hl : (0 < n_lives s < 2 ^ 31)%Z) by (apply Hnl; lia).
  unfold counters_in_range. rewrite Hlife, Hsc, Hcf.
  split; [lia |]. split; [lia |]. split; [lia |].
  split; [lia |]. split; [lia |]. split; [lia |]. lia.
Qed.

(** X23.  The whole program on playable levels, within the range of
    [int].  When [initialize] returns with a level file loaded, every
    level playable, the first level showing no snake tile but the head on
    its spawn cell, and the run is short enough for the counters:
    [20 * n_food] for every turn to come is still an [int], and so is
    [n_lives] plus the number of turns (so neither the score nor
    [n_lives - current_life] can overflow in these turns), [main] does not
    run into undefined behaviour: the run goes on turn after turn, keeping
    the levels playable, the snake on its tiles and the counters in
    range, until a call of [exit]; it never returns through [is_over]. *)
Theorem snaze_main_is_safe_on_playable_levels
    (dir0 : direction) (args : list cli_arg) (inputs : list turn_input)
    (k : nat) (s : SnazeSimulation) :
  initialize args (SnazeSimulation_ctor dir0) = Ok s →
  existsb is_level_file args = true →
  Forall playable (levels s) →
  (Z.of_nat (length (levels s)) < 2 ^ 31)%Z →
  (∀ l p t, current_level s = Ok l → get_tile_type l p = Ok t →
            (t = SNAKE_HEAD → p = m_spawn_loc l) ∧ t ≠ SNAKE_BODY) →
  (20 * n_food s * Z.of_nat (length inputs + k) < 2 ^ 31)%Z →
  (n_lives s + Z.of_nat (length inputs + k) < 2 ^ 31)%Z →
  ∃ r, snaze_main dir0 args inputs = Ok r ∧
       match r with
       | Running s' => game_inv s' ∧ loop_state (current_state s') ∧
                       counters_in_range k s'
       | Returned _ => False
       | Ended _ => True
       end.
Proof.
  intros Hinit Hfile Hall Hlen Hfresh Hbudget Hlives.
  destruct (initialize_game_inv dir0 args s Hinit Hfile Hall Hlen Hfresh)
    as [Hinv Hloop].
  unfold snaze_main. rewrite Hinit. res_simpl.
  apply game_loop_on_playable; [done | done |].
  by apply (initialize_counters dir0 args).
Qed.

Lemma snaze_main_is_safe_on_playable_levels_witness :
  ∃ r, snaze_main right [arg_file (Some [bend_level])] demo_inputs = Ok r ∧
       match r with
       | Running s' => game_inv s' ∧ loop_state (current_state s') ∧
                       counters_in_range 3 s'
       | Returned _ => False
       | Ended _ => True
       end.
Proof.
  apply (snaze_main_is_safe_on_playable_levels right
           [arg_file (Some [bend_level])] demo_inputs 3 bend_start_sim).
  - vm_compute. reflexivity.
  - reflexivity.
  - constructor; [exact bend_level_playable | constructor].
  - vm_compute. reflexivity.
  - intros l p t Hl Ht.
    assert (l = bend_level) as -> by (vm_compute in Hl; by inversion Hl).
    split.
    + intros ->. tile_scan bend_level_rectangular Ht p.
    + intros ->. tile_scan bend_level_rectangular Ht p.
  - vm_compute. reflexivity.
  - vm_compute. reflexivity.
Defined.
